(** * usdb_syncer: the song loader and the song table controller

    A shallow embedding of [usdb_syncer/song_loader.py] and of the download
    and delete actions of [usdb_syncer/gui/song_table/song_table.py].

    The loader is stateful and can raise, so its functions are written in a
    small state-and-exception monad over a [World]: the file system, the
    callbacks that were invoked, the calls made to the download primitives
    and the log.  The collaborators the loader only calls (scraper, download
    primitives, parser, helpers of [utils]) are fields of a [Collaborators]
    record. *)

From stdpp Require Import gmap strings list fin_maps pretty.

#[local] Open Scope string_scope.
#[local] Open Scope list_scope.
#[local] Open Scope nat_scope.

(** ** Python truthiness of the values the loader tests *)

Definition str_truthy (s : string) : bool := negb (String.eqb s "").

Definition opt_truthy (o : option string) : bool :=
  match o with
  | Some s => str_truthy s
  | None => false
  end.

(** ** Paths

    A [pathlib.Path] that names a directory is the list of its components;
    one that names a regular file is the directory it is in and its name.
    The library is modelled as its song directories, which hold regular
    files only. *)

Abbreviation DirPath := (list string) (only parsing).
Abbreviation Path := (list string * string)%type (only parsing).

(** On a file: [parent], [name], [with_name]. *)
Definition parent (p : Path) : DirPath := p.1.
Definition name (p : Path) : string := p.2.
Definition with_name (p : Path) (n : string) : Path := (parent p, n).

(** On a directory: [name], [with_name], and [joinpath] to a file in it or to
    a directory below it. *)
Definition dir_name (d : DirPath) : string := List.last d "".
Definition dir_with_name (d : DirPath) (n : string) : DirPath := removelast d ++ [n].
Definition joinpath (d : DirPath) (n : string) : Path := (d, n).
Definition subdir (d : DirPath) (n : string) : DirPath := d ++ [n].

(** [Path.suffix]: the name from its last dot on, when that dot is neither
    the first nor the last character of the name. *)
Fixpoint last_dot (s : string) : option nat :=
  match s with
  | EmptyString => None
  | String c s' =>
      match last_dot s' with
      | Some i => Some (S i)
      | None => if Ascii.eqb c (Ascii.ascii_of_nat 46) then Some 0 else None
      end
  end.

Definition suffix (n : string) : string :=
  match last_dot n with
  | Some i =>
      if (0 <? i) && (i <? String.length n - 1)
      then String.substring i (String.length n - i) n
      else ""
  | None => ""
  end.

(** ** Data model *)

Abbreviation SongId := Z (only parsing).

(** Modelled from the spec: a resource descriptor of [sync_meta.py] is a
    relative filename and the source resource identifier it was built from. *)
Record FileMeta := mkFileMeta { fname : string; resource : string }.

(** Modelled from the spec: the image directives of [meta_tags.py] are kept
    as their text; [source_url] of the collaborators reads the URL off. *)
Abbreviation ImageMetaTags := string (only parsing).

Record MetaTags := mkMetaTags {
  mt_audio : option string;
  mt_video : option string;
  mt_cover : option ImageMetaTags;
  mt_background : option ImageMetaTags
}.

(** Modelled from the spec: the per-song record of [sync_meta.py]. *)
Record SyncMeta := mkSyncMeta {
  sm_song_id : SongId;
  sm_meta_tags : MetaTags;
  sm_pinned : bool;
  sm_txt : option FileMeta;
  sm_audio : option FileMeta;
  sm_video : option FileMeta;
  sm_cover : option FileMeta;
  sm_background : option FileMeta
}.

Record Headers := mkHeaders {
  h_artist : string;
  h_title : string;
  h_language : string;
  h_genre : option string;
  h_year : option string;
  h_creator : option string;
  h_mp3 : option string;
  h_video : option string;
  h_cover : option string;
  h_background : option string
}.

Record SongTxt := mkSongTxt {
  headers : Headers;
  meta_tags : MetaTags;
  notes : string
}.

Record SongDetails := mkSongDetails {
  d_song_id : SongId;
  d_artist : string;
  d_title : string;
  d_uploader : string;
  d_cover_url : option string;
  d_comment_videos : list string
}.

Record AudioOptions := mkAudioOptions { embed_artwork : bool }.
Record CoverOptions := mkCoverOptions { max_size : Z }.
Record BackgroundOptions := mkBackgroundOptions { download_background : bool → bool }.
Record TxtOptions := mkTxtOptions { encoding : string; newline : string }.

Record Options := mkOptions {
  song_dir : DirPath;
  txt_options : option TxtOptions;
  audio_options : option AudioOptions;
  browser : string;
  video_options : option unit;
  cover : option CoverOptions;
  background_options : option BackgroundOptions
}.

Record DownloadInfo := mkDownloadInfo {
  song_id : SongId;
  meta_path : option Path
}.

Record Locations := mkLocations {
  loc_meta_path : Path;
  filename_stem : string
}.

Record LocalFiles := mkLocalFiles {
  usdb_path : Path;
  lf_sync_meta : SyncMeta
}.

Record DownloadResult := mkDownloadResult {
  r_song_id : SongId;
  r_files : option LocalFiles
}.

(** ** The world a task runs in *)

(** What a regular file holds: a serialised [SyncMeta], a written song txt
    or a media payload, and the tags embedded in the file. *)
Inductive Body :=
| MetaJson (sm : SyncMeta)
| TxtData (t : SongTxt) (enc nl : string)
| Payload (bytes : string).

Inductive TagValue :=
| Text (s : string)
| Pictures (l : list string).

Record Content := mkContent {
  body : Body;
  tags : gmap string TagValue
}.

(** The library on disk: each existing directory with its regular files. *)
Abbreviation Files := (gmap string Content) (only parsing).
Abbreviation FS := (gmap (list string) (gmap string Content)) (only parsing).

Inductive ImageKind := COVER | BACKGROUND.

Inductive Call :=
| CallAudio (res : string) (target : Path)
| CallVideo (res : string) (target : Path)
| CallImage (url : string) (kind : ImageKind) (target : Path).

Inductive Event :=
| OnStart (id : SongId)
| OnFinish (r : DownloadResult).

Inductive Level := DEBUG | INFO | WARNING | ERROR.

Record World := mkWorld {
  fs : FS;
  events : list Event;
  calls : list Call;
  log : list (Level * string)
}.

Definition set_fs (f : FS → FS) (w : World) : World :=
  mkWorld (f (fs w)) (events w) (calls w) (log w).
Definition add_event (e : Event) (w : World) : World :=
  mkWorld (fs w) (events w ++ [e]) (calls w) (log w).
Definition add_call (c : Call) (w : World) : World :=
  mkWorld (fs w) (events w) (calls w ++ [c]) (log w).
Definition add_log (l : Level) (msg : string) (w : World) : World :=
  mkWorld (fs w) (events w) (calls w) (log w ++ [(l, msg)]).

(** *** File-system primitives *)

Definition dir_exists (f : FS) (d : DirPath) : bool := bool_decide (is_Some (f !! d)).

Definition read_file (f : FS) (p : Path) : option Content :=
  f !! parent p ≫= λ files, files !! name p.

Definition file_exists (f : FS) (p : Path) : bool := bool_decide (is_Some (read_file f p)).


(** Writing a regular file, the way the download primitives and the writers
    leave it on disk. *)
Definition write_file (p : Path) (c : Content) (f : FS) : FS :=
  <[parent p := <[name p := c]> (default ∅ (f !! parent p))]> f.

(** [Path.mkdir(parents=True, exist_ok=True)]. *)
Definition mkdir (d : DirPath) (f : FS) : FS :=
  match f !! d with
  | Some _ => f
  | None => <[d := ∅]> f
  end.

(** The effect of [Path.rename] on a regular file or a directory that
    exists. *)
Definition move_file (old new : Path) (c : Content) (f : FS) : FS :=
  write_file new c (<[parent old := delete (name old) (default ∅ (f !! parent old))]> f).

Definition move_dir (old new : DirPath) (files : gmap string Content) (f : FS) : FS :=
  <[new := files]> (delete old f).

(** ** The monad of a task: state passing over [World], with exceptions *)

Inductive Exn :=
| FileNotFoundError (dir : DirPath) (file : string)
| InvalidLanguageValue (lang : string)
| MutagenError (p : Path)
| TypeError (msg : string)
| AssertionError.

(** How a computation over a state ends: with a value, or with an exception
    raised; either way with the state it left behind. *)
Inductive Outcome (S A : Type) :=
| Ok (a : A) (s : S)
| Raised (e : Exn) (s : S).
Arguments Ok {S A} a s.
Arguments Raised {S A} e s.

Definition M (A : Type) : Type := World → Outcome World A.

Definition ret {A} (a : A) : M A := λ w, Ok a w.
Definition raise {A} (e : Exn) : M A := λ w, Raised e w.
Definition bind {A B} (m : M A) (k : A → M B) : M B :=
  λ w, match m w with
       | Ok a w' => k a w'
       | Raised e w' => Raised e w'
       end.

Declare Scope task_scope.
Delimit Scope task_scope with task.
Notation "'let!' x ':=' m 'in' k" := (bind m (λ x, k))
  (at level 10, x name, m at level 100, k at level 200) : task_scope.
Notation "m ;; k" := (bind m (λ _, k))
  (at level 100, k at level 200, right associativity) : task_scope.
#[local] Open Scope task_scope.

Definition get_world : M World := λ w, Ok w w.
Definition modify (f : World → World) : M unit := λ w, Ok tt (f w).
Definition logger (l : Level) (msg : string) : M unit := modify (add_log l msg).

(** [Path.rename], of a regular file and of a directory: raises when the
    source does not exist. *)
Definition rename (old new : Path) : M unit :=
  let! w := get_world in
  match read_file (fs w) old with
  | Some c => modify (set_fs (move_file old new c))
  | None => raise (FileNotFoundError (parent old) (name old))
  end.

Definition rename_dir (old new : DirPath) : M unit :=
  let! w := get_world in
  match fs w !! old with
  | Some files => modify (set_fs (move_dir old new files))
  | None => raise (FileNotFoundError old "")
  end.

(** [Path.read_bytes] *)
Definition read_bytes (bytes_of : Content → string) (p : Path) : M string :=
  let! w := get_world in
  match read_file (fs w) p with
  | Some c => ret (bytes_of c)
  | None => raise (FileNotFoundError (parent p) (name p))
  end.

Definition world_of {S A} (o : Outcome S A) : S :=
  match o with
  | Ok _ w => w
  | Raised _ w => w
  end.

Definition is_ok {S A} (o : Outcome S A) : bool :=
  match o with
  | Ok _ _ => true
  | Raised _ _ => false
  end.

(** [meta and meta.resource == resource] *)
Definition unchanged (meta : option FileMeta) (res : string) : option FileMeta :=
  match meta with
  | Some m => if bool_decide (resource m = res) then Some m else None
  | None => None
  end.

(** ** Collaborators

    Code of the repository and of its dependencies that the loader calls and
    that is not part of the two embedded files. *)
Record Collaborators := mkCollaborators {
  (* usdb_scraper *)
  get_usdb_details : SongId → option SongDetails;
  get_notes : SongId → option string;
  (* song_txt, meta_tags *)
  parse : string → SongTxt;
  sanitize : SongTxt → SongTxt;
  artist_title_str : Headers → string;
  main_language : Headers → string;
  minimum_song_length : SongTxt → string;
  unsynchronized_lyrics : SongTxt → string;
  synchronized_lyrics : SongTxt → string;
  is_audio_only : MetaTags → bool;
  source_url : ImageMetaTags → string;
  (* utils *)
  sanitize_filename : string → string;
  is_name_maybe_with_suffix : string → string → bool;
  next_unique_directory : FS → DirPath → DirPath;
  resource_file_ending : string → string;
  (* resource_dl: the final extension (audio, video) or the name of the
     written file (image), and the bytes that end up on disk *)
  dl_audio : string → option string;
  dl_video : string → option string;
  dl_image : string → ImageKind → option string;
  payload_of : string → string;
  container_tags : string → gmap string TagValue;
  file_bytes : Content → string;
  (* iso639: the ISO 639-2B code, if the language is known *)
  pt2b : string → option string
}.

(** ** Locations *)

Definition dir_path (l : Locations) : DirPath := parent (loc_meta_path l).

(** [Locations.file_path(file, ext)] *)
Definition file_path (l : Locations) (file ext : string) : Path :=
  let n := if str_truthy file then file else filename_stem l in
  let n := if str_truthy ext then n +:+ "." +:+ ext else n in
  with_name (loc_meta_path l) n.

Record Context := mkContext {
  details : SongDetails;
  options : Options;
  txt : SongTxt;
  locations : Locations;
  sync_meta : SyncMeta
}.

Definition set_headers (f : Headers → Headers) (ctx : Context) : Context :=
  mkContext (details ctx) (options ctx)
    (mkSongTxt (f (headers (txt ctx))) (meta_tags (txt ctx)) (notes (txt ctx)))
    (locations ctx) (sync_meta ctx).
Definition set_sync_meta (f : SyncMeta → SyncMeta) (ctx : Context) : Context :=
  mkContext (details ctx) (options ctx) (txt ctx) (locations ctx) (f (sync_meta ctx)).
Definition set_locations (l : Locations) (ctx : Context) : Context :=
  mkContext (details ctx) (options ctx) (txt ctx) l (sync_meta ctx).

Definition set_mp3 (v : string) (h : Headers) : Headers :=
  mkHeaders (h_artist h) (h_title h) (h_language h) (h_genre h) (h_year h)
    (h_creator h) (Some v) (h_video h) (h_cover h) (h_background h).
Definition set_video (v : string) (h : Headers) : Headers :=
  mkHeaders (h_artist h) (h_title h) (h_language h) (h_genre h) (h_year h)
    (h_creator h) (h_mp3 h) (Some v) (h_cover h) (h_background h).
Definition set_cover (v : string) (h : Headers) : Headers :=
  mkHeaders (h_artist h) (h_title h) (h_language h) (h_genre h) (h_year h)
    (h_creator h) (h_mp3 h) (h_video h) (Some v) (h_background h).
Definition set_background (v : string) (h : Headers) : Headers :=
  mkHeaders (h_artist h) (h_title h) (h_language h) (h_genre h) (h_year h)
    (h_creator h) (h_mp3 h) (h_video h) (h_cover h) (Some v).
Definition set_creator (v : option string) (h : Headers) : Headers :=
  mkHeaders (h_artist h) (h_title h) (h_language h) (h_genre h) (h_year h)
    v (h_mp3 h) (h_video h) (h_cover h) (h_background h).

(** *** SyncMeta accessors and mutators

    Modelled from the spec: [synced_*] return the recorded descriptor only
    while the file it names still exists in the directory; [set_*_meta]
    record the filename of the path and the source identifier. *)

Definition synced (slot : option FileMeta) (dir : DirPath) (f : FS) : option FileMeta :=
  match slot with
  | Some m => if file_exists f (joinpath dir (fname m)) then Some m else None
  | None => None
  end.

Definition synced_audio (sm : SyncMeta) := synced (sm_audio sm).
Definition synced_video (sm : SyncMeta) := synced (sm_video sm).
Definition synced_cover (sm : SyncMeta) := synced (sm_cover sm).
Definition synced_background (sm : SyncMeta) := synced (sm_background sm).

Definition set_txt_slot (v : option FileMeta) (sm : SyncMeta) : SyncMeta :=
  mkSyncMeta (sm_song_id sm) (sm_meta_tags sm) (sm_pinned sm)
    v (sm_audio sm) (sm_video sm) (sm_cover sm) (sm_background sm).
Definition set_audio_slot (v : option FileMeta) (sm : SyncMeta) : SyncMeta :=
  mkSyncMeta (sm_song_id sm) (sm_meta_tags sm) (sm_pinned sm)
    (sm_txt sm) v (sm_video sm) (sm_cover sm) (sm_background sm).
Definition set_video_slot (v : option FileMeta) (sm : SyncMeta) : SyncMeta :=
  mkSyncMeta (sm_song_id sm) (sm_meta_tags sm) (sm_pinned sm)
    (sm_txt sm) (sm_audio sm) v (sm_cover sm) (sm_background sm).
Definition set_cover_slot (v : option FileMeta) (sm : SyncMeta) : SyncMeta :=
  mkSyncMeta (sm_song_id sm) (sm_meta_tags sm) (sm_pinned sm)
    (sm_txt sm) (sm_audio sm) (sm_video sm) v (sm_background sm).
Definition set_background_slot (v : option FileMeta) (sm : SyncMeta) : SyncMeta :=
  mkSyncMeta (sm_song_id sm) (sm_meta_tags sm) (sm_pinned sm)
    (sm_txt sm) (sm_audio sm) (sm_video sm) (sm_cover sm) v.

Definition set_txt_meta (p : Path) : SyncMeta → SyncMeta :=
  set_txt_slot (Some (mkFileMeta (name p) "")).
Definition set_audio_meta (p : Path) (res : string) : SyncMeta → SyncMeta :=
  set_audio_slot (Some (mkFileMeta (name p) res)).
Definition set_video_meta (p : Path) (res : string) : SyncMeta → SyncMeta :=
  set_video_slot (Some (mkFileMeta (name p) res)).
Definition set_cover_meta (p : Path) (res : string) : SyncMeta → SyncMeta :=
  set_cover_slot (Some (mkFileMeta (name p) res)).
Definition set_background_meta (p : Path) (res : string) : SyncMeta → SyncMeta :=
  set_background_slot (Some (mkFileMeta (name p) res)).

(** A generator, as the steps it takes each time the consumer resumes it:
    it yields a resource or it logs. *)
Inductive GenStep :=
| Yield (res : string)
| GenLog (l : Level) (msg : string).

(** How a loop was left: by a [return] of the enclosing function, or by
    [break] or exhaustion, after which the code behind the loop runs. *)
Inductive Flow (A : Type) :=
| Return (a : A)
| Fallthrough (a : A).
Arguments Return {A} a.
Arguments Fallthrough {A} a.

Section Loader.

Context (E : Collaborators).

(** *** The download primitives of [resource_dl]

    Modelled from the spec: "download audio/video resource to path, return
    final extension or failure"; on success the file is at the target stem
    with that extension. *)

Definition media_target (target : Path) (ext : string) : Path :=
  with_name target (name target +:+ "." +:+ ext).

Definition download_audio (res : string) (target : Path) : M (option string) :=
  modify (add_call (CallAudio res target)) ;;
  match dl_audio E res with
  | Some ext =>
      (if str_truthy ext
       then modify (set_fs (write_file (media_target target ext) (mkContent (Payload (payload_of E res)) (container_tags E res))))
       else ret tt) ;;
      ret (Some ext)
  | None => ret None
  end.

Definition download_video (res : string) (target : Path) : M (option string) :=
  modify (add_call (CallVideo res target)) ;;
  match dl_video E res with
  | Some ext =>
      (if str_truthy ext
       then modify (set_fs (write_file (media_target target ext) (mkContent (Payload (payload_of E res)) (container_tags E res))))
       else ret tt) ;;
      ret (Some ext)
  | None => ret None
  end.

(** Modelled from the spec: "download and process image, return final path
    or failure"; the image is written next to the target. *)
Definition download_and_process_image (url : string) (target : Path)
    (kind : ImageKind) : M (option Path) :=
  modify (add_call (CallImage url kind target)) ;;
  match dl_image E url kind with
  | Some n =>
      modify (set_fs (write_file (with_name target n) (mkContent (Payload (payload_of E url)) ∅))) ;;
      ret (Some (with_name target n))
  | None => ret None
  end.

(** *** Context: the candidate generators and the image URLs *)

Definition all_video_resources (ctx : Context) : list GenStep :=
  (if opt_truthy (mt_video (meta_tags (txt ctx)))
   then [Yield (default "" (mt_video (meta_tags (txt ctx))))] else [])
  ++ map Yield (d_comment_videos (details ctx)).

Definition all_audio_resources (ctx : Context) : list GenStep :=
  (if opt_truthy (mt_audio (meta_tags (txt ctx)))
   then [Yield (default "" (mt_audio (meta_tags (txt ctx))))] else [])
  ++ (if negb (opt_truthy (mt_video (meta_tags (txt ctx))))
      then [GenLog DEBUG "No audio/video meta tag. Looking in comments."] else [])
  ++ all_video_resources ctx.

(** The resources a generator yields, in order. *)
Definition yields (gen : list GenStep) : list string :=
  omap (λ s, match s with Yield r => Some r | GenLog _ _ => None end) gen.

(** *** [_maybe_download_audio] *)

Fixpoint audio_loop (meta : option FileMeta) (idx : nat) (gen : list GenStep)
    (ctx : Context) : M (Flow Context) :=
  match gen with
  | [] => ret (Fallthrough ctx)
  | GenLog l msg :: gen' => logger l msg ;; audio_loop meta idx gen' ctx
  | Yield res :: gen' =>
      match unchanged meta res with
      | Some m =>
          logger INFO "Audio resource is unchanged." ;;
          ret (Return (set_headers (set_mp3 (fname m)) ctx))
      | None =>
          if 9 <? idx then ret (Fallthrough ctx)
          else
            let! ext := download_audio res (file_path (locations ctx) "" "") in
            match ext with
            | Some e =>
                if str_truthy e then
                  let path := file_path (locations ctx) "" e in
                  logger INFO "Success! Downloaded audio." ;;
                  ret (Return (set_headers (set_mp3 (name path))
                                 (set_sync_meta (set_audio_meta path res) ctx)))
                else audio_loop meta (S idx) gen' ctx
            | None => audio_loop meta (S idx) gen' ctx
            end
      end
  end.

Definition _maybe_download_audio (ctx : Context) : M Context :=
  match audio_options (options ctx) with
  | None => ret ctx
  | Some _ =>
      let! w := get_world in
      let meta := synced_audio (sync_meta ctx) (dir_path (locations ctx)) (fs w) in
      let! r := audio_loop meta 0 (all_audio_resources ctx) ctx in
      match r with
      | Return ctx' => ret ctx'
      | Fallthrough ctx' =>
          logger ERROR ("Failed to download audio (song duration > "
                          +:+ minimum_song_length E (txt ctx') +:+ ")!") ;;
          ret ctx'
      end
  end.

(** *** [_maybe_download_video] *)

Fixpoint video_loop (meta : option FileMeta) (idx : nat) (gen : list GenStep)
    (ctx : Context) : M (Flow Context) :=
  match gen with
  | [] => ret (Fallthrough ctx)
  | GenLog l msg :: gen' => logger l msg ;; video_loop meta idx gen' ctx
  | Yield res :: gen' =>
      match unchanged meta res with
      | Some m =>
          logger INFO "Video resource is unchanged." ;;
          ret (Return (set_headers (set_video (fname m)) ctx))
      | None =>
          if 9 <? idx then ret (Fallthrough ctx)
          else
            let! ext := download_video res (file_path (locations ctx) "" "") in
            match ext with
            | Some e =>
                if str_truthy e then
                  let path := file_path (locations ctx) "" e in
                  logger INFO "Success! Downloaded video." ;;
                  ret (Return (set_headers (set_video (name path))
                                 (set_sync_meta (set_video_meta path res) ctx)))
                else video_loop meta (S idx) gen' ctx
            | None => video_loop meta (S idx) gen' ctx
            end
      end
  end.

Definition _maybe_download_video (ctx : Context) : M Context :=
  match video_options (options ctx) with
  | None => ret ctx
  | Some _ =>
      if is_audio_only E (meta_tags (txt ctx)) then ret ctx
      else
        let! w := get_world in
        let meta := synced_video (sync_meta ctx) (dir_path (locations ctx)) (fs w) in
        let! r := video_loop meta 0 (all_video_resources ctx) ctx in
        match r with
        | Return ctx' => ret ctx'
        | Fallthrough ctx' => logger ERROR "Failed to download video!" ;; ret ctx'
        end
  end.

(** *** [_maybe_download_cover] and [_maybe_download_background] *)

Definition cover_url (ctx : Context) : M (option string) :=
  match mt_cover (meta_tags (txt ctx)) with
  | Some c =>
      let url := source_url E c in
      logger DEBUG ("downloading cover from #VIDEO params: " +:+ url) ;;
      ret (Some url)
  | None =>
      if opt_truthy (d_cover_url (details ctx)) then
        logger WARNING "no cover resource in #VIDEO tag, so fallback to small usdb cover!" ;;
        ret (d_cover_url (details ctx))
      else ret None
  end.

Definition background_url (ctx : Context) : M (option string) :=
  match mt_background (meta_tags (txt ctx)) with
  | Some b =>
      let url := source_url E b in
      logger DEBUG ("downloading background from #VIDEO params: " +:+ url) ;;
      ret (Some url)
  | None => ret None
  end.

Definition _maybe_download_cover (ctx : Context) : M Context :=
  match cover (options ctx) with
  | None => ret ctx
  | Some _ =>
      let! url := cover_url ctx in
      match url with
      | Some u =>
          if str_truthy u then
            let! w := get_world in
            let meta :=
              if bool_decide (mt_cover (sm_meta_tags (sync_meta ctx))
                              = mt_cover (meta_tags (txt ctx)))
              then synced_cover (sync_meta ctx) (dir_path (locations ctx)) (fs w)
              else None in
            match meta with
            | Some m =>
                logger INFO "Cover resource is unchanged." ;;
                ret (set_headers (set_cover (fname m)) ctx)
            | None =>
                let! path := download_and_process_image u
                               (file_path (locations ctx) "" "") COVER in
                match path with
                | Some p =>
                    logger INFO "Success! Downloaded cover." ;;
                    ret (set_sync_meta (set_cover_meta p u)
                           (set_headers (set_cover (name p)) ctx))
                | None => logger ERROR "Failed to download cover!" ;; ret ctx
                end
            end
          else logger WARNING "No cover resource found." ;; ret ctx
      | None => logger WARNING "No cover resource found." ;; ret ctx
      end
  end.

Definition _maybe_download_background (ctx : Context) : M Context :=
  match background_options (options ctx) with
  | None => ret ctx
  | Some opts =>
      if negb (download_background opts (opt_truthy (h_video (headers (txt ctx)))))
      then ret ctx
      else
        let! url := background_url ctx in
        match url with
        | Some u =>
            if str_truthy u then
              let! w := get_world in
              let meta :=
                if bool_decide (mt_background (sm_meta_tags (sync_meta ctx))
                                = mt_background (meta_tags (txt ctx)))
                then synced_background (sync_meta ctx) (dir_path (locations ctx)) (fs w)
                else None in
              match meta with
              | Some m =>
                  logger INFO "Background resource is unchanged." ;;
                  ret (set_headers (set_background (fname m)) ctx)
              | None =>
                  let! path := download_and_process_image u
                                 (file_path (locations ctx) "" "") BACKGROUND in
                  match path with
                  | Some p =>
                      logger INFO "Success! Downloaded background." ;;
                      ret (set_sync_meta (set_background_meta p u)
                             (set_headers (set_background (name p)) ctx))
                  | None => logger ERROR "Failed to download background!" ;; ret ctx
                  end
              end
            else logger WARNING "No background resource found." ;; ret ctx
        | None => logger WARNING "No background resource found." ;; ret ctx
        end
  end.

(** *** Writers *)

Definition _maybe_write_txt (ctx : Context) : M Context :=
  match txt_options (options ctx) with
  | None => ret ctx
  | Some opts =>
      let path := file_path (locations ctx) "" "txt" in
      modify (set_fs (write_file path
                        (mkContent (TxtData (txt ctx) (encoding opts) (newline opts)) ∅))) ;;
      logger INFO "Success! Created song txt." ;;
      ret (set_sync_meta (set_txt_meta path) ctx)
  end.

(** Modelled from the spec: [SyncMeta.to_file] serialises the record into the
    metadata file of the directory, the file [Locations.new] names after the
    song identifier. *)
Definition sync_meta_name (id : SongId) : string := pretty id +:+ ".usdb".

Definition to_file (sm : SyncMeta) (dir : DirPath) : M unit :=
  modify (set_fs (write_file (joinpath dir (sync_meta_name (sm_song_id sm)))
                    (mkContent (MetaJson sm) ∅))).

Definition _write_sync_meta (ctx : Context) : M unit :=
  to_file (sync_meta ctx) (dir_path (locations ctx)).

(** The artwork of the "covr" atom: the bytes of each recorded image. *)
Fixpoint read_artwork (l : Locations) (images : list (option FileMeta)) : M (list string) :=
  match images with
  | [] => ret []
  | None :: rest => read_artwork l rest
  | Some image :: rest =>
      let! b := read_bytes (file_bytes E) (file_path l (fname image) "") in
      let! bs := read_artwork l rest in
      ret (b :: bs)
  end.

Definition set_opt_tag (key : string) (v : option string)
    (t : gmap string TagValue) : gmap string TagValue :=
  match v with
  | Some s => if str_truthy s then <[key := Text s]> t else t
  | None => t
  end.

Definition _write_m4a_tags (audiofile : Path) (ctx : Context) (embed : bool) : M unit :=
  let! w := get_world in
  match read_file (fs w) audiofile with
  | Some (mkContent (Payload bytes) old) =>
      if bool_decide (old = ∅) then ret tt
      else
        let h := headers (txt ctx) in
        let t := <["\xa9ART" := Text (h_artist h)]> old in
        let t := <["\xa9nam" := Text (h_title h)]> t in
        let t := set_opt_tag "\xa9gen" (h_genre h) t in
        let t := set_opt_tag "\xa9day" (h_year h) t in
        let t := <["\xa9lyr" := Text (unsynchronized_lyrics E (txt ctx))]> t in
        let t := <["\xa9cmt" := Text (default "" (resource <$> sm_audio (sync_meta ctx)))]> t in
        let! covr :=
          if embed
          then read_artwork (locations ctx)
                 [sm_cover (sync_meta ctx); sm_background (sync_meta ctx)]
          else ret [] in
        let t := <["covr" := Pictures covr]> t in
        modify (set_fs (write_file audiofile (mkContent (Payload bytes) t)))
  | _ => raise (MutagenError audiofile)
  end.

Definition _write_mp3_tags (audiofile : Path) (ctx : Context) (embed : bool) : M unit :=
  let h := headers (txt ctx) in
  match pt2b E (main_language E h) with
  | None => raise (InvalidLanguageValue (main_language E h))
  | Some lang =>
      let t : gmap string TagValue := <["TPE1" := Text (h_artist h)]> ∅ in
      let t := <["TIT2" := Text (h_title h)]> t in
      let t := <["TLAN" := Text lang]> t in
      let t := set_opt_tag "TCON" (h_genre h) t in
      let t := set_opt_tag "TDRC" (h_year h) t in
      let t := <["USLT::'" +:+ lang +:+ "'" := Text (unsynchronized_lyrics E (txt ctx))]> t in
      let t := <["SYLT" := Text (synchronized_lyrics E (txt ctx))]> t in
      let t := <["COMM" := Text (default "" (resource <$> sm_audio (sync_meta ctx)))]> t in
      let! t :=
        match sm_cover (sync_meta ctx) with
        | Some c =>
            if embed then
              let! b := read_bytes (file_bytes E) (file_path (locations ctx) (fname c) "") in
              ret (<["APIC:Source: " +:+ resource c := Pictures [b]]> t)
            else ret t
        | None => ret t
        end in
      let! w := get_world in
      let old := default (Payload "") (body <$> read_file (fs w) audiofile) in
      modify (set_fs (write_file audiofile (mkContent old t)))
  end.

Definition _maybe_write_audio_tags (ctx : Context) : M unit :=
  match audio_options (options ctx), sm_audio (sync_meta ctx) with
  | Some opts, Some meta =>
      let audiofile := file_path (locations ctx) (fname meta) "" in
      if bool_decide (suffix (name audiofile) = ".m4a")
      then _write_m4a_tags audiofile ctx (embed_artwork opts)
      else if bool_decide (suffix (name audiofile) = ".mp3")
      then _write_mp3_tags audiofile ctx (embed_artwork opts)
      else ret tt
  | _, _ => ret tt
  end.

(** *** Locations *)

Definition Locations_new (id : SongId) (song_dir : DirPath) (meta_path : option Path)
    (h : Headers) : M Locations :=
  let stem := sanitize_filename E (artist_title_str E h) in
  match meta_path with
  | Some p => ret (mkLocations p stem)
  | None =>
      let! w := get_world in
      let dir := next_unique_directory E (fs w) (subdir song_dir stem) in
      ret (mkLocations (joinpath dir (pretty id +:+ ".usdb")) stem)
  end.

Definition _fix_meta_path (l : Locations) : M Locations :=
  let! w := get_world in
  let new := next_unique_directory E (fs w) (dir_with_name (dir_path l) (filename_stem l)) in
  rename_dir (dir_path l) new ;;
  ret (mkLocations (joinpath new (name (loc_meta_path l))) (filename_stem l)).

(** One iteration of the loop of [_fix_resource_paths]. *)
Definition fix_resource_path (l : Locations) (meta : FileMeta) : M FileMeta :=
  let old_path := file_path l (fname meta) "" in
  let new_path :=
    file_path l (filename_stem l +:+ resource_file_ending E (fname meta)) "" in
  let! w := get_world in
  if bool_decide (old_path = new_path)
     || file_exists (fs w) new_path
     || negb (file_exists (fs w) old_path)
  then ret meta
  else
    rename old_path new_path ;;
    ret (mkFileMeta (name new_path) (resource meta)).

Definition fix_slot (l : Locations) (slot : option FileMeta) : M (option FileMeta) :=
  match slot with
  | Some meta => let! meta' := fix_resource_path l meta in ret (Some meta')
  | None => ret None
  end.

(** Modelled from the spec: [SyncMeta.file_metas] yields the descriptors that
    are recorded, here in the order txt, audio, video, cover, background; the
    loop assigns to the yielded descriptor, which is the one in the slot. *)
Definition _fix_resource_paths (l : Locations) (sm : SyncMeta) : M SyncMeta :=
  let! t := fix_slot l (sm_txt sm) in
  let! a := fix_slot l (sm_audio sm) in
  let! v := fix_slot l (sm_video sm) in
  let! c := fix_slot l (sm_cover sm) in
  let! b := fix_slot l (sm_background sm) in
  ret (mkSyncMeta (sm_song_id sm) (sm_meta_tags sm) (sm_pinned sm) t a v c b).

Definition ensure_correct_paths (l : Locations) (sm : SyncMeta) : M (Locations * SyncMeta) :=
  if is_name_maybe_with_suffix E (dir_name (dir_path l)) (filename_stem l)
  then ret (l, sm)
  else
    let! l' := _fix_meta_path l in
    let! sm' := _fix_resource_paths l' sm in
    ret (l', sm').

(** *** Context.new *)

(** Modelled from the spec: [SyncMeta.new] is a fresh record seeded with the
    current meta tags; [SyncMeta.try_from_file] parses the metadata file. *)
Definition SyncMeta_new (id : SongId) (mt : MetaTags) : SyncMeta :=
  mkSyncMeta id mt false None None None None None.

Definition try_from_file (f : FS) (p : Path) : option SyncMeta :=
  match read_file f p with
  | Some (mkContent (MetaJson sm) _) => Some sm
  | _ => None
  end.

Definition _load_sync_meta (p : Path) (id : SongId) (mt : MetaTags) : M SyncMeta :=
  let! w := get_world in
  if file_exists (fs w) p then
    match try_from_file (fs w) p with
    | Some meta => ret meta
    | None => ret (SyncMeta_new id mt)
    end
  else ret (SyncMeta_new id mt).

(** The txt of [Context.new]: parsed, sanitised, and with the uploader as
    creator when the txt names none. *)
Definition notes_txt (d : SongDetails) (txt_str : string) : SongTxt :=
  let t := sanitize E (parse E txt_str) in
  let creator :=
    if opt_truthy (h_creator (headers t)) then h_creator (headers t)
    else if str_truthy (d_uploader d) then Some (d_uploader d)
    else None in
  mkSongTxt (set_creator creator (headers t)) (meta_tags t) (notes t).

Definition Context_new (d : SongDetails) (opts : Options) (info : DownloadInfo)
    : M (option Context) :=
  match get_notes E (d_song_id d) with
  | Some txt_str =>
      if str_truthy txt_str then
        let t := notes_txt d txt_str in
        let! paths := Locations_new (d_song_id d) (song_dir opts) (meta_path info)
                        (headers t) in
        let! sm := _load_sync_meta (loc_meta_path paths) (d_song_id d) (meta_tags t) in
        ret (Some (mkContext d opts t paths sm))
      else ret None
  | None => ret None
  end.

(** *** SongLoader.run *)

Definition on_start (id : SongId) : M unit := modify (add_event (OnStart id)).
Definition on_finish (r : DownloadResult) : M unit := modify (add_event (OnFinish r)).

(** [run], from the point on where the context exists. *)
Definition run_with_context (id : SongId) (ctx : Context) : M unit :=
  modify (set_fs (mkdir (dir_path (locations ctx)))) ;;
  let! ls := ensure_correct_paths (locations ctx) (sync_meta ctx) in
  let ctx := set_sync_meta (λ _, ls.2) (set_locations ls.1 ctx) in
  let! ctx := _maybe_download_audio ctx in
  let! ctx := _maybe_download_video ctx in
  let! ctx := _maybe_download_cover ctx in
  let! ctx := _maybe_download_background ctx in
  let! ctx := _maybe_write_txt ctx in
  _write_sync_meta ctx ;;
  _maybe_write_audio_tags ctx ;;
  logger INFO "All done!" ;;
  on_finish (mkDownloadResult id
               (Some (mkLocalFiles (loc_meta_path (locations ctx)) (sync_meta ctx)))).

Definition run (info : DownloadInfo) (opts : Options) : M unit :=
  on_start (song_id info) ;;
  match get_usdb_details E (song_id info) with
  | None =>
      logger ERROR "Could not find song on USDB!" ;;
      on_finish (mkDownloadResult (song_id info) None)
  | Some d =>
      logger INFO ("Found '" +:+ d_artist d +:+ " - " +:+ d_title d +:+ "' on  USDB") ;;
      let! new_ctx := Context_new d opts info in
      match new_ctx with
      | None =>
          logger INFO ("Aborted; not logged in. Log in to USDB in your browser and select the "
                         +:+ "browser in the USDB Syncer settings. ") ;;
          on_finish (mkDownloadResult (song_id info) None)
      | Some ctx => run_with_context (song_id info) ctx
      end
  end.

(** *** download_songs

    One worker per info, bound to the options read once; the pool holds the
    workers that were started. *)
Record SongLoader := mkSongLoader {
  data : DownloadInfo;
  loader_options : Options
}.

Definition download_songs (download_options : Options) (infos : list DownloadInfo)
    (threadpool : list SongLoader) : list SongLoader :=
  foldl (λ pool info, pool ++ [mkSongLoader info download_options]) threadpool infos.

End Loader.


(** ** The song table: [SongTable._download] and [delete_selected_songs]

    The controller works on the songs that [UsdbSong.get] hands out, posts
    events, sends folders to the trash and calls [download_songs].  Its state
    is passed explicitly; [_download] can raise, and what it did before stays
    done. *)

(** A Python call binds its positional arguments to the required positional
    parameters of the callee; it raises [TypeError] when there are too few or
    too many. *)
Definition bind_positional {V : Type} (params : list string) (args : list V)
    : Exn + list (string * V) :=
  if length args <? length params then
    inl (TypeError "missing required positional arguments")
  else if length params <? length args then
    inl (TypeError "too many positional arguments")
  else inr (zip params args).

(** [def download_songs(infos, on_start, on_finish)] *)
Definition download_songs_params : list string := ["infos"; "on_start"; "on_finish"].

Inductive TableEvent :=
| SongChanged (id : Z)
| DownloadsRequested (n : nat).

(** The sync meta of a [UsdbSong], as far as the controller reads it. *)
Record SongSyncMeta := mkSongSyncMeta {
  path : list string;
  pinned : bool
}.

Section SongTable.

(** [DownloadStatus] with its member [PENDING] and its method
    [can_be_downloaded], [TableModel.ids_for_rows] and [UsdbSong.is_pinned]
    are not part of the embedded files. *)
Context {DownloadStatus : Type}.
Context (PENDING : DownloadStatus) (can_be_downloaded : DownloadStatus → bool).

Record UsdbSong := mkUsdbSong {
  us_song_id : Z;
  us_sync_meta : option SongSyncMeta;
  status : DownloadStatus
}.

Context (ids_for_rows : list nat → list Z) (is_pinned : UsdbSong → bool).

(** What a call passes: the songs collected, infos, or a callback. *)
Inductive Argument :=
| Songs (l : list UsdbSong)
| Infos (l : list DownloadInfo)
| Callback (f : string).

Record Table := mkTable {
  songs : gmap Z UsdbSong;
  posted : list TableEvent;
  trashed : list (list string);
  deleted : list Z;
  table_log : list (Z * Level * string);
  threadpool : list SongLoader
}.

Definition set_status (st : DownloadStatus) (song : UsdbSong) : UsdbSong :=
  mkUsdbSong (us_song_id song) (us_sync_meta song) st.

Definition post (e : TableEvent) (t : Table) : Table :=
  mkTable (songs t) (posted t ++ [e]) (trashed t) (deleted t) (table_log t) (threadpool t).
Definition log_song (id : Z) (l : Level) (msg : string) (t : Table) : Table :=
  mkTable (songs t) (posted t) (trashed t) (deleted t) (table_log t ++ [(id, l, msg)])
    (threadpool t).
Definition store (id : Z) (song : UsdbSong) (t : Table) : Table :=
  mkTable (<[id := song]> (songs t)) (posted t) (trashed t) (deleted t) (table_log t)
    (threadpool t).
Definition send2trash (p : list string) (t : Table) : Table :=
  mkTable (songs t) (posted t) (trashed t ++ [p]) (deleted t) (table_log t) (threadpool t).
Definition delete_sync_meta (id : Z) (t : Table) : Table :=
  mkTable (songs t) (posted t) (trashed t) (deleted t ++ [id]) (table_log t) (threadpool t).
Definition start_workers (f : list SongLoader → list SongLoader) (t : Table) : Table :=
  mkTable (songs t) (posted t) (trashed t) (deleted t) (table_log t) (f (threadpool t)).

(** [song.sync_meta and song.sync_meta.pinned] *)
Definition has_pinned_meta (song : UsdbSong) : bool :=
  match us_sync_meta song with
  | Some m => pinned m
  | None => false
  end.

(** The loop of [_download]: the song that [UsdbSong.get] hands out is the
    one later lookups see, so the new status is stored back. *)
Fixpoint collect_downloads (ids : list Z) (to_download : list UsdbSong) (t : Table)
    : Outcome Table (list UsdbSong) :=
  match ids with
  | [] => Ok to_download t
  | song_id :: rest =>
      match songs t !! song_id with
      | None => Raised AssertionError t
      | Some song =>
          if has_pinned_meta song then
            collect_downloads rest to_download
              (log_song (us_song_id song) INFO "Not downloading song as it is pinned." t)
          else if can_be_downloaded (status song) then
            let song := set_status PENDING song in
            collect_downloads rest (to_download ++ [song])
              (post (SongChanged (us_song_id song)) (store song_id song t))
          else collect_downloads rest to_download t
      end
  end.

(** The call [download_songs(...)] with the arguments given. *)
Definition call_download_songs (download_options : Options) (args : list Argument)
    (t : Table) : Outcome Table unit :=
  match bind_positional download_songs_params args with
  | inl e => Raised e t
  | inr _ =>
      match args with
      | [Infos infos; Callback _; Callback _] =>
          Ok tt (start_workers (download_songs download_options infos) t)
      | _ => Raised (TypeError "download_songs: not infos and two callbacks") t
      end
  end.

Definition _download (download_options : Options) (rows : list nat) (t : Table)
    : Outcome Table unit :=
  match collect_downloads (ids_for_rows rows) [] t with
  | Raised e t => Raised e t
  | Ok to_download t =>
      match to_download with
      | [] => Ok tt t
      | _ :: _ =>
          call_download_songs download_options [Songs to_download]
            (post (DownloadsRequested (length to_download)) t)
      end
  end.

(** [selected_songs]: the songs of the selected rows that [UsdbSong.get]
    finds. *)
Definition selected_songs (rows : list nat) (t : Table) : list UsdbSong :=
  omap (λ song_id, songs t !! song_id) (ids_for_rows rows).

(** One iteration of [delete_selected_songs].  The [SongChanged] event is
    constructed without being posted. *)
Definition delete_song (song : UsdbSong) (t : Table) : Table :=
  match us_sync_meta song with
  | None => t
  | Some m =>
      if is_pinned song then
        log_song (us_song_id song) INFO "Not trashing song folder as it is pinned." t
      else
        log_song (us_song_id song) DEBUG "Trashed song folder."
          (delete_sync_meta (us_song_id song) (send2trash (path m) t))
  end.

Definition delete_selected_songs (rows : list nat) (t : Table) : Table :=
  foldl (λ t song, delete_song song t) t (selected_songs rows t).

End SongTable.

(** ** The slots, as summaries

    The definitions of this part are not taken from the code: they say in
    closed form what the slot functions amount to, and the lemmas
    [audio_loop_summary], [video_loop_summary], [audio_plan_spec] and their
    like relate them to the embedded functions. *)

(** The negotiation of the audio or video slot for a download primitive
    [dl], the synced descriptor [meta] and the candidates from position
    [idx] on: the candidates handed to the primitive, and how the slot
    ends. *)
Inductive Verdict :=
| Reused (m : FileMeta)
| Downloaded (res ext : string)
| Failed.

Fixpoint negotiate (dl : string → option string) (meta : option FileMeta)
    (idx : nat) (cands : list string) : list string * Verdict :=
  match cands with
  | [] => ([], Failed)
  | res :: rest =>
      match unchanged meta res with
      | Some m => ([], Reused m)
      | None =>
          if 9 <? idx then ([], Failed)
          else if opt_truthy (dl res) then ([res], Downloaded res (default "" (dl res)))
          else (res :: (negotiate dl meta (S idx) rest).1,
                (negotiate dl meta (S idx) rest).2)
      end
  end.

Section Summaries.

Context (E : Collaborators).

Definition flow_ctx (f : Flow Context) : Context :=
  match f with
  | Return c => c
  | Fallthrough c => c
  end.

(** How the context leaves a slot with a given verdict. *)
Definition audio_flow (ctx : Context) (v : Verdict) : Flow Context :=
  match v with
  | Reused m => Return (set_headers (set_mp3 (fname m)) ctx)
  | Downloaded res ext =>
      let path := file_path (locations ctx) "" ext in
      Return (set_headers (set_mp3 (name path))
                (set_sync_meta (set_audio_meta path res) ctx))
  | Failed => Fallthrough ctx
  end.

Definition video_flow (ctx : Context) (v : Verdict) : Flow Context :=
  match v with
  | Reused m => Return (set_headers (set_video (fname m)) ctx)
  | Downloaded res ext =>
      let path := file_path (locations ctx) "" ext in
      Return (set_headers (set_video (name path))
                (set_sync_meta (set_video_meta path res) ctx))
  | Failed => Fallthrough ctx
  end.

(** The file system after a slot: a download that succeeded wrote its file. *)
Definition fs_after (ctx : Context) (v : Verdict) (f : gmap (list string) (gmap string Content))
    : gmap (list string) (gmap string Content) :=
  match v with
  | Downloaded res ext =>
      write_file (media_target (file_path (locations ctx) "" "") ext)
        (mkContent (Payload (payload_of E res)) (container_tags E res)) f
  | _ => f
  end.

(** An image slot, as a summary: the URL it would fetch, and how it ends for
    a given recorded state. *)
Inductive ImageVerdict :=
| NoImage
| ImageReused (m : FileMeta)
| ImageDownloaded (url file : string)
| ImageFailed (url : string).

Definition cover_url_of (ctx : Context) : option string :=
  match mt_cover (meta_tags (txt ctx)) with
  | Some c => Some (source_url E c)
  | None => if opt_truthy (d_cover_url (details ctx)) then d_cover_url (details ctx) else None
  end.

Definition background_url_of (ctx : Context) : option string :=
  match mt_background (meta_tags (txt ctx)) with
  | Some b => Some (source_url E b)
  | None => None
  end.

Definition image_verdict (kind : ImageKind) (url : option string) (same_tag : bool)
    (synced_meta : option FileMeta) : ImageVerdict :=
  match url with
  | Some u =>
      if str_truthy u then
        match (if same_tag then synced_meta else None) with
        | Some m => ImageReused m
        | None =>
            match dl_image E u kind with
            | Some n => ImageDownloaded u n
            | None => ImageFailed u
            end
        end
      else NoImage
  | None => NoImage
  end.

Definition image_calls (kind : ImageKind) (target : list string * string)
    (v : ImageVerdict) : list Call :=
  match v with
  | ImageDownloaded u _ | ImageFailed u => [CallImage u kind target]
  | _ => []
  end.

Definition image_fs (target : list string * string) (v : ImageVerdict)
    (f : gmap (list string) (gmap string Content)) : gmap (list string) (gmap string Content) :=
  match v with
  | ImageDownloaded u n => write_file (with_name target n) (mkContent (Payload (payload_of E u)) ∅) f
  | _ => f
  end.

Definition cover_ctx (ctx : Context) (v : ImageVerdict) : Context :=
  match v with
  | ImageReused m => set_headers (set_cover (fname m)) ctx
  | ImageDownloaded u n =>
      set_sync_meta (set_cover_meta (with_name (file_path (locations ctx) "" "") n) u)
        (set_headers (set_cover n) ctx)
  | _ => ctx
  end.

Definition background_ctx (ctx : Context) (v : ImageVerdict) : Context :=
  match v with
  | ImageReused m => set_headers (set_background (fname m)) ctx
  | ImageDownloaded u n =>
      set_sync_meta (set_background_meta (with_name (file_path (locations ctx) "" "") n) u)
        (set_headers (set_background n) ctx)
  | _ => ctx
  end.

(** The slots as summaries, skipped slots included: what the slot function
    does for a context and a file system. *)
Definition audio_plan (ctx : Context) (f : gmap (list string) (gmap string Content))
    : list string * Verdict :=
  match audio_options (options ctx) with
  | Some _ =>
      negotiate (dl_audio E) (synced_audio (sync_meta ctx) (dir_path (locations ctx)) f) 0
        (yields (all_audio_resources ctx))
  | None => ([], Failed)
  end.

Definition video_plan (ctx : Context) (f : gmap (list string) (gmap string Content))
    : list string * Verdict :=
  match video_options (options ctx) with
  | Some _ =>
      if is_audio_only E (meta_tags (txt ctx)) then ([], Failed)
      else negotiate (dl_video E)
             (synced_video (sync_meta ctx) (dir_path (locations ctx)) f) 0
             (yields (all_video_resources ctx))
  | None => ([], Failed)
  end.

Definition cover_plan (ctx : Context) (f : gmap (list string) (gmap string Content))
    : ImageVerdict :=
  match cover (options ctx) with
  | Some _ =>
      image_verdict COVER (cover_url_of ctx)
        (bool_decide (mt_cover (sm_meta_tags (sync_meta ctx)) = mt_cover (meta_tags (txt ctx))))
        (synced_cover (sync_meta ctx) (dir_path (locations ctx)) f)
  | None => NoImage
  end.

Definition background_plan (ctx : Context) (f : gmap (list string) (gmap string Content))
    : ImageVerdict :=
  match background_options (options ctx) with
  | Some opts =>
      if download_background opts (opt_truthy (h_video (headers (txt ctx)))) then
        image_verdict BACKGROUND (background_url_of ctx)
          (bool_decide (mt_background (sm_meta_tags (sync_meta ctx))
                        = mt_background (meta_tags (txt ctx))))
          (synced_background (sync_meta ctx) (dir_path (locations ctx)) f)
      else NoImage
  | None => NoImage
  end.

End Summaries.

(** The four slots of [run], one after the other, as a summary: the context
    and the file system they leave, and the calls they make. *)
Definition download_slots (E : Collaborators) (ctx : Context)
    (f : gmap (list string) (gmap string Content))
    : Context * gmap (list string) (gmap string Content) * list Call :=
  let target := file_path (locations ctx) "" "" in
  let a := audio_plan E ctx f in
  let ctx1 := flow_ctx (audio_flow ctx a.2) in
  let f1 := fs_after E ctx a.2 f in
  let v := video_plan E ctx1 f1 in
  let ctx2 := flow_ctx (video_flow ctx1 v.2) in
  let f2 := fs_after E ctx1 v.2 f1 in
  let c := cover_plan E ctx2 f2 in
  let ctx3 := cover_ctx ctx2 c in
  let f3 := image_fs E target c f2 in
  let b := background_plan E ctx3 f3 in
  let ctx4 := background_ctx ctx3 b in
  let f4 := image_fs E target b f3 in
  (ctx4, f4,
   map (λ r, CallAudio r target) a.1 ++ map (λ r, CallVideo r target) v.1
   ++ image_calls COVER target c ++ image_calls BACKGROUND target b).

(** The last steps of [run], from the txt on. *)
Definition write_up (E : Collaborators) (id : Z) (ctx : Context) : M unit :=
  let! ctx := _maybe_write_txt ctx in
  _write_sync_meta ctx ;;
  _maybe_write_audio_tags E ctx ;;
  logger INFO "All done!" ;;
  on_finish (mkDownloadResult id
               (Some (mkLocalFiles (loc_meta_path (locations ctx)) (sync_meta ctx)))).

(** The context after [_maybe_write_txt]. *)
Definition txt_ctx (ctx : Context) : Context :=
  match txt_options (options ctx) with
  | Some _ => set_sync_meta (set_txt_meta (file_path (locations ctx) "" "txt")) ctx
  | None => ctx
  end.

(** ** Relations and predicates of the statements *)

(** The recorded file of a slot is not in the song directory (or nothing is
    recorded for the slot). *)
Definition not_on_disk (slot : option FileMeta) (dir : list string)
    (f : gmap (list string) (gmap string Content)) : Prop :=
  ∀ m, slot = Some m → file_exists f (joinpath dir (fname m)) = false.




(** Frames: a computation leaves a component of the world alone, whether it
    returns or raises. *)
Definition preserves {A B : Type} (proj : World → B) (m : M A) : Prop :=
  ∀ w, proj (world_of (m w)) = proj w.

(** The outcome of a task that started with the callbacks [before]: if it
    returns, [on_finish] was invoked once, last, for the song [id]; if it
    raises, [on_finish] was not invoked. *)
Definition finishes (id : Z) (before : list Event) (o : Outcome World unit) : Prop :=
  match o with
  | Ok _ w' => ∃ r, events w' = before ++ [OnFinish r] ∧ r_song_id r = id
  | Raised _ w' => events w' = before
  end.

Definition finishing (id : Z) (m : M unit) : Prop :=
  ∀ w, finishes id (events w) (m w).

(** Every regular file of [f] is a regular file of [f']. *)
Definition grows (f f' : gmap (list string) (gmap string Content)) : Prop :=
  ∀ q, file_exists f q = true → file_exists f' q = true.



(** ** The claims that the code does not bear out, as the spec words them *)

(** C1, as the spec words it: whatever happens inside the task, it ends
    without an exception leaving [run] and with [on_finish] invoked once. *)
Definition finishes_exactly_once (E : Collaborators) (info : DownloadInfo)
    (opts : Options) (w : World) : Prop :=
  ∃ w' r,
    run E info opts w = Ok tt w'
    ∧ events w' = events w ++ [OnStart (song_id info); OnFinish r].


(** C3: a recorded resource that is among the candidates, but not the first
    of them, is handed to the download primitive again. *)
Definition audio_redownloaded_unless_first (E : Collaborators) (ctx : Context)
    (w : World) : Prop :=
  ∀ m,
    synced_audio (sync_meta ctx) (dir_path (locations ctx)) (fs w) = Some m →
    resource m ∈ yields (all_audio_resources ctx) →
    head (yields (all_audio_resources ctx)) ≠ Some (resource m) →
    CallAudio (resource m) (file_path (locations ctx) "" "")
      ∈ calls (world_of (_maybe_download_audio E ctx w)).


(** C8, for the cover slot: the image is downloaded only if its URL differs
    from the recorded resource or the recorded file is missing. *)
Definition cover_download_only_if_changed_or_missing (E : Collaborators) (ctx : Context)
    (w : World) : Prop :=
  ∀ new url target,
    calls (world_of (_maybe_download_cover E ctx w)) = calls w ++ new →
    CallImage url COVER target ∈ new →
    ∀ m, sm_cover (sync_meta ctx) = Some m →
         resource m ≠ url
         ∨ file_exists (fs w) (joinpath (dir_path (locations ctx)) (fname m)) = false.

(** ** Further vocabulary of the statements *)


(** [run] up to and including the path fixing: the directory is made, the
    paths are fixed, and the context carries the fixed locations and sync
    meta. *)
Definition settle_paths (E : Collaborators) (ctx : Context) : M Context :=
  modify (set_fs (mkdir (dir_path (locations ctx)))) ;;
  let! ls := ensure_correct_paths E (locations ctx) (sync_meta ctx) in
  ret (set_sync_meta (λ _, ls.2) (set_locations ls.1 ctx)).

(** The atoms that [_write_m4a_tags] assigns whatever the headers hold. *)
Definition m4a_keys : list string :=
  ["\xa9ART"; "\xa9nam"; "\xa9lyr"; "\xa9cmt"; "covr"].


(** [run] from the audio slot on, for the context that [settle_paths]
    leaves. *)
Definition sync_slots (E : Collaborators) (id : SongId) (ctx : Context) : M unit :=
  let! ctx := _maybe_download_audio E ctx in
  let! ctx := _maybe_download_video E ctx in
  let! ctx := _maybe_download_cover E ctx in
  let! ctx := _maybe_download_background E ctx in
  write_up E id ctx.

(** ** The pin action of the song table: [set_pin_selected_songs]

    The action changes the pinned flag of the songs it is given and has the
    sync meta written to its file and to the database.  Each song is looked
    up when the loop reaches its id, as the generator of [selected_songs]
    does, and the change is stored back, so that a later lookup sees it. *)

(** The writes by which a sync meta is made persistent. *)
Inductive DbOp :=
| SynchronizeToFile (id : Z)
| Upsert (id : Z)
| Commit.

Section PinAction.

Context {DownloadStatus : Type}.
Context (ids_for_rows : list nat → list Z).

Definition set_pinned (pin : bool) (song : @UsdbSong DownloadStatus) : UsdbSong :=
  mkUsdbSong (us_song_id song)
    ((λ m, mkSongSyncMeta (path m) pin) <$> us_sync_meta song) (status song).

(** One iteration of [set_pin_selected_songs], for the id that is looked up
    next.  The [SongChanged] event is constructed without being posted. *)
Definition pin_song (pin : bool) (st : Table * list DbOp) (song_id : Z)
    : Table * list DbOp :=
  match songs st.1 !! song_id with
  | None => st
  | Some song =>
      match us_sync_meta song with
      | None => st
      | Some m =>
          if bool_decide (pinned m = pin) then st
          else (store song_id (set_pinned pin song) st.1,
                st.2 ++ [SynchronizeToFile (us_song_id song); Upsert (us_song_id song);
                         Commit])
      end
  end.

Definition set_pin_selected_songs (pin : bool) (rows : list nat) (t : Table)
    : Table * list DbOp :=
  foldl (pin_song pin) (t, []) (ids_for_rows rows).

(** Every song under one of the ids that has a sync meta has the flag
    [pin]. *)
Definition flagged (pin : bool) (ids : list Z) (t : @Table DownloadStatus) : Prop :=
  ∀ k song m, k ∈ ids → songs t !! k = Some song → us_sync_meta song = Some m →
              pinned m = pin.

End PinAction.

(** The writes for the songs with the ids [changed], one after the other:
    each sync meta is written to its file, upserted and committed. *)
Definition persisted (changed : list Z) : list DbOp :=
  changed ≫= λ id, [SynchronizeToFile id; Upsert id; Commit].

(** ** Sorting and filtering: the search behind the table

    Modelled from its use: a [db.SearchBuilder] is the sort order, the
    direction and the criteria that the tree filter sets.  The controller
    keeps the current search, the single-shot timer that delays a search,
    and the songs that the table model shows. *)

Inductive SortOrder := AscendingOrder | DescendingOrder.

Section Search.

Context {SongOrder Criteria : Type}.

Record SearchBuilder := mkSearchBuilder {
  order : SongOrder;
  descending : bool;
  criteria : Criteria
}.

(** [db.search_usdb_songs] and [Column(section).song_order()] *)
Context (search_usdb_songs : SearchBuilder → list Z).
Context (song_order : nat → option SongOrder).

Record Controller := mkController {
  _search : SearchBuilder;
  _search_timer : bool;
  model_songs : list Z
}.

Definition search_songs (c : Controller) : Controller :=
  mkController (_search c) false (search_usdb_songs (_search c)).

(** The handler of [TreeFilterChanged]: the search of the event takes over
    the order and the direction of the current search and becomes the
    current search; the timer is started. *)
Definition _on_tree_filter_changed (event_search : SearchBuilder) (c : Controller)
    : Controller :=
  mkController
    (mkSearchBuilder (order (_search c)) (descending (_search c)) (criteria event_search))
    true (model_songs c).

Definition _on_sort_order_changed (section : nat) (o : SortOrder) (c : Controller)
    : Controller :=
  match song_order section with
  | None => c
  | Some search_order =>
      search_songs
        (mkController
           (mkSearchBuilder search_order
              (match o with DescendingOrder => true | AscendingOrder => false end)
              (criteria (_search c)))
           (_search_timer c) (model_songs c))
  end.

(** The timer fires: [search_songs] is the slot of its [timeout]. *)
Definition on_timeout (c : Controller) : Controller :=
  if _search_timer c then search_songs c else c.

End Search.

(** The name under which the file of a descriptor is looked up when the
    paths are fixed, and the name that fits the stem. *)
Definition resource_name (l : Locations) (m : FileMeta) : string :=
  name (file_path l (fname m) "").
Definition fitting_name (E : Collaborators) (l : Locations) (m : FileMeta) : string :=
  name (file_path l (filename_stem l +:+ resource_file_ending E (fname m)) "").

(** ** The helpers of [utils], for the worked examples

    Modelled from the spec: [utils.py] is not among the embedded files.  The
    spec has directory names "collision resolved by appending a numeric
    suffix", names that match "ignoring an optional numeric suffix" and
    resource files renamed with the "same stem, original extension".  The
    general statements below hold for any implementation of the helpers and
    state what they rely on; these definitions instantiate them. *)
Module Utils.

Definition chars (s : string) : list Ascii.ascii := String.list_ascii_of_string s.

Definition is_digit (c : Ascii.ascii) : bool :=
  (48 <=? Ascii.nat_of_ascii c) && (Ascii.nat_of_ascii c <=? 57).

(** " (n)" for a number n *)
Definition is_numeric_suffix (tail : string) : bool :=
  match chars tail with
  | sp :: op :: rest =>
      Ascii.eqb sp (Ascii.ascii_of_nat 32) && Ascii.eqb op (Ascii.ascii_of_nat 40)
      && match reverse rest with
         | cl :: digits =>
             Ascii.eqb cl (Ascii.ascii_of_nat 41)
             && negb (bool_decide (digits = [])) && forallb is_digit digits
         | [] => false
         end
  | _ => false
  end.

Definition is_name_maybe_with_suffix (text name : string) : bool :=
  if String.prefix name text then
    let tail := String.substring (String.length name)
                  (String.length text - String.length name) text in
    negb (str_truthy tail) || is_numeric_suffix tail
  else false.

(** The search for a free name, cut off after as many rounds as there are
    directories and files that could be in the way. *)
Fixpoint next_free (f : gmap (list string) (gmap string Content)) (path : list string)
    (n rounds : nat) : list string :=
  let out := dir_with_name path (dir_name path +:+ " (" +:+ pretty n +:+ ")") in
  match rounds with
  | 0 => out
  | S rounds' => if dir_exists f out then next_free f path (S n) rounds' else out
  end.

Definition next_unique_directory (f : gmap (list string) (gmap string Content))
    (path : list string) : list string :=
  if dir_exists f path then next_free f path 1 (size f) else path.

(** The extension from the last dot on, with the " [CO]" or " [BG]" marker
    in front of it when the name carries one. *)
Definition resource_file_ending (n : string) : string :=
  match last_dot n with
  | Some i =>
      let len := String.length n in
      let marker := String.substring (i - 5) 5 n in
      if (i =? 0) || (len - i <=? 1) then ""
      else if (5 <? i) && (bool_decide (marker = " [CO]") || bool_decide (marker = " [BG]"))
      then String.substring (i - 5) (len - (i - 5)) n
      else String.substring i (len - i) n
  | None => ""
  end.

(** Characters that cannot be part of a file name are dropped. *)
Definition sanitize_filename (s : string) : string :=
  String.string_of_list_ascii
    (filter (λ c, Ascii.nat_of_ascii c ∉ [34; 42; 47; 58; 60; 62; 63; 92; 124]) (chars s)).

End Utils.

(** ** A worked example: one song of one library *)
Module Example.

Definition tags_of (audio video : option string) (cover : option string) : MetaTags :=
  mkMetaTags audio video cover None.

Definition headers_AB : Headers :=
  mkHeaders "Artist A" "Title B" "English" None (Some "2001") None None None None None.

Definition details_of (id : Z) (videos : list string) : SongDetails :=
  mkSongDetails id "Artist A" "Title B" "uploader" (Some "https://usdb/cover/1.jpg") videos.

(** Collaborators of the example: the catalogue knows the songs of
    [catalogue] and hands out notes for those of [notes_for]; every notes
    text parses to [t]; the download primitives answer by [audio] and
    [video] and [image]. *)
Definition collaborators (catalogue : Z → option SongDetails) (notes_for : Z → option string)
    (t : SongTxt) (audio video : string → option string)
    (image : string → ImageKind → option string) : Collaborators :=
  {| get_usdb_details := catalogue;
     get_notes := notes_for;
     parse := λ _, t;
     sanitize := λ t, t;
     artist_title_str := λ h, h_artist h +:+ " - " +:+ h_title h;
     main_language := h_language;
     minimum_song_length := λ _, "03:00";
     unsynchronized_lyrics := notes;
     synchronized_lyrics := notes;
     is_audio_only := λ mt, opt_truthy (mt_audio mt) && negb (opt_truthy (mt_video mt));
     source_url := λ tag, "https://" +:+ tag;
     sanitize_filename := Utils.sanitize_filename;
     is_name_maybe_with_suffix := Utils.is_name_maybe_with_suffix;
     next_unique_directory := Utils.next_unique_directory;
     resource_file_ending := Utils.resource_file_ending;
     dl_audio := audio;
     dl_video := video;
     dl_image := image;
     payload_of := λ res, "bytes of " +:+ res;
     container_tags := λ res, {["encoder" := Text "Lavf"]};
     file_bytes := λ c, match body c with Payload b => b | _ => "" end;
     pt2b := λ l, if bool_decide (l = "English") then Some "eng" else None |}.

Definition all_options : Options :=
  mkOptions ["songs"] (Some (mkTxtOptions "utf-8" "crlf")) (Some (mkAudioOptions true))
    "firefox" (Some tt) (Some (mkCoverOptions 1920))
    (Some (mkBackgroundOptions (λ has_video, negb has_video))).

Definition empty_world : World := mkWorld ∅ [] [] [].

Definition no_download : string → option string := λ _, None.
Definition no_image : string → ImageKind → option string := λ _ _, None.

(** A song with a video tag and fourteen videos in the comments, none of
    which can be downloaded: fifteen candidates for the audio and for the
    video slot. *)
Definition fifteen : list string :=
  ["v0"; "k1"; "k2"; "k3"; "k4"; "k5"; "k6"; "k7"; "k8"; "k9"; "k10"; "k11"; "k12";
   "k13"; "k14"].

Definition txt15 : SongTxt :=
  mkSongTxt headers_AB (tags_of None (Some "v0") None) "notes".

Definition E15 : Collaborators :=
  collaborators (λ id, Some (details_of id (drop 1 fifteen))) (λ _, Some "notes")
    txt15 no_download no_download no_image.

Definition ctx15 : Context :=
  mkContext (details_of 1 (drop 1 fifteen)) all_options txt15
    (mkLocations (["songs"; "Artist A - Title B"], "1.usdb") "Artist A - Title B")
    (SyncMeta_new 1 (meta_tags txt15)).

(** A song with three candidates of which only the third can be
    downloaded. *)
Definition third_only : string → option string :=
  λ res, if bool_decide (res = "c3") then Some "mp4" else None.

Definition txt3 : SongTxt :=
  mkSongTxt headers_AB (tags_of None (Some "c1") None) "notes".

Definition E3 : Collaborators :=
  collaborators (λ id, Some (details_of id ["c2"; "c3"])) (λ _, Some "notes")
    txt3 third_only third_only no_image.

Definition ctx3 : Context :=
  mkContext (details_of 1 ["c2"; "c3"]) all_options txt3
    (mkLocations (["songs"; "Artist A - Title B"], "1.usdb") "Artist A - Title B")
    (SyncMeta_new 1 (meta_tags txt3)).

(** A song whose recorded audio and video resource "c2" now comes second,
    behind a candidate "c1" that cannot be downloaded. *)
Definition txt_later : SongTxt :=
  mkSongTxt headers_AB (tags_of None (Some "c1") None) "notes".

Definition E_later : Collaborators :=
  collaborators (λ id, Some (details_of id ["c2"])) (λ _, Some "notes")
    txt_later no_download no_download no_image.

Definition synced_c2 : SyncMeta :=
  mkSyncMeta 1 (meta_tags txt_later) false None
    (Some (mkFileMeta "Artist A - Title B.m4a" "c2"))
    (Some (mkFileMeta "Artist A - Title B.mp4" "c2")) None None.

Definition ctx_later : Context :=
  mkContext (details_of 1 ["c2"]) all_options txt_later
    (mkLocations (["songs"; "Artist A - Title B"], "1.usdb") "Artist A - Title B")
    synced_c2.

Definition media (res : string) : Content :=
  mkContent (Payload ("bytes of " +:+ res)) {["encoder" := Text "Lavf"]}.

Definition world_later : World :=
  mkWorld
    {[ ["songs"; "Artist A - Title B"] :=
         {[ "1.usdb" := mkContent (MetaJson synced_c2) ∅;
            "Artist A - Title B.m4a" := media "c2";
            "Artist A - Title B.mp4" := media "c2" ]} ]}
    [] [] [].

(** A song whose cover was fetched from the catalogue's own cover URL when
    the txt had no cover tag, and whose txt now names that same URL in a
    cover tag. *)
Definition txt_cover : SongTxt :=
  mkSongTxt headers_AB (tags_of None None (Some "usdb/cover/1.jpg")) "notes".

Definition cover_image : string → ImageKind → option string :=
  λ _ kind, match kind with
            | COVER => Some "Artist A - Title B [CO].jpg"
            | BACKGROUND => Some "Artist A - Title B [BG].jpg"
            end.

Definition E_cover : Collaborators :=
  collaborators (λ id, Some (details_of id [])) (λ _, Some "notes")
    txt_cover no_download no_download cover_image.

Definition synced_cover_meta : SyncMeta :=
  mkSyncMeta 1 (tags_of None None None) false None None None
    (Some (mkFileMeta "Artist A - Title B [CO].jpg" "https://usdb/cover/1.jpg")) None.

Definition ctx_cover : Context :=
  mkContext (details_of 1 []) all_options txt_cover
    (mkLocations (["songs"; "Artist A - Title B"], "1.usdb") "Artist A - Title B")
    synced_cover_meta.

Definition world_cover : World :=
  mkWorld
    {[ ["songs"; "Artist A - Title B"] :=
         {[ "1.usdb" := mkContent (MetaJson synced_cover_meta) ∅;
            "Artist A - Title B [CO].jpg" := media "https://usdb/cover/1.jpg" ]} ]}
    [] [] [].

(** The song of the spec's scenario after its title changed on the
    catalogue from "Title B" to "Title C": the directory still has the old
    name; the recorded video was deleted by hand. *)
Definition E_rename : Collaborators :=
  collaborators (λ id, Some (details_of id [])) (λ _, Some "notes")
    txt3 no_download no_download no_image.

Definition loc_BC : Locations :=
  mkLocations (["songs"; "Artist A - Title B"], "1.usdb") "Artist A - Title C".

Definition synced_B : SyncMeta :=
  mkSyncMeta 1 (tags_of None (Some "c1") None) false
    (Some (mkFileMeta "Artist A - Title B.txt" ""))
    (Some (mkFileMeta "Artist A - Title B.mp3" "c1"))
    (Some (mkFileMeta "Artist A - Title B.mp4" "c1"))
    (Some (mkFileMeta "Artist A - Title B [CO].jpg" "https://usdb/cover/1.jpg"))
    None.

Definition files_B : gmap string Content :=
  {[ "1.usdb" := mkContent (MetaJson synced_B) ∅;
     "Artist A - Title B.txt" := mkContent (TxtData txt3 "utf-8" "crlf") ∅;
     "Artist A - Title B.mp3" := media "c1";
     "Artist A - Title B [CO].jpg" := media "https://usdb/cover/1.jpg" ]}.

Definition world_B : World :=
  mkWorld {[ ["songs"; "Artist A - Title B"] := files_B ]} [] [] [].



(** A synced song whose cover file was deleted by hand and whose cover
    cannot be downloaded at the moment. *)
Definition txt_tags : SongTxt :=
  mkSongTxt headers_AB (tags_of (Some "c1") None None) "notes".

Definition E_tags : Collaborators :=
  collaborators (λ id, Some (details_of id [])) (λ _, Some "notes")
    txt_tags no_download no_download no_image.

Definition synced_tags : SyncMeta :=
  mkSyncMeta 1 (meta_tags txt_tags) false None
    (Some (mkFileMeta "Artist A - Title B.mp3" "c1")) None
    (Some (mkFileMeta "Artist A - Title B [CO].jpg" "https://usdb/cover/1.jpg")) None.

Definition world_tags : World :=
  mkWorld
    {[ ["songs"; "Artist A - Title B"] :=
         {[ "1.usdb" := mkContent (MetaJson synced_tags) ∅;
            "Artist A - Title B.mp3" := media "c1" ]} ]}
    [] [] [].

Definition info_tags : DownloadInfo :=
  mkDownloadInfo 1 (Some (["songs"; "Artist A - Title B"], "1.usdb")).

(** A song that is gone from the catalogue, and a session that is not
    logged in. *)
Definition E_gone : Collaborators :=
  collaborators (λ _, None) (λ _, Some "notes") txt3 no_download no_download no_image.

Definition E_logged_out : Collaborators :=
  collaborators (λ id, Some (details_of id [])) (λ _, None)
    txt3 no_download no_download no_image.

Definition info_new : DownloadInfo := mkDownloadInfo 1 None.

(** The song of the spec's scenario, new on disk: the audio tag "c1" can be
    downloaded, and so can the cover. *)
Definition E_fresh : Collaborators :=
  collaborators (λ id, Some (details_of id [])) (λ _, Some "notes")
    txt_tags (λ _, Some "mp3") no_download cover_image.

(** The same song when "c1" cannot be downloaded and the video "c2" of a
    comment can. *)
Definition second_only : string → option string :=
  λ res, if bool_decide (res = "c2") then Some "mp3" else None.

Definition E_fallback : Collaborators :=
  collaborators (λ id, Some (details_of id ["c2"])) (λ _, Some "notes")
    txt_tags second_only no_download cover_image.

(** A table of three songs: one never synced, one synced and pinned, one
    synced and not pinned; none of them is being downloaded. *)
Inductive Status := NONE | PENDING | DOWNLOADING | FAILED.

Definition can_be_downloaded (st : Status) : bool :=
  match st with
  | NONE | FAILED => true
  | PENDING | DOWNLOADING => false
  end.

Definition ids_for_rows (rows : list nat) : list Z := map (λ r, Z.of_nat r + 1)%Z rows.

Definition song1 : UsdbSong := mkUsdbSong 1 None NONE.
Definition song2 : UsdbSong :=
  mkUsdbSong 2 (Some (mkSongSyncMeta ["songs"; "Pinned Song"] true)) NONE.
Definition song3 : UsdbSong :=
  mkUsdbSong 3 (Some (mkSongSyncMeta ["songs"; "Other Song"] false)) FAILED.

Definition table : Table :=
  mkTable {[ 1%Z := song1; 2%Z := song2; 3%Z := song3 ]} [] [] [] [] [].

(** *** More of the worked example *)

Definition song_directory : list string := ["songs"; "Artist A - Title B"].

Definition locations_AB : Locations :=
  mkLocations (song_directory, "1.usdb") "Artist A - Title B".

(** A song whose txt has got a background tag since it was synced. *)
Definition txt_bg : SongTxt :=
  mkSongTxt headers_AB (mkMetaTags None None None (Some "bg.jpg")) "notes".

Definition E_bg : Collaborators :=
  collaborators (λ id, Some (details_of id [])) (λ _, Some "notes")
    txt_bg no_download no_download cover_image.

Definition ctx_bg : Context :=
  mkContext (details_of 1 []) all_options txt_bg locations_AB
    (SyncMeta_new 1 (tags_of None None None)).




Definition audio_m4a : list string * string := (song_directory, "Artist A - Title B.m4a").

(** The synced song once more, run with every option off. *)
Definition no_options : Options := mkOptions ["songs"] None None "firefox" None None None.

Definition ctx_idle : Context :=
  mkContext (details_of 1 []) no_options txt_tags locations_AB synced_tags.

End Example.

(** * Properties *)

Section NegotiatorFacts.

Context (E : Collaborators).

Ltac run_step :=
  unfold download_audio, download_video, download_and_process_image,
    bind, ret, modify, logger, get_world; simpl.

Lemma audio_loop_summary meta gen :
  ∀ idx ctx w,
    let n := negotiate (dl_audio E) meta idx (yields gen) in
    ∃ w', audio_loop E meta idx gen ctx w = Ok (audio_flow ctx n.2) w'
          ∧ calls w' = calls w ++ map (λ r, CallAudio r (file_path (locations ctx) "" "")) n.1
          ∧ events w' = events w
          ∧ fs w' = fs_after E ctx n.2 (fs w).
Proof.
  induction gen as [|[res|l msg] gen IH]; intros idx ctx w; simpl.
  - eexists. split; [reflexivity|]. simpl. rewrite app_nil_r. done.
  - destruct (unchanged meta res) as [m|].
    { run_step. eexists. split; [reflexivity|]. simpl. rewrite app_nil_r. done. }
    destruct (9 <? idx).
    { run_step. eexists. split; [reflexivity|]. simpl. rewrite app_nil_r. done. }
    run_step.
    destruct (dl_audio E res) as [e|] eqn:Hd; simpl;
      [destruct (str_truthy e) eqn:He; simpl; rewrite ?He; simpl|].
    + eexists. split; [reflexivity|]. done.
    + destruct (IH (S idx) ctx
                  (add_call (CallAudio res (file_path (locations ctx) "" "")) w))
        as (w' & Hrun & Hc & Hev & Hfs).
      exists w'. split; [exact Hrun|]. rewrite Hc, Hev, Hfs. simpl.
      rewrite <- app_assoc. done.
    + destruct (IH (S idx) ctx
                  (add_call (CallAudio res (file_path (locations ctx) "" "")) w))
        as (w' & Hrun & Hc & Hev & Hfs).
      exists w'. split; [exact Hrun|]. rewrite Hc, Hev, Hfs. simpl.
      rewrite <- app_assoc. done.
  - unfold bind, logger, modify; simpl.
    destruct (IH idx ctx (add_log l msg w)) as (w' & Hrun & Hc & Hev & Hfs).
    exists w'. split; [exact Hrun|]. rewrite Hc, Hev, Hfs. done.
Qed.

Lemma video_loop_summary meta gen :
  ∀ idx ctx w,
    let n := negotiate (dl_video E) meta idx (yields gen) in
    ∃ w', video_loop E meta idx gen ctx w = Ok (video_flow ctx n.2) w'
          ∧ calls w' = calls w ++ map (λ r, CallVideo r (file_path (locations ctx) "" "")) n.1
          ∧ events w' = events w
          ∧ fs w' = fs_after E ctx n.2 (fs w).
Proof.
  induction gen as [|[res|l msg] gen IH]; intros idx ctx w; simpl.
  - eexists. split; [reflexivity|]. simpl. rewrite app_nil_r. done.
  - destruct (unchanged meta res) as [m|].
    { run_step. eexists. split; [reflexivity|]. simpl. rewrite app_nil_r. done. }
    destruct (9 <? idx).
    { run_step. eexists. split; [reflexivity|]. simpl. rewrite app_nil_r. done. }
    run_step.
    destruct (dl_video E res) as [e|] eqn:Hd; simpl;
      [destruct (str_truthy e) eqn:He; simpl; rewrite ?He; simpl|].
    + eexists. split; [reflexivity|]. done.
    + destruct (IH (S idx) ctx
                  (add_call (CallVideo res (file_path (locations ctx) "" "")) w))
        as (w' & Hrun & Hc & Hev & Hfs).
      exists w'. split; [exact Hrun|]. rewrite Hc, Hev, Hfs. simpl.
      rewrite <- app_assoc. done.
    + destruct (IH (S idx) ctx
                  (add_call (CallVideo res (file_path (locations ctx) "" "")) w))
        as (w' & Hrun & Hc & Hev & Hfs).
      exists w'. split; [exact Hrun|]. rewrite Hc, Hev, Hfs. simpl.
      rewrite <- app_assoc. done.
  - unfold bind, logger, modify; simpl.
    destruct (IH idx ctx (add_log l msg w)) as (w' & Hrun & Hc & Hev & Hfs).
    exists w'. split; [exact Hrun|]. rewrite Hc, Hev, Hfs. done.
Qed.

(** The whole slot functions, through the summary. *)
Lemma maybe_download_audio_summary ctx w :
  is_Some (audio_options (options ctx)) →
  let n := negotiate (dl_audio E)
             (synced_audio (sync_meta ctx) (dir_path (locations ctx)) (fs w)) 0
             (yields (all_audio_resources ctx)) in
  ∃ w', _maybe_download_audio E ctx w = Ok (flow_ctx (audio_flow ctx n.2)) w'
        ∧ calls w' = calls w ++ map (λ r, CallAudio r (file_path (locations ctx) "" "")) n.1
        ∧ events w' = events w
        ∧ fs w' = fs_after E ctx n.2 (fs w).
Proof.
  intros [o Ho] n. unfold _maybe_download_audio. rewrite Ho.
  unfold bind at 1, get_world. unfold bind at 1.
  destruct (audio_loop_summary
              (synced_audio (sync_meta ctx) (dir_path (locations ctx)) (fs w))
              (all_audio_resources ctx) 0 ctx w) as (w' & Hrun & Hc & Hev & Hfs).
  rewrite Hrun. fold n in Hc, Hfs |- *.
  destruct (audio_flow ctx n.2) as [c|c] eqn:Hflow; simpl.
  - exists w'. done.
  - run_step. eexists. split; [reflexivity|]. done.
Qed.

Lemma maybe_download_video_summary ctx w :
  is_Some (video_options (options ctx)) →
  is_audio_only E (meta_tags (txt ctx)) = false →
  let n := negotiate (dl_video E)
             (synced_video (sync_meta ctx) (dir_path (locations ctx)) (fs w)) 0
             (yields (all_video_resources ctx)) in
  ∃ w', _maybe_download_video E ctx w = Ok (flow_ctx (video_flow ctx n.2)) w'
        ∧ calls w' = calls w ++ map (λ r, CallVideo r (file_path (locations ctx) "" "")) n.1
        ∧ events w' = events w
        ∧ fs w' = fs_after E ctx n.2 (fs w).
Proof.
  intros [o Ho] Hao n. unfold _maybe_download_video. rewrite Ho, Hao.
  unfold bind at 1, get_world. unfold bind at 1.
  destruct (video_loop_summary
              (synced_video (sync_meta ctx) (dir_path (locations ctx)) (fs w))
              (all_video_resources ctx) 0 ctx w) as (w' & Hrun & Hc & Hev & Hfs).
  rewrite Hrun. fold n in Hc, Hfs |- *.
  destruct (video_flow ctx n.2) as [c|c] eqn:Hflow; simpl.
  - exists w'. done.
  - run_step. eexists. split; [reflexivity|]. done.
Qed.

End NegotiatorFacts.

(** ** Facts about the summary *)

Section NegotiateFacts.

Context (dl : string → option string) (meta : option FileMeta).

Lemma negotiate_bound cands : ∀ idx, length (negotiate dl meta idx cands).1 ≤ 10 - idx.
Proof.
  induction cands as [|c cands IH]; intros idx; simpl; [lia|].
  destruct (unchanged meta c); simpl; [lia|].
  destruct (Nat.ltb_spec 9 idx); simpl; [lia|].
  destruct (opt_truthy (dl c)); simpl; [lia|].
  specialize (IH (S idx)). lia.
Qed.

(** The candidates handed to the primitive are an initial segment of the
    candidates. *)
Lemma negotiate_prefix cands : ∀ idx, (negotiate dl meta idx cands).1 `prefix_of` cands.
Proof.
  induction cands as [|c cands IH]; intros idx; simpl; [done|].
  destruct (unchanged meta c); simpl; [apply prefix_nil|].
  destruct (9 <? idx); simpl; [apply prefix_nil|].
  destruct (opt_truthy (dl c)); simpl.
  - apply prefix_cons, prefix_nil.
  - apply prefix_cons, IH.
Qed.

(** No candidate handed to the primitive is the synced resource. *)
Lemma negotiate_attempted cands :
  ∀ idx r, r ∈ (negotiate dl meta idx cands).1 → unchanged meta r = None.
Proof.
  induction cands as [|c cands IH]; intros idx r; simpl; [by intros ?%elem_of_nil|].
  destruct (unchanged meta c) eqn:Hu; simpl; [by intros ?%elem_of_nil|].
  destruct (9 <? idx); simpl; [by intros ?%elem_of_nil|].
  destruct (opt_truthy (dl c)); simpl.
  - intros ->%list_elem_of_singleton. done.
  - intros [->|Hin]%elem_of_cons; [done|]. by eapply IH.
Qed.

(** When every candidate fails and none is the synced resource, the first
    ten minus [idx] candidates are tried and the slot fails. *)
Lemma negotiate_all_fail cands :
  ∀ idx,
    (∀ c, c ∈ cands → opt_truthy (dl c) = false ∧ unchanged meta c = None) →
    negotiate dl meta idx cands = (take (10 - idx) cands, Failed).
Proof.
  induction cands as [|c cands IH]; intros idx Hall; simpl.
  - by rewrite take_nil.
  - destruct (Hall c) as [Hf Hu]; [by left|]. rewrite Hu.
    destruct (Nat.ltb_spec 9 idx) as [Hgt|Hle].
    + replace (10 - idx) with 0 by lia. done.
    + rewrite Hf. rewrite IH by (intros; apply Hall; by right).
      replace (10 - idx) with (S (10 - S idx)) by lia. done.
Qed.

(** The candidates before the first success fail, the first success is
    downloaded: that is where the iteration stops. *)
Lemma negotiate_first_success pre c post :
  ∀ idx,
    idx + length pre ≤ 9 →
    (∀ r, r ∈ pre → opt_truthy (dl r) = false) →
    (∀ r, r ∈ pre ++ [c] → unchanged meta r = None) →
    opt_truthy (dl c) = true →
    negotiate dl meta idx (pre ++ c :: post)
    = (pre ++ [c], Downloaded c (default "" (dl c))).
Proof.
  induction pre as [|p pre IH]; intros idx Hlen Hfail Hun Hok; simpl in *.
  - rewrite (Hun c) by (by left).
    destruct (Nat.ltb_spec 9 idx); [lia|]. by rewrite Hok.
  - rewrite (Hun p) by (by left).
    destruct (Nat.ltb_spec 9 idx); [lia|].
    rewrite (Hfail p) by (by left).
    rewrite IH; [done|lia|..].
    + intros; apply Hfail; by right.
    + intros; apply Hun; by right.
    + done.
Qed.

(** The synced resource is reused where the iteration reaches it: after
    candidates that all failed, at any position up to the eleventh. *)
Lemma negotiate_reuse pre m post :
  ∀ idx,
    idx + length pre ≤ 10 →
    (∀ r, r ∈ pre → opt_truthy (dl r) = false ∧ unchanged meta r = None) →
    unchanged meta (resource m) = Some m →
    negotiate dl meta idx (pre ++ resource m :: post) = (pre, Reused m).
Proof.
  induction pre as [|p pre IH]; intros idx Hlen Hfail Hun; simpl in *.
  - by rewrite Hun.
  - destruct (Hfail p) as [Hf Hu]; [by left|]. rewrite Hu.
    destruct (Nat.ltb_spec 9 idx); [lia|].
    rewrite Hf. rewrite IH; [done|lia|..].
    + intros; apply Hfail; by right.
    + done.
Qed.

End NegotiateFacts.

(** ** The audio and video slots *)

Section Slots.

Context (E : Collaborators).

Lemma unchanged_None_iff meta r :
  unchanged meta r = None ↔ ∀ m, meta = Some m → resource m ≠ r.
Proof.
  unfold unchanged. destruct meta as [m|]; [|naive_solver].
  case_bool_decide; naive_solver.
Qed.

Lemma maybe_download_audio_off ctx w :
  audio_options (options ctx) = None → _maybe_download_audio E ctx w = Ok ctx w.
Proof. intros H. unfold _maybe_download_audio. by rewrite H. Qed.

Lemma maybe_download_video_off ctx w :
  video_options (options ctx) = None ∨ is_audio_only E (meta_tags (txt ctx)) = true →
  _maybe_download_video E ctx w = Ok ctx w.
Proof.
  intros H. unfold _maybe_download_video.
  destruct (video_options (options ctx)); [|done].
  destruct H as [H|H]; [done|]. by rewrite H.
Qed.

(** C4. At most ten candidates of a slot are handed to the download
    primitive, and they are an initial segment of the candidates; with
    fifteen candidates that all fail and none of which is the recorded
    resource, exactly the first ten are tried. *)
Theorem bounded_attempts (ctx : Context) (w : World) :
  let target := file_path (locations ctx) "" "" in
  (∃ tried,
      calls (world_of (_maybe_download_audio E ctx w))
      = calls w ++ map (λ r, CallAudio r target) tried
      ∧ length tried ≤ 10 ∧ tried `prefix_of` yields (all_audio_resources ctx))
  ∧ (∃ tried,
      calls (world_of (_maybe_download_video E ctx w))
      = calls w ++ map (λ r, CallVideo r target) tried
      ∧ length tried ≤ 10 ∧ tried `prefix_of` yields (all_video_resources ctx))
  ∧ (∀ cands,
      yields (all_audio_resources ctx) = cands → length cands = 15 →
      is_Some (audio_options (options ctx)) →
      (∀ c, c ∈ cands → opt_truthy (dl_audio E c) = false) →
      (∀ c m, c ∈ cands →
              synced_audio (sync_meta ctx) (dir_path (locations ctx)) (fs w) = Some m →
              resource m ≠ c) →
      calls (world_of (_maybe_download_audio E ctx w))
      = calls w ++ map (λ r, CallAudio r target) (take 10 cands))
  ∧ (∀ cands,
      yields (all_video_resources ctx) = cands → length cands = 15 →
      is_Some (video_options (options ctx)) →
      is_audio_only E (meta_tags (txt ctx)) = false →
      (∀ c, c ∈ cands → opt_truthy (dl_video E c) = false) →
      (∀ c m, c ∈ cands →
              synced_video (sync_meta ctx) (dir_path (locations ctx)) (fs w) = Some m →
              resource m ≠ c) →
      calls (world_of (_maybe_download_video E ctx w))
      = calls w ++ map (λ r, CallVideo r target) (take 10 cands)).
Proof.
  intros target. repeat split.
  - destruct (audio_options (options ctx)) eqn:Ho.
    + destruct (maybe_download_audio_summary E ctx w) as (w' & -> & Hc & _);
        [by rewrite Ho|].
      eexists. split; [exact Hc|]. split.
      * pose proof (negotiate_bound (dl_audio E)
          (synced_audio (sync_meta ctx) (dir_path (locations ctx)) (fs w))
          (yields (all_audio_resources ctx)) 0). lia.
      * apply negotiate_prefix.
    + rewrite maybe_download_audio_off by done. exists []. simpl.
      rewrite app_nil_r. split; [done|]. split; [lia|apply prefix_nil].
  - destruct (video_options (options ctx)) eqn:Ho;
      [destruct (is_audio_only E (meta_tags (txt ctx))) eqn:Hao|].
    + rewrite maybe_download_video_off by (by right). exists []. simpl.
      rewrite app_nil_r. split; [done|]. split; [lia|apply prefix_nil].
    + destruct (maybe_download_video_summary E ctx w) as (w' & -> & Hc & _);
        [by rewrite Ho|done|].
      eexists. split; [exact Hc|]. split.
      * pose proof (negotiate_bound (dl_video E)
          (synced_video (sync_meta ctx) (dir_path (locations ctx)) (fs w))
          (yields (all_video_resources ctx)) 0). lia.
      * apply negotiate_prefix.
    + rewrite maybe_download_video_off by (by left). exists []. simpl.
      rewrite app_nil_r. split; [done|]. split; [lia|apply prefix_nil].
  - intros cands Hy Hlen Hon Hfail Hrec.
    destruct (maybe_download_audio_summary E ctx w Hon) as (w' & -> & Hc & _).
    simpl. rewrite Hc, Hy. rewrite negotiate_all_fail; [done|].
    intros c Hin. split; [by apply Hfail|].
    apply unchanged_None_iff. intros m Hm. by eapply Hrec.
  - intros cands Hy Hlen Hon Hao Hfail Hrec.
    destruct (maybe_download_video_summary E ctx w Hon Hao) as (w' & -> & Hc & _).
    simpl. rewrite Hc, Hy. rewrite negotiate_all_fail; [done|].
    intros c Hin. split; [by apply Hfail|].
    apply unchanged_None_iff. intros m Hm. by eapply Hrec.
Qed.

(** C5. With candidates c1, c2, c3 (and whatever follows them) of which c1
    and c2 fail and c3 succeeds, and no candidate being the recorded
    resource, the slot hands exactly c1, c2, c3 to the primitive and records
    c3 with the file the download produced. *)
Theorem fallback_order (ctx : Context) (w : World) (c1 c2 c3 : string)
    (rest : list string) :
  let target := file_path (locations ctx) "" "" in
  (is_Some (audio_options (options ctx)) →
   yields (all_audio_resources ctx) = [c1; c2; c3] ++ rest →
   opt_truthy (dl_audio E c1) = false → opt_truthy (dl_audio E c2) = false →
   opt_truthy (dl_audio E c3) = true →
   (∀ m, synced_audio (sync_meta ctx) (dir_path (locations ctx)) (fs w) = Some m →
         resource m ∉ [c1; c2; c3]) →
   ∃ ctx' w' ext,
     _maybe_download_audio E ctx w = Ok ctx' w'
     ∧ dl_audio E c3 = Some ext
     ∧ sm_audio (sync_meta ctx')
       = Some (mkFileMeta (filename_stem (locations ctx) +:+ "." +:+ ext) c3)
     ∧ calls w' = calls w ++ [CallAudio c1 target; CallAudio c2 target; CallAudio c3 target])
  ∧ (is_Some (video_options (options ctx)) →
     is_audio_only E (meta_tags (txt ctx)) = false →
     yields (all_video_resources ctx) = [c1; c2; c3] ++ rest →
     opt_truthy (dl_video E c1) = false → opt_truthy (dl_video E c2) = false →
     opt_truthy (dl_video E c3) = true →
     (∀ m, synced_video (sync_meta ctx) (dir_path (locations ctx)) (fs w) = Some m →
           resource m ∉ [c1; c2; c3]) →
     ∃ ctx' w' ext,
       _maybe_download_video E ctx w = Ok ctx' w'
       ∧ dl_video E c3 = Some ext
       ∧ sm_video (sync_meta ctx')
         = Some (mkFileMeta (filename_stem (locations ctx) +:+ "." +:+ ext) c3)
       ∧ calls w' = calls w ++ [CallVideo c1 target; CallVideo c2 target; CallVideo c3 target]).
Proof.
  intros target. split.
  - intros Hon Hy H1 H2 H3 Hrec.
    destruct (maybe_download_audio_summary E ctx w Hon) as (w' & Hrun & Hc & _).
    rewrite Hy in Hrun, Hc.
    assert (negotiate (dl_audio E)
              (synced_audio (sync_meta ctx) (dir_path (locations ctx)) (fs w)) 0
              ([c1; c2; c3] ++ rest)
            = ([c1; c2; c3], Downloaded c3 (default "" (dl_audio E c3)))) as Hn;
      [apply (negotiate_first_success _ _ [c1; c2] c3 rest 0); simpl; [lia|..]
      |rewrite Hn in Hrun, Hc].
    + intros r [->|[->|?%elem_of_nil]%elem_of_cons]%elem_of_cons; done.
    + intros r Hr. apply unchanged_None_iff. intros m Hm Heq.
      rewrite <- Heq in Hr. by apply (Hrec m Hm).
    + done.
    + destruct (dl_audio E c3) as [ext|] eqn:Hd; [|done].
      exists (flow_ctx (audio_flow ctx (Downloaded c3 ext))), w', ext.
      split; [exact Hrun|]. split; [done|]. split; [|exact Hc].
      simpl. simpl in H3. by rewrite H3.
  - intros Hon Hao Hy H1 H2 H3 Hrec.
    destruct (maybe_download_video_summary E ctx w Hon Hao) as (w' & Hrun & Hc & _).
    rewrite Hy in Hrun, Hc.
    assert (negotiate (dl_video E)
              (synced_video (sync_meta ctx) (dir_path (locations ctx)) (fs w)) 0
              ([c1; c2; c3] ++ rest)
            = ([c1; c2; c3], Downloaded c3 (default "" (dl_video E c3)))) as Hn;
      [apply (negotiate_first_success _ _ [c1; c2] c3 rest 0); simpl; [lia|..]
      |rewrite Hn in Hrun, Hc].
    + intros r [->|[->|?%elem_of_nil]%elem_of_cons]%elem_of_cons; done.
    + intros r Hr. apply unchanged_None_iff. intros m Hm Heq.
      rewrite <- Heq in Hr. by apply (Hrec m Hm).
    + done.
    + destruct (dl_video E c3) as [ext|] eqn:Hd; [|done].
      exists (flow_ctx (video_flow ctx (Downloaded c3 ext))), w', ext.
      split; [exact Hrun|]. split; [done|]. split; [|exact Hc].
      simpl. simpl in H3. by rewrite H3.
Qed.

(** C3, as amended. The recorded descriptor of the audio or video slot is
    treated as unchanged where the iteration reaches its resource: at
    position 0, or at a later position (up to the eleventh) once the
    downloads of all the candidates before it have failed.  The recorded
    filename goes into the header, the recorded resource is not downloaded
    again and nothing is written. *)
Theorem reused_where_reached (ctx : Context) (w : World) (m : FileMeta)
    (pre post : list string) :
  let target := file_path (locations ctx) "" "" in
  (is_Some (audio_options (options ctx)) →
   synced_audio (sync_meta ctx) (dir_path (locations ctx)) (fs w) = Some m →
   yields (all_audio_resources ctx) = pre ++ resource m :: post →
   resource m ∉ pre → length pre ≤ 10 →
   (∀ r, r ∈ pre → opt_truthy (dl_audio E r) = false) →
   ∃ w', _maybe_download_audio E ctx w = Ok (set_headers (set_mp3 (fname m)) ctx) w'
         ∧ calls w' = calls w ++ map (λ r, CallAudio r target) pre
         ∧ fs w' = fs w)
  ∧ (is_Some (video_options (options ctx)) →
     is_audio_only E (meta_tags (txt ctx)) = false →
     synced_video (sync_meta ctx) (dir_path (locations ctx)) (fs w) = Some m →
     yields (all_video_resources ctx) = pre ++ resource m :: post →
     resource m ∉ pre → length pre ≤ 10 →
     (∀ r, r ∈ pre → opt_truthy (dl_video E r) = false) →
     ∃ w', _maybe_download_video E ctx w = Ok (set_headers (set_video (fname m)) ctx) w'
           ∧ calls w' = calls w ++ map (λ r, CallVideo r target) pre
           ∧ fs w' = fs w).
Proof.
  intros target.
  assert (∀ dl, (∀ r, r ∈ pre → opt_truthy (dl r) = false) →
                resource m ∉ pre → length pre ≤ 10 →
                negotiate dl (Some m) 0 (pre ++ resource m :: post) = (pre, Reused m))
    as Hneg.
  { intros dl Hfail Hnotin Hlen. apply negotiate_reuse; [simpl; lia| |].
    - intros r Hr. split; [by apply Hfail|].
      apply unchanged_None_iff. intros m' [= <-] Heq. apply Hnotin. by rewrite Heq.
    - simpl. by rewrite bool_decide_eq_true_2. }
  split.
  - intros Hon Hm Hy Hnotin Hlen Hfail.
    destruct (maybe_download_audio_summary E ctx w Hon) as (w' & Hrun & Hc & _ & Hfs).
    rewrite Hm, Hy, Hneg in Hrun, Hc, Hfs by done. by exists w'.
  - intros Hon Hao Hm Hy Hnotin Hlen Hfail.
    destruct (maybe_download_video_summary E ctx w Hon Hao) as (w' & Hrun & Hc & _ & Hfs).
    rewrite Hm, Hy, Hneg in Hrun, Hc, Hfs by done. by exists w'.
Qed.

End Slots.

(** ** The cover and background slots *)

Section Images.

Context (E : Collaborators).

Ltac run_image :=
  unfold _maybe_download_cover, _maybe_download_background, cover_url, background_url,
    download_and_process_image, bind, ret, modify, logger, get_world; simpl.

(** The cover slot calls the primitive at most once, and only when the
    cover tag differs from the one in the metadata or no cover is synced. *)
Lemma maybe_download_cover_calls ctx w :
  ∃ ctx' w' new,
    _maybe_download_cover E ctx w = Ok ctx' w'
    ∧ calls w' = calls w ++ new ∧ events w' = events w
    ∧ (new = []
       ∨ ∃ url,
           new = [CallImage url COVER (file_path (locations ctx) "" "")]
           ∧ (mt_cover (sm_meta_tags (sync_meta ctx)) ≠ mt_cover (meta_tags (txt ctx))
              ∨ synced_cover (sync_meta ctx) (dir_path (locations ctx)) (fs w) = None)).
Proof.
  run_image.
  repeat (case_match; simplify_eq/=; try case_bool_decide; simplify_eq/=);
    try (do 3 eexists; split; [reflexivity|]; simpl; split; [symmetry; apply app_nil_r|];
         split; [done|]; by left);
    do 3 eexists; (split; [reflexivity|]); simpl; (split; [reflexivity|]); (split; [done|]);
    right; eexists; (split; [reflexivity|]); auto.
Qed.

Lemma maybe_download_background_calls ctx w :
  ∃ ctx' w' new,
    _maybe_download_background E ctx w = Ok ctx' w'
    ∧ calls w' = calls w ++ new ∧ events w' = events w
    ∧ (new = []
       ∨ ∃ url,
           new = [CallImage url BACKGROUND (file_path (locations ctx) "" "")]
           ∧ (mt_background (sm_meta_tags (sync_meta ctx))
              ≠ mt_background (meta_tags (txt ctx))
              ∨ synced_background (sync_meta ctx) (dir_path (locations ctx)) (fs w) = None)).
Proof.
  run_image.
  repeat (case_match; simplify_eq/=; try case_bool_decide; simplify_eq/=);
    try (do 3 eexists; split; [reflexivity|]; simpl; split; [symmetry; apply app_nil_r|];
         split; [done|]; by left);
    do 3 eexists; (split; [reflexivity|]); simpl; (split; [reflexivity|]); (split; [done|]);
    right; eexists; (split; [reflexivity|]); auto.
Qed.

Lemma maybe_download_cover_summary ctx w :
  is_Some (cover (options ctx)) →
  let target := file_path (locations ctx) "" "" in
  let v := image_verdict E COVER (cover_url_of E ctx)
             (bool_decide (mt_cover (sm_meta_tags (sync_meta ctx))
                           = mt_cover (meta_tags (txt ctx))))
             (synced_cover (sync_meta ctx) (dir_path (locations ctx)) (fs w)) in
  ∃ w', _maybe_download_cover E ctx w = Ok (cover_ctx ctx v) w'
        ∧ calls w' = calls w ++ image_calls COVER target v
        ∧ events w' = events w
        ∧ fs w' = image_fs E target v (fs w).
Proof.
  intros [o Ho] target v. subst v target. run_image. rewrite Ho.
  unfold image_verdict, cover_url_of.
  repeat (case_match; simplify_eq/=; try case_bool_decide; simplify_eq/=);
    eexists; (split; [reflexivity|]); simpl; rewrite ?app_nil_r; done.
Qed.

Lemma maybe_download_background_summary ctx w opts :
  background_options (options ctx) = Some opts →
  download_background opts (opt_truthy (h_video (headers (txt ctx)))) = true →
  let target := file_path (locations ctx) "" "" in
  let v := image_verdict E BACKGROUND (background_url_of E ctx)
             (bool_decide (mt_background (sm_meta_tags (sync_meta ctx))
                           = mt_background (meta_tags (txt ctx))))
             (synced_background (sync_meta ctx) (dir_path (locations ctx)) (fs w)) in
  ∃ w', _maybe_download_background E ctx w = Ok (background_ctx ctx v) w'
        ∧ calls w' = calls w ++ image_calls BACKGROUND target v
        ∧ events w' = events w
        ∧ fs w' = image_fs E target v (fs w).
Proof.
  intros Ho Hdl target v. subst v target. run_image. rewrite Ho, Hdl. simpl.
  unfold image_verdict, background_url_of.
  repeat (case_match; simplify_eq/=; try case_bool_decide; simplify_eq/=);
    eexists; (split; [reflexivity|]); simpl; rewrite ?app_nil_r; done.
Qed.

Lemma maybe_download_background_off ctx w :
  (∀ opts, background_options (options ctx) = Some opts →
           download_background opts (opt_truthy (h_video (headers (txt ctx)))) = false) →
  _maybe_download_background E ctx w = Ok ctx w.
Proof.
  intros H. unfold _maybe_download_background.
  destruct (background_options (options ctx)) as [opts|]; [|done].
  by rewrite (H opts eq_refl).
Qed.

Lemma synced_None slot dir f : synced slot dir f = None ↔ not_on_disk slot dir f.
Proof.
  unfold synced, not_on_disk. destruct slot as [m|]; [|done].
  destruct (file_exists f (joinpath dir (fname m))) eqn:Hex; split; try done.
  - intros H. specialize (H m eq_refl). congruence.
  - intros _ m' [= <-]. done.
Qed.

Lemma unchanged_synced_None slot dir f r :
  unchanged (synced slot dir f) r = None →
  not_on_disk slot dir f ∨ ∃ m, slot = Some m ∧ resource m ≠ r.
Proof.
  intros Hu. destruct (synced slot dir f) as [m|] eqn:Hs.
  - right. exists m. split.
    + unfold synced in Hs. destruct slot as [m'|]; [|done].
      destruct (file_exists f (joinpath dir (fname m'))); by simplify_eq.
    + simpl in Hu. by case_bool_decide.
  - left. by apply synced_None.
Qed.

(** C8, as amended. A slot hands a resource to its download primitive only
    if nothing is recorded for the slot or the recorded file is missing from
    the song directory, or, for audio and video, the candidate differs from
    the recorded resource identifier, or, for cover and background, the
    image meta tag of the txt differs from the one kept in SyncMeta. *)
Theorem download_only_if_changed_or_missing (ctx : Context) (w : World) :
  let dir := dir_path (locations ctx) in
  let target := file_path (locations ctx) "" "" in
  (∃ tried,
      calls (world_of (_maybe_download_audio E ctx w))
      = calls w ++ map (λ r, CallAudio r target) tried
      ∧ ∀ r, r ∈ tried →
             not_on_disk (sm_audio (sync_meta ctx)) dir (fs w)
             ∨ ∃ m, sm_audio (sync_meta ctx) = Some m ∧ resource m ≠ r)
  ∧ (∃ tried,
      calls (world_of (_maybe_download_video E ctx w))
      = calls w ++ map (λ r, CallVideo r target) tried
      ∧ ∀ r, r ∈ tried →
             not_on_disk (sm_video (sync_meta ctx)) dir (fs w)
             ∨ ∃ m, sm_video (sync_meta ctx) = Some m ∧ resource m ≠ r)
  ∧ (∃ new,
      calls (world_of (_maybe_download_cover E ctx w)) = calls w ++ new
      ∧ (new = []
         ∨ ∃ url, new = [CallImage url COVER target]
                  ∧ (not_on_disk (sm_cover (sync_meta ctx)) dir (fs w)
                     ∨ mt_cover (sm_meta_tags (sync_meta ctx))
                       ≠ mt_cover (meta_tags (txt ctx)))))
  ∧ (∃ new,
      calls (world_of (_maybe_download_background E ctx w)) = calls w ++ new
      ∧ (new = []
         ∨ ∃ url, new = [CallImage url BACKGROUND target]
                  ∧ (not_on_disk (sm_background (sync_meta ctx)) dir (fs w)
                     ∨ mt_background (sm_meta_tags (sync_meta ctx))
                       ≠ mt_background (meta_tags (txt ctx))))).
Proof.
  intros dir target. repeat split.
  - destruct (audio_options (options ctx)) eqn:Ho.
    + destruct (maybe_download_audio_summary E ctx w) as (w' & -> & Hc & _);
        [by rewrite Ho|].
      eexists. split; [exact Hc|]. intros r Hr.
      apply negotiate_attempted in Hr. by apply unchanged_synced_None in Hr.
    + unfold _maybe_download_audio. rewrite Ho. exists []. simpl.
      rewrite app_nil_r. split; [done|]. by intros r ?%elem_of_nil.
  - destruct (video_options (options ctx)) eqn:Ho;
      [destruct (is_audio_only E (meta_tags (txt ctx))) eqn:Hao|].
    + unfold _maybe_download_video. rewrite Ho, Hao. exists []. simpl.
      rewrite app_nil_r. split; [done|]. by intros r ?%elem_of_nil.
    + destruct (maybe_download_video_summary E ctx w) as (w' & -> & Hc & _);
        [by rewrite Ho|done|].
      eexists. split; [exact Hc|]. intros r Hr.
      apply negotiate_attempted in Hr. by apply unchanged_synced_None in Hr.
    + unfold _maybe_download_video. rewrite Ho. exists []. simpl.
      rewrite app_nil_r. split; [done|]. by intros r ?%elem_of_nil.
  - destruct (maybe_download_cover_calls ctx w) as (ctx' & w' & new & -> & Hc & _ & Hnew).
    exists new. split; [exact Hc|].
    destruct Hnew as [->|(url & -> & [Hne|Hs])]; [by left|right; exists url..].
    + split; [done|by right].
    + split; [done|]. left. by apply synced_None.
  - destruct (maybe_download_background_calls ctx w)
      as (ctx' & w' & new & -> & Hc & _ & Hnew).
    exists new. split; [exact Hc|].
    destruct Hnew as [->|(url & -> & [Hne|Hs])]; [by left|right; exists url..].
    + split; [done|by right].
    + split; [done|]. left. by apply synced_None.
Qed.

End Images.

(** ** Locations.ensure_correct_paths *)

Section Paths.

Context (E : Collaborators).





(** One iteration of [_fix_resource_paths]: the rename is skipped, with the
    old name kept and the world as it was, when the names are the same, the
    target exists or the old file is missing; otherwise the file moves to
    the new name and the descriptor follows it. *)
Lemma fix_resource_path_spec l meta w :
  let old_path := file_path l (fname meta) "" in
  let new_path := file_path l (filename_stem l +:+ resource_file_ending E (fname meta)) "" in
  (old_path = new_path ∨ file_exists (fs w) new_path = true
   ∨ file_exists (fs w) old_path = false →
   fix_resource_path E l meta w = Ok meta w)
  ∧ (old_path ≠ new_path → file_exists (fs w) new_path = false →
     file_exists (fs w) old_path = true →
     ∃ c, read_file (fs w) old_path = Some c
          ∧ fix_resource_path E l meta w
            = Ok (mkFileMeta (name new_path) (resource meta))
                (set_fs (move_file old_path new_path c) w)).
Proof.
  intros old_path new_path. unfold fix_resource_path. fold old_path new_path.
  unfold bind, get_world, ret. split.
  - intros [Heq|[Hnew|Hold]].
    + by rewrite bool_decide_eq_true_2.
    + rewrite Hnew. by rewrite orb_true_r.
    + rewrite Hold. simpl. by rewrite orb_true_r.
  - intros Hne Hnew Hold. rewrite bool_decide_eq_false_2 by done.
    rewrite Hnew, Hold. simpl.
    unfold file_exists in Hold. apply bool_decide_eq_true in Hold as [c Hc].
    exists c. split; [done|]. unfold rename, bind, get_world, modify. by rewrite Hc.
Qed.






End Paths.

(** ** SongLoader.run *)

Section Frames.

Context {B : Type} (proj : World → B).

Lemma preserves_ret {A} (a : A) : preserves proj (ret a).
Proof. by intros w. Qed.

Lemma preserves_raise {A} e : preserves proj (raise (A := A) e).
Proof. by intros w. Qed.

Lemma preserves_get_world : preserves proj get_world.
Proof. by intros w. Qed.

Lemma preserves_bind {A C} (m : M A) (k : A → M C) :
  preserves proj m → (∀ a, preserves proj (k a)) → preserves proj (bind m k).
Proof.
  intros Hm Hk w. unfold bind. specialize (Hm w).
  destruct (m w) as [a w'|e w']; simpl in *; [|done].
  by rewrite Hk.
Qed.

Lemma preserves_modify f : (∀ w, proj (f w) = proj w) → preserves proj (modify f).
Proof. intros H w. apply H. Qed.

End Frames.

Create HintDb frames.

Ltac preserves_step :=
  cbv zeta;
  match goal with
  | |- preserves _ (bind _ _) => apply preserves_bind; [|intros ?]
  | |- preserves _ (ret _) => apply preserves_ret
  | |- preserves _ (raise _) => apply preserves_raise
  | |- preserves _ get_world => apply preserves_get_world
  | |- preserves _ (logger _ _) => apply preserves_modify; by intros ?
  | |- preserves _ (modify (set_fs _)) => apply preserves_modify; by intros ?
  | |- preserves _ (modify (add_call _)) => apply preserves_modify; by intros ?
  | |- preserves _ (match ?x with _ => _ end) => destruct x
  | |- preserves _ _ => solve [eauto with frames]
  end.

Ltac preserves_auto := repeat preserves_step.

Section RunFacts.

Context (E : Collaborators).

Lemma events_download_audio res target : preserves events (download_audio E res target).
Proof. unfold download_audio. preserves_auto. Qed.

#[local] Hint Resolve events_download_audio : frames.

Lemma events_audio_loop meta gen :
  ∀ idx ctx, preserves events (audio_loop E meta idx gen ctx).
Proof.
  induction gen as [|[res|l msg] gen IH]; intros idx ctx; simpl; preserves_auto.
Qed.

Lemma events_download_video res target : preserves events (download_video E res target).
Proof. unfold download_video. preserves_auto. Qed.

Lemma events_download_image url target kind :
  preserves events (download_and_process_image E url target kind).
Proof. unfold download_and_process_image. preserves_auto. Qed.

#[local] Hint Resolve events_download_video events_download_image : frames.

Lemma events_video_loop meta gen :
  ∀ idx ctx, preserves events (video_loop E meta idx gen ctx).
Proof.
  induction gen as [|[res|l msg] gen IH]; intros idx ctx; simpl; preserves_auto.
Qed.

#[local] Hint Resolve events_audio_loop events_video_loop : frames.

Lemma events_maybe_download_audio ctx : preserves events (_maybe_download_audio E ctx).
Proof. unfold _maybe_download_audio. preserves_auto. Qed.

Lemma events_maybe_download_video ctx : preserves events (_maybe_download_video E ctx).
Proof. unfold _maybe_download_video. preserves_auto. Qed.

Lemma events_maybe_download_cover ctx : preserves events (_maybe_download_cover E ctx).
Proof. unfold _maybe_download_cover, cover_url. preserves_auto. Qed.

Lemma events_maybe_download_background ctx :
  preserves events (_maybe_download_background E ctx).
Proof. unfold _maybe_download_background, background_url. preserves_auto. Qed.

Section AnyComponent.

(** The steps that neither invoke a callback nor call a download primitive
    leave both records alone. *)
Context {B : Type} (proj : World → B).
Context (proj_fs : ∀ f w, proj (set_fs f w) = proj w).
Context (proj_log : ∀ l msg w, proj (add_log l msg w) = proj w).

Ltac quiet_step :=
  cbv zeta;
  match goal with
  | |- preserves _ (bind _ _) => apply preserves_bind; [|intros ?]
  | |- preserves _ (ret _) => apply preserves_ret
  | |- preserves _ (raise _) => apply preserves_raise
  | |- preserves _ get_world => apply preserves_get_world
  | |- preserves _ (logger _ _) => apply preserves_modify; apply proj_log
  | |- preserves _ (modify (set_fs _)) => apply preserves_modify; apply proj_fs
  | |- preserves _ (match ?x with _ => _ end) => destruct x
  | |- preserves _ _ => solve [eauto with frames]
  end.

Ltac quiet := repeat quiet_step.

Lemma quiet_maybe_write_txt ctx : preserves proj (_maybe_write_txt ctx).
Proof. unfold _maybe_write_txt. quiet. Qed.

Lemma quiet_write_sync_meta ctx : preserves proj (_write_sync_meta ctx).
Proof. unfold _write_sync_meta, to_file. quiet. Qed.

Lemma quiet_read_bytes p : preserves proj (read_bytes (file_bytes E) p).
Proof. unfold read_bytes. quiet. Qed.

Hint Resolve quiet_read_bytes : frames.

Lemma quiet_read_artwork l images : preserves proj (read_artwork E l images).
Proof. induction images as [|[image|] images IH]; simpl; quiet. Qed.

Hint Resolve quiet_read_artwork : frames.

Lemma quiet_write_m4a_tags audiofile ctx embed :
  preserves proj (_write_m4a_tags E audiofile ctx embed).
Proof. unfold _write_m4a_tags. quiet. Qed.

Lemma quiet_write_mp3_tags audiofile ctx embed :
  preserves proj (_write_mp3_tags E audiofile ctx embed).
Proof. unfold _write_mp3_tags. quiet. Qed.

Hint Resolve quiet_write_m4a_tags quiet_write_mp3_tags : frames.

Lemma quiet_maybe_write_audio_tags ctx : preserves proj (_maybe_write_audio_tags E ctx).
Proof. unfold _maybe_write_audio_tags. quiet. Qed.

Lemma quiet_rename old new : preserves proj (rename old new).
Proof. unfold rename. quiet. Qed.

Lemma quiet_rename_dir old new : preserves proj (rename_dir old new).
Proof. unfold rename_dir. quiet. Qed.

Hint Resolve quiet_rename quiet_rename_dir : frames.

Lemma quiet_fix_slot l slot : preserves proj (fix_slot E l slot).
Proof. unfold fix_slot, fix_resource_path. quiet. Qed.

Hint Resolve quiet_fix_slot : frames.

Lemma quiet_ensure_correct_paths l sm : preserves proj (ensure_correct_paths E l sm).
Proof. unfold ensure_correct_paths, _fix_meta_path, _fix_resource_paths. quiet. Qed.

Lemma quiet_Context_new d opts info : preserves proj (Context_new E d opts info).
Proof. unfold Context_new, Locations_new, _load_sync_meta. quiet. Qed.

End AnyComponent.

Lemma finishing_bind {A} id (m : M A) (k : A → M unit) :
  preserves events m → (∀ a, finishing id (k a)) → finishing id (bind m k).
Proof.
  intros Hm Hk w. unfold bind. specialize (Hm w).
  destruct (m w) as [a w'|e w']; simpl in *.
  - rewrite <- Hm. apply Hk.
  - done.
Qed.

Lemma finishing_on_finish id files :
  finishing id (on_finish (mkDownloadResult id files)).
Proof. intros w. simpl. by eexists. Qed.

Lemma finishing_run_with_context id ctx : finishing id (run_with_context E id ctx).
Proof.
  assert (∀ l msg, preserves events (logger l msg)) as Hlog
    by (intros; apply preserves_modify; by intros ?).
  assert (∀ f, preserves events (modify (set_fs f))) as Hfs
    by (intros; apply preserves_modify; by intros ?).
  unfold run_with_context.
  apply finishing_bind; [apply Hfs|intros _].
  apply finishing_bind; [by apply quiet_ensure_correct_paths|intros ls]. cbv zeta.
  apply finishing_bind; [apply events_maybe_download_audio|intros ctx1].
  apply finishing_bind; [apply events_maybe_download_video|intros ctx2].
  apply finishing_bind; [apply events_maybe_download_cover|intros ctx3].
  apply finishing_bind; [apply events_maybe_download_background|intros ctx4].
  apply finishing_bind; [by apply quiet_maybe_write_txt|intros ctx5].
  apply finishing_bind; [by apply quiet_write_sync_meta|intros _].
  apply finishing_bind; [by apply quiet_maybe_write_audio_tags|intros _].
  apply finishing_bind; [apply Hlog|intros _].
  apply finishing_on_finish.
Qed.

Lemma finishing_run info opts :
  finishing (song_id info)
    (match get_usdb_details E (song_id info) with
     | None =>
         logger ERROR "Could not find song on USDB!" ;;
         on_finish (mkDownloadResult (song_id info) None)
     | Some d =>
         logger INFO ("Found '" +:+ d_artist d +:+ " - " +:+ d_title d +:+ "' on  USDB") ;;
         let! new_ctx := Context_new E d opts info in
         match new_ctx with
         | None =>
             logger INFO ("Aborted; not logged in. Log in to USDB in your browser and select the "
                            +:+ "browser in the USDB Syncer settings. ") ;;
             on_finish (mkDownloadResult (song_id info) None)
         | Some ctx => run_with_context E (song_id info) ctx
         end
     end).
Proof.
  assert (∀ l msg, preserves events (logger l msg)) as Hlog
    by (intros; apply preserves_modify; by intros ?).
  destruct (get_usdb_details E (song_id info)) as [d|].
  - apply finishing_bind; [apply Hlog|intros _].
    apply finishing_bind; [by apply quiet_Context_new|intros [ctx|]].
    + apply finishing_run_with_context.
    + apply finishing_bind; [apply Hlog|intros _]. apply finishing_on_finish.
  - apply finishing_bind; [apply Hlog|intros _]. apply finishing_on_finish.
Qed.

(** C1, as amended. The scheduler makes one worker per submitted info.  A
    worker invokes [on_start] and then, when [run] returns, in whichever of
    its three terminal states, has invoked [on_finish] exactly once, last,
    with a result for its song.  [run] catches nothing: an exception raised
    inside it leaves [run], and [on_finish] is then not invoked. *)
Theorem finish_once_unless_raised (info : DownloadInfo) (opts : Options) (w : World) :
  finishes (song_id info) (events w ++ [OnStart (song_id info)]) (run E info opts w)
  ∧ ∀ infos pool,
      download_songs opts infos pool = pool ++ map (λ i, mkSongLoader i opts) infos.
Proof.
  split.
  - unfold run. unfold bind at 1. unfold on_start at 1, modify at 1.
    apply (finishing_run info opts (add_event (OnStart (song_id info)) w)).
  - intros infos. unfold download_songs.
    induction infos as [|i infos IH]; intros pool; simpl.
    + by rewrite app_nil_r.
    + rewrite IH. by rewrite <- app_assoc.
Qed.

(** C6. When the catalogue reports the song absent, or there is no notes
    text for it, [run] ends early: [on_finish] is invoked once with a result
    that has no file summary, nothing is created or changed on disk and no
    download primitive is called. *)
Theorem early_exit_without_files (info : DownloadInfo) (opts : Options) (w : World) :
  get_usdb_details E (song_id info) = None
  ∨ (∃ d, get_usdb_details E (song_id info) = Some d
          ∧ opt_truthy (get_notes E (d_song_id d)) = false) →
  ∃ w',
    run E info opts w = Ok tt w'
    ∧ events w'
      = events w ++ [OnStart (song_id info); OnFinish (mkDownloadResult (song_id info) None)]
    ∧ fs w' = fs w
    ∧ calls w' = calls w.
Proof.
  intros [Hgone|(d & Hd & Hnotes)]; unfold run, bind, on_start, on_finish, modify, logger.
  - rewrite Hgone. eexists. split; [reflexivity|]. simpl.
    rewrite <- app_assoc. done.
  - rewrite Hd. unfold Context_new.
    destruct (get_notes E (d_song_id d)) as [s|]; simpl in *;
      [rewrite Hnotes|]; unfold ret; eexists; (split; [reflexivity|]); simpl;
      rewrite <- app_assoc; done.
Qed.

End RunFacts.

(** ** The song table *)

Section TableFacts.

Context {DownloadStatus : Type}.
Context (PENDING : DownloadStatus) (can_be_downloaded : DownloadStatus → bool).
Context (ids_for_rows : list nat → list Z).
Context (is_pinned : @UsdbSong DownloadStatus → bool).

(** [UsdbSong.is_pinned] reads the pinned flag of the sync meta. *)
Hypothesis is_pinned_reads_flag :
  ∀ song m, us_sync_meta song = Some m → is_pinned song = pinned m.

Abbreviation collect := (collect_downloads PENDING can_be_downloaded).

Lemma collect_downloads_batch ids :
  ∀ acc t batch t',
    collect ids acc t = Ok batch t' →
    (∀ song, song ∈ batch → song ∈ acc ∨ has_pinned_meta song = false)
    ∧ (∀ song, song ∈ acc → song ∈ batch)
    ∧ (∀ id song,
         id ∈ ids → songs t !! id = Some song → has_pinned_meta song = false →
         can_be_downloaded (status song) = true → set_status PENDING song ∈ batch).
Proof.
  induction ids as [|id0 ids IH]; intros acc t batch t' Hrun; simpl in Hrun.
  - simplify_eq. split; [auto|]. split; [auto|]. by intros id song ?%elem_of_nil.
  - destruct (songs t !! id0) as [song0|] eqn:Hget; [|done].
    destruct (has_pinned_meta song0) eqn:Hpin;
      [|destruct (can_be_downloaded (status song0)) eqn:Hcan].
    + destruct (IH _ _ _ _ Hrun) as (H1 & H2 & H3).
      split; [done|]. split; [done|].
      intros id song [->|Hin]%elem_of_cons Hs Hp Hc.
      * simplify_eq. congruence.
      * by eapply H3.
    + destruct (IH _ _ _ _ Hrun) as (H1 & H2 & H3).
      split; [|split].
      * intros song Hin. destruct (H1 song Hin) as [Hacc|?]; [|by right].
        apply elem_of_app in Hacc as [?|Hnew]; [by left|].
        apply list_elem_of_singleton in Hnew as ->. by right.
      * intros song Hin. apply H2, elem_of_app. by left.
      * intros id song Hin Hs Hp Hc.
        destruct (decide (id = id0)) as [->|Hne].
        -- simplify_eq. apply H2, elem_of_app. right. by apply list_elem_of_singleton.
        -- apply elem_of_cons in Hin as [?|Hin]; [done|].
           eapply (H3 id); [done| |done..]. simpl. by rewrite lookup_insert_ne.
    + destruct (IH _ _ _ _ Hrun) as (H1 & H2 & H3).
      split; [done|]. split; [done|].
      intros id song [->|Hin]%elem_of_cons Hs Hp Hc.
      * simplify_eq. congruence.
      * by eapply H3.
Qed.

(** The loop returns when [UsdbSong.get] finds every selected song. *)
Lemma collect_downloads_returns ids :
  ∀ acc t,
    (∀ id, id ∈ ids → is_Some (songs t !! id)) →
    ∃ batch t', collect ids acc t = Ok batch t'.
Proof.
  induction ids as [|id0 ids IH]; intros acc t Hall; simpl.
  - by eexists _, _.
  - destruct (Hall id0) as [song0 ->]; [by left|].
    assert (∀ id, id ∈ ids → is_Some (songs t !! id)) as Hrest
      by (intros id Hin; apply Hall; by right).
    destruct (has_pinned_meta song0); [by apply IH|].
    destruct (can_be_downloaded (status song0)); [|by apply IH].
    apply IH. intros id Hin. simpl.
    destruct (decide (id = id0)) as [->|Hne].
    + rewrite lookup_insert_eq. by eexists.
    + rewrite lookup_insert_ne; [|done]. by apply Hrest.
Qed.

Lemma delete_songs_trashed (l : list UsdbSong) :
  ∀ t,
    trashed (foldl (λ t song, delete_song is_pinned song t) t l)
    = trashed t
      ++ omap (λ song, us_sync_meta song ≫= λ m,
                 if pinned m then None else Some (path m)) l.
Proof.
  induction l as [|song l IH]; intros t; simpl.
  - by rewrite app_nil_r.
  - rewrite IH. unfold delete_song.
    destruct (us_sync_meta song) as [m|] eqn:Hm; simpl; [|done].
    rewrite (is_pinned_reads_flag song m Hm).
    destruct (pinned m); simpl; [done|]. by rewrite <- app_assoc.
Qed.

(** C9. A selected song whose sync meta is pinned is in neither action: no
    song of the batch that [_download] collects for the scheduler is pinned,
    and the folders sent to the trash are those of the selected songs that
    have a sync meta and are not pinned.  A song that is not pinned is
    processed: it joins the batch, marked pending, when it can be downloaded,
    and its folder is trashed when it has a sync meta.  The batch is
    collected whenever every selected song is found. *)
Theorem pinned_songs_left_alone (rows : list nat) (t : Table) :
  ((∀ id, id ∈ ids_for_rows rows → is_Some (songs t !! id)) →
   ∃ batch t', collect (ids_for_rows rows) [] t = Ok batch t')
  ∧ (∀ batch t',
     collect (ids_for_rows rows) [] t = Ok batch t' →
     (∀ song, song ∈ batch → has_pinned_meta song = false)
     ∧ (∀ id song,
          id ∈ ids_for_rows rows → songs t !! id = Some song →
          has_pinned_meta song = false → can_be_downloaded (status song) = true →
          set_status PENDING song ∈ batch))
  ∧ trashed (delete_selected_songs ids_for_rows is_pinned rows t)
    = trashed t
      ++ omap (λ song, us_sync_meta song ≫= λ m,
                 if pinned m then None else Some (path m))
           (selected_songs ids_for_rows rows t).
Proof.
  split; [apply collect_downloads_returns|]. split.
  - intros batch t' Hrun.
    destruct (collect_downloads_batch _ _ _ _ _ Hrun) as (H1 & _ & H3).
    split; [|exact H3].
    intros song Hin. destruct (H1 song Hin) as [?%elem_of_nil|?]; done.
  - unfold delete_selected_songs. apply delete_songs_trashed.
Qed.

Lemma collect_downloads_threadpool ids :
  ∀ acc t batch t', collect ids acc t = Ok batch t' → threadpool t' = threadpool t.
Proof.
  induction ids as [|id0 ids IH]; intros acc t batch t' Hrun; simpl in Hrun.
  - by simplify_eq.
  - destruct (songs t !! id0) as [song0|]; [|done].
    destruct (has_pinned_meta song0); [|destruct (can_be_downloaded (status song0))];
      by rewrite (IH _ _ _ _ Hrun).
Qed.

(** C10. The hand-off of [_download] is not well-formed: [download_songs]
    has three required parameters and is called with the collected songs
    alone.  So whenever every selected song is found and one of them is not
    pinned and can be downloaded, [_download] raises a [TypeError]; by then
    the request has been posted, and no worker has been started. *)
Theorem download_dispatch_raises opts (rows : list nat) (t : Table) :
  (∀ id, id ∈ ids_for_rows rows → is_Some (songs t !! id)) →
  (∃ id song,
     id ∈ ids_for_rows rows ∧ songs t !! id = Some song
     ∧ has_pinned_meta song = false ∧ can_be_downloaded (status song) = true) →
  ∃ batch t1,
    collect (ids_for_rows rows) [] t = Ok batch t1 ∧ batch ≠ []
    ∧ _download PENDING can_be_downloaded ids_for_rows opts rows t
      = Raised (TypeError "missing required positional arguments")
          (post (DownloadsRequested (length batch)) t1)
    ∧ threadpool (post (DownloadsRequested (length batch)) t1) = threadpool t.
Proof.
  intros Hall (id & song & Hin & Hsong & Hpin & Hcan).
  destruct (collect_downloads_returns _ [] t Hall) as (batch & t1 & Hrun).
  destruct (collect_downloads_batch _ _ _ _ _ Hrun) as (_ & _ & H3).
  specialize (H3 id song Hin Hsong Hpin Hcan).
  exists batch, t1. split; [done|].
  assert (batch ≠ []) as Hne by (intros ->; by apply elem_of_nil in H3).
  split; [done|]. split.
  - unfold _download. rewrite Hrun. destruct batch as [|song0 batch]; done.
  - simpl. by eapply collect_downloads_threadpool.
Qed.

End TableFacts.

(** ** Running twice *)

Section Files.

Implicit Types (f : gmap (list string) (gmap string Content)) (p q : list string * string).

Lemma read_file_write_file_eq p c f : read_file (write_file p c f) p = Some c.
Proof.
  unfold read_file, write_file. rewrite lookup_insert_eq. simpl.
  by rewrite lookup_insert_eq.
Qed.

Lemma read_file_write_file_ne p q c f : p ≠ q → read_file (write_file q c f) p = read_file f p.
Proof.
  intros Hne. unfold read_file, write_file. destruct p as [d n], q as [d' n']. simpl.
  destruct (decide (d' = d)) as [->|Hd].
  - rewrite lookup_insert_eq. simpl. rewrite lookup_insert_ne by congruence.
    by destruct (f !! d).
  - by rewrite lookup_insert_ne.
Qed.

Lemma file_exists_write_file p q c f :
  file_exists f p = true → file_exists (write_file q c f) p = true.
Proof.
  unfold file_exists. intros H. apply bool_decide_eq_true in H. apply bool_decide_eq_true.
  destruct (decide (p = q)) as [->|Hne].
  - by rewrite read_file_write_file_eq.
  - by rewrite read_file_write_file_ne.
Qed.

Lemma file_exists_written p c f : file_exists (write_file p c f) p = true.
Proof. unfold file_exists. rewrite read_file_write_file_eq. by apply bool_decide_eq_true. Qed.


Lemma read_file_mkdir f (d : list string) p : read_file (mkdir d f) p = read_file f p.
Proof.
  unfold mkdir. destruct (f !! d) eqn:Hd; [done|].
  unfold read_file. destruct (decide (parent p = d)) as [->|Hne].
  - rewrite lookup_insert_eq, Hd. simpl. by rewrite lookup_empty.
  - by rewrite lookup_insert_ne.
Qed.

Lemma file_exists_mkdir f (d : list string) p : file_exists (mkdir d f) p = file_exists f p.
Proof. unfold file_exists. by rewrite read_file_mkdir. Qed.

(** The name of the metadata file has neither of the two suffixes that get
    tags. *)
Lemma last_dot_usdb s : last_dot (s +:+ ".usdb") = Some (String.length s).
Proof. induction s as [|c s IH]; simpl; [done|]. by rewrite IH. Qed.

Lemma substring_append s t k :
  String.substring (String.length s) k (s +:+ t) = String.substring 0 k t.
Proof. induction s as [|c s IH]; simpl; [done|]. exact IH. Qed.

Lemma length_append s t : String.length (s +:+ t) = String.length s + String.length t.
Proof. induction s as [|c s IH]; simpl; [done|]. by rewrite IH. Qed.

Lemma suffix_usdb s : suffix (s +:+ ".usdb") = ".usdb" ∨ suffix (s +:+ ".usdb") = "".
Proof.
  unfold suffix. rewrite last_dot_usdb, length_append. simpl.
  destruct ((0 <? String.length s) && (String.length s <? String.length s + 5 - 1));
    [left|by right].
  replace (String.length s + 5 - String.length s) with 5 by lia.
  by rewrite substring_append.
Qed.

Lemma suffix_sync_meta_name id :
  suffix (sync_meta_name id) ≠ ".m4a" ∧ suffix (sync_meta_name id) ≠ ".mp3".
Proof.
  unfold sync_meta_name. destruct (suffix_usdb (pretty id)) as [-> | ->]; done.
Qed.

End Files.

Section Plans.

Context (E : Collaborators).

Lemma audio_plan_spec ctx w :
  let n := audio_plan E ctx (fs w) in
  ∃ w', _maybe_download_audio E ctx w = Ok (flow_ctx (audio_flow ctx n.2)) w'
        ∧ calls w' = calls w ++ map (λ r, CallAudio r (file_path (locations ctx) "" "")) n.1
        ∧ events w' = events w
        ∧ fs w' = fs_after E ctx n.2 (fs w).
Proof.
  unfold audio_plan. destruct (audio_options (options ctx)) eqn:Ho.
  - apply maybe_download_audio_summary. by rewrite Ho.
  - exists w. unfold _maybe_download_audio. rewrite Ho. simpl.
    by rewrite app_nil_r.
Qed.

Lemma video_plan_spec ctx w :
  let n := video_plan E ctx (fs w) in
  ∃ w', _maybe_download_video E ctx w = Ok (flow_ctx (video_flow ctx n.2)) w'
        ∧ calls w' = calls w ++ map (λ r, CallVideo r (file_path (locations ctx) "" "")) n.1
        ∧ events w' = events w
        ∧ fs w' = fs_after E ctx n.2 (fs w).
Proof.
  unfold video_plan. destruct (video_options (options ctx)) eqn:Ho;
    [destruct (is_audio_only E (meta_tags (txt ctx))) eqn:Hao|].
  - exists w. unfold _maybe_download_video. rewrite Ho, Hao. simpl.
    by rewrite app_nil_r.
  - apply maybe_download_video_summary; [by rewrite Ho|done].
  - exists w. unfold _maybe_download_video. rewrite Ho. simpl.
    by rewrite app_nil_r.
Qed.

Lemma cover_plan_spec ctx w :
  let v := cover_plan E ctx (fs w) in
  let target := file_path (locations ctx) "" "" in
  ∃ w', _maybe_download_cover E ctx w = Ok (cover_ctx ctx v) w'
        ∧ calls w' = calls w ++ image_calls COVER target v
        ∧ events w' = events w
        ∧ fs w' = image_fs E target v (fs w).
Proof.
  unfold cover_plan. destruct (cover (options ctx)) eqn:Ho.
  - apply maybe_download_cover_summary. by rewrite Ho.
  - exists w. unfold _maybe_download_cover. rewrite Ho. simpl.
    by rewrite app_nil_r.
Qed.

Lemma background_plan_spec ctx w :
  let v := background_plan E ctx (fs w) in
  let target := file_path (locations ctx) "" "" in
  ∃ w', _maybe_download_background E ctx w = Ok (background_ctx ctx v) w'
        ∧ calls w' = calls w ++ image_calls BACKGROUND target v
        ∧ events w' = events w
        ∧ fs w' = image_fs E target v (fs w).
Proof.
  unfold background_plan. destruct (background_options (options ctx)) as [opts|] eqn:Ho;
    [destruct (download_background opts (opt_truthy (h_video (headers (txt ctx)))))
       eqn:Hdl|].
  - by apply (maybe_download_background_summary E ctx w opts).
  - exists w. rewrite maybe_download_background_off.
    + simpl. by rewrite app_nil_r.
    + intros opts' Ho'. rewrite Ho in Ho'. by simplify_eq.
  - exists w. rewrite maybe_download_background_off.
    + simpl. by rewrite app_nil_r.
    + intros opts' Ho'. rewrite Ho in Ho'. done.
Qed.

(** The slot functions do not change the location, the details, the
    options or the meta tags of the txt. *)
Lemma audio_flow_same ctx v :
  let ctx' := flow_ctx (audio_flow ctx v) in
  details ctx' = details ctx ∧ options ctx' = options ctx
  ∧ locations ctx' = locations ctx ∧ meta_tags (txt ctx') = meta_tags (txt ctx).
Proof. by destruct v. Qed.

Lemma video_flow_same ctx v :
  let ctx' := flow_ctx (video_flow ctx v) in
  details ctx' = details ctx ∧ options ctx' = options ctx
  ∧ locations ctx' = locations ctx ∧ meta_tags (txt ctx') = meta_tags (txt ctx).
Proof. by destruct v. Qed.

Lemma cover_ctx_same ctx v :
  let ctx' := cover_ctx ctx v in
  details ctx' = details ctx ∧ options ctx' = options ctx
  ∧ locations ctx' = locations ctx ∧ meta_tags (txt ctx') = meta_tags (txt ctx).
Proof. by destruct v. Qed.

Lemma background_ctx_same ctx v :
  let ctx' := background_ctx ctx v in
  details ctx' = details ctx ∧ options ctx' = options ctx
  ∧ locations ctx' = locations ctx ∧ meta_tags (txt ctx') = meta_tags (txt ctx).
Proof. by destruct v. Qed.


(** Reading the artwork changes nothing. *)
Lemma read_bytes_world p w : world_of (read_bytes (file_bytes E) p w) = w.
Proof. unfold read_bytes, bind, get_world, ret, raise. by destruct (read_file (fs w) p). Qed.

Lemma read_artwork_world l images w : world_of (read_artwork E l images w) = w.
Proof.
  induction images as [|[image|] images IH]; simpl; [done| |done].
  unfold bind. pose proof (read_bytes_world (file_path l (fname image) "") w) as Hb.
  destruct (read_bytes (file_bytes E) (file_path l (fname image) "") w) as [b w1|e w1];
    simpl in *; subst w1; [|done].
  destruct (read_artwork E l images w) as [bs w2|e w2]; simpl in *; by subst w2.
Qed.


Lemma grows_refl f : grows f f.
Proof. by intros q. Qed.

Lemma grows_trans f1 f2 f3 : grows f1 f2 → grows f2 f3 → grows f1 f3.
Proof. intros H1 H2 q Hq. by apply H2, H1. Qed.

Lemma grows_write_file q c f : grows f (write_file q c f).
Proof. intros p Hp. by apply file_exists_write_file. Qed.

Lemma grows_fs_after ctx v f : grows f (fs_after E ctx v f).
Proof. destruct v; simpl; [apply grows_refl|apply grows_write_file|apply grows_refl]. Qed.

Lemma grows_image_fs target v f : grows f (image_fs E target v f).
Proof. destruct v; simpl; try apply grows_refl. apply grows_write_file. Qed.



End Plans.

Section Replay.

Context (E : Collaborators).

Lemma negotiate_downloaded dl meta cands :
  ∀ idx r e, (negotiate dl meta idx cands).2 = Downloaded r e →
             dl r = Some e ∧ str_truthy e = true.
Proof.
  induction cands as [|c cands IH]; intros idx r e; simpl; [done|].
  destruct (unchanged meta c); simpl; [done|].
  destruct (9 <? idx); simpl; [done|].
  destruct (dl c) as [e'|] eqn:Hd; simpl; [destruct (str_truthy e') eqn:He|]; simpl.
  - intros [= <- <-]. by rewrite Hd.
  - apply IH.
  - apply IH.
Qed.


Lemma media_target_file_path (l : Locations) e :
  str_truthy e = true → media_target (file_path l "" "") e = file_path l "" e.
Proof. intros He. unfold media_target, file_path. simpl. by rewrite He. Qed.











Lemma cover_ctx_meta ctx v :
  let sm := sync_meta ctx in
  let sm' := sync_meta (cover_ctx ctx v) in
  sm_audio sm' = sm_audio sm ∧ sm_video sm' = sm_video sm
  ∧ sm_background sm' = sm_background sm ∧ sm_meta_tags sm' = sm_meta_tags sm
  ∧ sm_song_id sm' = sm_song_id sm.
Proof. by destruct v. Qed.

Lemma background_ctx_meta ctx v :
  let sm := sync_meta ctx in
  let sm' := sync_meta (background_ctx ctx v) in
  sm_audio sm' = sm_audio sm ∧ sm_video sm' = sm_video sm
  ∧ sm_cover sm' = sm_cover sm ∧ sm_meta_tags sm' = sm_meta_tags sm
  ∧ sm_song_id sm' = sm_song_id sm.
Proof. by destruct v. Qed.







End Replay.

(** ** The examples, run *)

(** The fifteen candidates that all fail: the first ten are tried, for the
    audio slot and for the video slot. *)
Lemma bounded_attempts_witness :
  calls (world_of (_maybe_download_audio Example.E15 Example.ctx15 Example.empty_world))
  = map (λ r, CallAudio r (["songs"; "Artist A - Title B"], "Artist A - Title B"))
      (take 10 Example.fifteen)
  ∧ calls (world_of (_maybe_download_video Example.E15 Example.ctx15 Example.empty_world))
    = map (λ r, CallVideo r (["songs"; "Artist A - Title B"], "Artist A - Title B"))
        (take 10 Example.fifteen).
Proof.
  destruct (bounded_attempts Example.E15 Example.ctx15 Example.empty_world)
    as (_ & _ & Ha & Hv).
  split.
  - apply (Ha Example.fifteen); [reflexivity|reflexivity|by eexists|done|done].
  - apply (Hv Example.fifteen); [reflexivity|reflexivity|by eexists|reflexivity|done|done].
Defined.

(** Three candidates of which the third is the first to succeed. *)
Lemma fallback_order_witness :
  (∃ ctx' w' ext,
      _maybe_download_audio Example.E3 Example.ctx3 Example.empty_world = Ok ctx' w'
      ∧ Example.third_only "c3" = Some ext
      ∧ sm_audio (sync_meta ctx') = Some (mkFileMeta ("Artist A - Title B" +:+ "." +:+ ext) "c3")
      ∧ calls w' = map (λ r, CallAudio r (["songs"; "Artist A - Title B"], "Artist A - Title B"))
                     ["c1"; "c2"; "c3"])
  ∧ (∃ ctx' w' ext,
      _maybe_download_video Example.E3 Example.ctx3 Example.empty_world = Ok ctx' w'
      ∧ Example.third_only "c3" = Some ext
      ∧ sm_video (sync_meta ctx') = Some (mkFileMeta ("Artist A - Title B" +:+ "." +:+ ext) "c3")
      ∧ calls w' = map (λ r, CallVideo r (["songs"; "Artist A - Title B"], "Artist A - Title B"))
                     ["c1"; "c2"; "c3"]).
Proof.
  destruct (fallback_order Example.E3 Example.ctx3 Example.empty_world "c1" "c2" "c3" [])
    as [Ha Hv].
  split.
  - apply Ha; [by eexists|reflexivity|reflexivity|reflexivity|reflexivity|done].
  - apply Hv; [by eexists|reflexivity|reflexivity|reflexivity|reflexivity|reflexivity|done].
Defined.

(** The recorded resource "c2" behind a failing "c1": it is reused. *)
Lemma reused_where_reached_witness :
  (∃ w', _maybe_download_audio Example.E_later Example.ctx_later Example.world_later
         = Ok (set_headers (set_mp3 "Artist A - Title B.m4a") Example.ctx_later) w'
         ∧ calls w' = [CallAudio "c1" (["songs"; "Artist A - Title B"], "Artist A - Title B")]
         ∧ fs w' = fs Example.world_later)
  ∧ (∃ w', _maybe_download_video Example.E_later Example.ctx_later Example.world_later
           = Ok (set_headers (set_video "Artist A - Title B.mp4") Example.ctx_later) w'
           ∧ calls w' = [CallVideo "c1" (["songs"; "Artist A - Title B"], "Artist A - Title B")]
           ∧ fs w' = fs Example.world_later).
Proof.
  split.
  - apply (proj1 (reused_where_reached Example.E_later Example.ctx_later Example.world_later
                    (mkFileMeta "Artist A - Title B.m4a" "c2") ["c1"] []));
      [by eexists|by vm_compute|reflexivity
      |by intros ?%list_elem_of_singleton|simpl; lia|done].
  - apply (proj2 (reused_where_reached Example.E_later Example.ctx_later Example.world_later
                    (mkFileMeta "Artist A - Title B.mp4" "c2") ["c1"] []));
      [by eexists|reflexivity|by vm_compute|reflexivity
      |by intros ?%list_elem_of_singleton|simpl; lia|done].
Defined.

(** C3, as stated, fails: the recorded resource "c2" is only the second
    candidate, and yet it is not handed to the download primitive again. *)
Lemma reuse_at_later_position :
  ¬ audio_redownloaded_unless_first Example.E_later Example.ctx_later Example.world_later.
Proof.
  intros H.
  specialize (H (mkFileMeta "Artist A - Title B.m4a" "c2")).
  assert (CallAudio "c2" (["songs"; "Artist A - Title B"], "Artist A - Title B")
          ∈ [CallAudio "c1" (["songs"; "Artist A - Title B"], "Artist A - Title B")]) as Hin.
  { apply H; [by vm_compute| |].
    - apply list_elem_of_In. vm_compute. right. by left.
    - by vm_compute. }
  apply list_elem_of_singleton in Hin. discriminate Hin.
Qed.

(** C8, as stated, fails for the cover slot: the txt now carries a cover tag
    for the URL the recorded cover came from, the recorded file is in the
    directory, and the cover is downloaded again from that same URL. *)
Lemma cover_downloaded_again_from_recorded_url :
  ¬ cover_download_only_if_changed_or_missing Example.E_cover Example.ctx_cover
      Example.world_cover.
Proof.
  intros H.
  destruct (H [CallImage "https://usdb/cover/1.jpg" COVER
                 (["songs"; "Artist A - Title B"], "Artist A - Title B")]
              "https://usdb/cover/1.jpg"
              (["songs"; "Artist A - Title B"], "Artist A - Title B")
              ltac:(by vm_compute) ltac:(apply list_elem_of_singleton; reflexivity)
              (mkFileMeta "Artist A - Title B [CO].jpg" "https://usdb/cover/1.jpg")
              eq_refl) as [Hne|Hmissing].
  - by apply Hne.
  - vm_compute in Hmissing. discriminate Hmissing.
Qed.


Example rename_scenario :
  ∃ w',
    ensure_correct_paths Example.E_rename Example.loc_BC Example.synced_B Example.world_B
    = Ok (mkLocations (["songs"; "Artist A - Title C"], "1.usdb") "Artist A - Title C",
          mkSyncMeta 1 (Example.tags_of None (Some "c1") None) false
            (Some (mkFileMeta "Artist A - Title C.txt" ""))
            (Some (mkFileMeta "Artist A - Title C.mp3" "c1"))
            (Some (mkFileMeta "Artist A - Title B.mp4" "c1"))
            (Some (mkFileMeta "Artist A - Title C [CO].jpg" "https://usdb/cover/1.jpg"))
            None) w'
    ∧ read_file (fs w') (["songs"; "Artist A - Title C"], "Artist A - Title C.mp3")
      = Some (Example.media "c1")
    ∧ read_file (fs w') (["songs"; "Artist A - Title C"], "Artist A - Title B.mp3") = None
    ∧ log w' = [].
Proof. eexists. split; [by vm_compute|]. by vm_compute. Qed.


(** C1, as stated, fails: the recorded cover file is gone and cannot be
    downloaded again, embedding the artwork into the audio file reads it,
    and the exception leaves [run] before [on_finish] is reached. *)
Lemma missing_artwork_escapes_run :
  ¬ finishes_exactly_once Example.E_tags Example.info_tags Example.all_options
      Example.world_tags.
Proof.
  intros (w' & r & Hrun & _).
  assert (is_ok (run Example.E_tags Example.info_tags Example.all_options
                   Example.world_tags) = false) as Hraised by (by vm_compute).
  rewrite Hrun in Hraised. discriminate Hraised.
Qed.

(** The song that is gone from the catalogue and the session that is not
    logged in: one [on_finish] without files, nothing on disk. *)
Lemma early_exit_without_files_witness :
  (∃ w', run Example.E_gone Example.info_new Example.all_options Example.empty_world
         = Ok tt w'
         ∧ events w' = [OnStart 1; OnFinish (mkDownloadResult 1 None)]
         ∧ fs w' = ∅ ∧ calls w' = [])
  ∧ (∃ w', run Example.E_logged_out Example.info_new Example.all_options
             Example.empty_world = Ok tt w'
           ∧ events w' = [OnStart 1; OnFinish (mkDownloadResult 1 None)]
           ∧ fs w' = ∅ ∧ calls w' = []).
Proof.
  split.
  - apply (early_exit_without_files Example.E_gone Example.info_new Example.all_options
             Example.empty_world). left. reflexivity.
  - apply (early_exit_without_files Example.E_logged_out Example.info_new
             Example.all_options Example.empty_world).
    right. eexists. split; reflexivity.
Defined.

(** The three songs selected: the pinned one is in neither action. *)
Lemma pinned_songs_left_alone_witness :
  (∃ batch t',
     collect_downloads Example.PENDING Example.can_be_downloaded
       (Example.ids_for_rows [0; 1; 2]) [] Example.table = Ok batch t')
  ∧ (∀ batch t',
     collect_downloads Example.PENDING Example.can_be_downloaded
       (Example.ids_for_rows [0; 1; 2]) [] Example.table = Ok batch t' →
     (∀ song, song ∈ batch → has_pinned_meta song = false)
     ∧ (∀ id song,
          id ∈ Example.ids_for_rows [0; 1; 2] → songs Example.table !! id = Some song →
          has_pinned_meta song = false → Example.can_be_downloaded (status song) = true →
          set_status Example.PENDING song ∈ batch))
  ∧ trashed (delete_selected_songs Example.ids_for_rows has_pinned_meta [0; 1; 2]
               Example.table)
    = [["songs"; "Other Song"]].
Proof.
  destruct (pinned_songs_left_alone Example.PENDING Example.can_be_downloaded
              Example.ids_for_rows has_pinned_meta
              ltac:(intros song m Hm; unfold has_pinned_meta; by rewrite Hm)
              [0; 1; 2] Example.table) as (Hret & Hdl & Hdel).
  split; [|split; [exact Hdl|]].
  - apply Hret. intros id Hin. vm_compute in Hin.
    repeat (apply elem_of_cons in Hin as [->|Hin]; [by eexists|]).
    by apply elem_of_nil in Hin.
  - rewrite Hdel. by vm_compute.
Defined.

Example download_batch :
  ∃ t',
    collect_downloads Example.PENDING Example.can_be_downloaded
      (Example.ids_for_rows [0; 1; 2]) [] Example.table
    = Ok [set_status Example.PENDING Example.song1;
          set_status Example.PENDING Example.song3] t'.
Proof. eexists. by vm_compute. Qed.

(** The three songs selected: the hand-off raises with the two songs that
    can be downloaded marked pending, and the pool is as it was. *)
Lemma download_dispatch_raises_witness :
  ∃ batch t1,
    collect_downloads Example.PENDING Example.can_be_downloaded
      (Example.ids_for_rows [0; 1; 2]) [] Example.table = Ok batch t1
    ∧ batch ≠ []
    ∧ _download Example.PENDING Example.can_be_downloaded Example.ids_for_rows
        Example.all_options [0; 1; 2] Example.table
      = Raised (TypeError "missing required positional arguments")
          (post (DownloadsRequested (length batch)) t1)
    ∧ threadpool (post (DownloadsRequested (length batch)) t1)
      = threadpool Example.table.
Proof.
  apply (download_dispatch_raises Example.PENDING Example.can_be_downloaded
           Example.ids_for_rows Example.all_options [0; 1; 2] Example.table).
  - intros id Hin. vm_compute in Hin.
    repeat (apply elem_of_cons in Hin as [->|Hin]; [by eexists|]).
    by apply elem_of_nil in Hin.
  - exists 1%Z, Example.song1. split; [by left|]. by vm_compute.
Defined.

Example download_dispatch :
  ∃ t',
    _download Example.PENDING Example.can_be_downloaded Example.ids_for_rows
      Example.all_options [0; 1; 2] Example.table
    = Raised (TypeError "missing required positional arguments") t'
    ∧ threadpool t' = []
    ∧ posted t' = [SongChanged 1; SongChanged 3; DownloadsRequested 2]
    ∧ status <$> songs t' !! 1%Z = Some Example.PENDING.
Proof. eexists. split; [by vm_compute|]. by vm_compute. Qed.



Example failed_candidate_calls :
  let w1 := world_of (run Example.E_fallback Example.info_tags Example.all_options
                        Example.empty_world) in
  let target := (["songs"; "Artist A - Title B"], "Artist A - Title B") in
  calls w1 = [CallAudio "c1" target; CallAudio "c2" target;
              CallImage "https://usdb/cover/1.jpg" COVER target]
  ∧ calls (world_of (run Example.E_fallback Example.info_tags Example.all_options w1))
    = calls w1 ++ [CallAudio "c1" target].
Proof. by vm_compute. Qed.

(** * Further properties *)

(** ** The slots and their candidates *)

Section SlotResults.

Context (E : Collaborators).


Lemma synced_Some slot dir f m :
  synced slot dir f = Some m →
  slot = Some m ∧ file_exists f (joinpath dir (fname m)) = true.
Proof.
  unfold synced. destruct slot as [m0|]; [|done].
  destruct (file_exists f (joinpath dir (fname m0))) eqn:Hex; [|done].
  by intros [= <-].
Qed.

Lemma negotiate_reused_meta dl meta cands :
  ∀ idx m, (negotiate dl meta idx cands).2 = Reused m → meta = Some m.
Proof.
  induction cands as [|c cands IH]; intros idx m; simpl; [done|].
  destruct (unchanged meta c) as [m'|] eqn:Hu; simpl.
  - intros [= <-]. unfold unchanged in Hu. destruct meta as [m0|]; [|done].
    case_bool_decide; by simplify_eq.
  - destruct (9 <? idx); simpl; [done|].
    destruct (opt_truthy (dl c)); simpl; [done|]. apply IH.
Qed.

Lemma audio_plan_reused ctx f m :
  (audio_plan E ctx f).2 = Reused m →
  sm_audio (sync_meta ctx) = Some m
  ∧ file_exists f (joinpath (dir_path (locations ctx)) (fname m)) = true.
Proof.
  unfold audio_plan. destruct (audio_options (options ctx)); [|done].
  intros H%negotiate_reused_meta. by apply synced_Some in H.
Qed.

Lemma video_plan_reused ctx f m :
  (video_plan E ctx f).2 = Reused m →
  sm_video (sync_meta ctx) = Some m
  ∧ file_exists f (joinpath (dir_path (locations ctx)) (fname m)) = true.
Proof.
  unfold video_plan. destruct (video_options (options ctx)); [|done].
  destruct (is_audio_only E (meta_tags (txt ctx))); [done|].
  intros H%negotiate_reused_meta. by apply synced_Some in H.
Qed.

Lemma audio_plan_downloaded ctx f r e :
  (audio_plan E ctx f).2 = Downloaded r e → str_truthy e = true.
Proof.
  unfold audio_plan. destruct (audio_options (options ctx)); [|done].
  intros H. by apply negotiate_downloaded in H as [_ ?].
Qed.

Lemma video_plan_downloaded ctx f r e :
  (video_plan E ctx f).2 = Downloaded r e → str_truthy e = true.
Proof.
  unfold video_plan. destruct (video_options (options ctx)); [|done].
  destruct (is_audio_only E (meta_tags (txt ctx))); [done|].
  intros H. by apply negotiate_downloaded in H as [_ ?].
Qed.

Lemma set_audio_slot_same ctx m :
  sm_audio (sync_meta ctx) = Some m → set_sync_meta (set_audio_slot (Some m)) ctx = ctx.
Proof. destruct ctx as [d o t l []]; simpl. by intros ->. Qed.

Lemma set_video_slot_same ctx m :
  sm_video (sync_meta ctx) = Some m → set_sync_meta (set_video_slot (Some m)) ctx = ctx.
Proof. destruct ctx as [d o t l []]; simpl. by intros ->. Qed.

Lemma set_cover_slot_same ctx m :
  sm_cover (sync_meta ctx) = Some m → set_sync_meta (set_cover_slot (Some m)) ctx = ctx.
Proof. destruct ctx as [d o t l []]; simpl. by intros ->. Qed.

Lemma set_background_slot_same ctx m :
  sm_background (sync_meta ctx) = Some m →
  set_sync_meta (set_background_slot (Some m)) ctx = ctx.
Proof. destruct ctx as [d o t l []]; simpl. by intros ->. Qed.

(** X2. The audio slot and the video slot always return.  Each either
    leaves the context as it was, or reuses or downloads a file: then the
    header ([#MP3], [#VIDEO]) and the descriptor of the slot in the sync
    meta name the same file, that file is in the song directory, and nothing
    else of the context has changed. *)
Theorem media_slot_records_what_it_names (ctx : Context) (w : World) :
  (∃ ctx' w',
      _maybe_download_audio E ctx w = Ok ctx' w'
      ∧ (ctx' = ctx
         ∨ ∃ m, ctx' = set_headers (set_mp3 (fname m))
                         (set_sync_meta (set_audio_slot (Some m)) ctx)
                ∧ file_exists (fs w') (joinpath (dir_path (locations ctx)) (fname m)) = true))
  ∧ (∃ ctx' w',
        _maybe_download_video E ctx w = Ok ctx' w'
        ∧ (ctx' = ctx
           ∨ ∃ m, ctx' = set_headers (set_video (fname m))
                           (set_sync_meta (set_video_slot (Some m)) ctx)
                  ∧ file_exists (fs w') (joinpath (dir_path (locations ctx)) (fname m))
                    = true)).
Proof.
  split.
  - destruct (audio_plan_spec E ctx w) as (w' & Hrun & _ & _ & Hfs).
    eexists _, w'. split; [exact Hrun|].
    destruct (audio_plan E ctx (fs w)).2 as [m|r e|] eqn:Hv; simpl in *.
    + right. exists m. apply audio_plan_reused in Hv as [Hm Hex].
      rewrite (set_audio_slot_same _ _ Hm). split; [done|]. by rewrite Hfs.
    + right. exists (mkFileMeta (name (file_path (locations ctx) "" e)) r).
      split; [done|]. rewrite Hfs. apply audio_plan_downloaded in Hv.
      rewrite media_target_file_path by done. apply file_exists_written.
    + by left.
  - destruct (video_plan_spec E ctx w) as (w' & Hrun & _ & _ & Hfs).
    eexists _, w'. split; [exact Hrun|].
    destruct (video_plan E ctx (fs w)).2 as [m|r e|] eqn:Hv; simpl in *.
    + right. exists m. apply video_plan_reused in Hv as [Hm Hex].
      rewrite (set_video_slot_same _ _ Hm). split; [done|]. by rewrite Hfs.
    + right. exists (mkFileMeta (name (file_path (locations ctx) "" e)) r).
      split; [done|]. rewrite Hfs. apply video_plan_downloaded in Hv.
      rewrite media_target_file_path by done. apply file_exists_written.
    + by left.
Qed.

Lemma image_verdict_reused kind url same synced_meta m :
  image_verdict E kind url same synced_meta = ImageReused m → synced_meta = Some m.
Proof.
  unfold image_verdict. destruct url as [u|]; [|done].
  destruct (str_truthy u); [|done].
  destruct same; [|by destruct (dl_image E u kind)].
  destruct synced_meta as [m0|]; [by intros [= ->]|by destruct (dl_image E u kind)].
Qed.

Lemma cover_plan_reused ctx f m :
  cover_plan E ctx f = ImageReused m →
  sm_cover (sync_meta ctx) = Some m
  ∧ file_exists f (joinpath (dir_path (locations ctx)) (fname m)) = true.
Proof.
  unfold cover_plan. destruct (cover (options ctx)); [|done].
  intros H%image_verdict_reused. by apply synced_Some in H.
Qed.

Lemma background_plan_reused ctx f m :
  background_plan E ctx f = ImageReused m →
  sm_background (sync_meta ctx) = Some m
  ∧ file_exists f (joinpath (dir_path (locations ctx)) (fname m)) = true.
Proof.
  unfold background_plan. destruct (background_options (options ctx)) as [o|]; [|done].
  destruct (download_background o _); [|done].
  intros H%image_verdict_reused. by apply synced_Some in H.
Qed.

(** X3. The cover slot and the background slot always return.  Each either
    leaves the context as it was, or reuses or downloads an image: then the
    header ([#COVER], [#BACKGROUND]) and the descriptor of the slot name the
    same file, that file is in the song directory, and nothing else of the
    context has changed. *)
Theorem image_slot_records_what_it_names (ctx : Context) (w : World) :
  (∃ ctx' w',
      _maybe_download_cover E ctx w = Ok ctx' w'
      ∧ (ctx' = ctx
         ∨ ∃ m, ctx' = set_headers (set_cover (fname m))
                         (set_sync_meta (set_cover_slot (Some m)) ctx)
                ∧ file_exists (fs w') (joinpath (dir_path (locations ctx)) (fname m)) = true))
  ∧ (∃ ctx' w',
        _maybe_download_background E ctx w = Ok ctx' w'
        ∧ (ctx' = ctx
           ∨ ∃ m, ctx' = set_headers (set_background (fname m))
                           (set_sync_meta (set_background_slot (Some m)) ctx)
                  ∧ file_exists (fs w') (joinpath (dir_path (locations ctx)) (fname m))
                    = true)).
Proof.
  split.
  - destruct (cover_plan_spec E ctx w) as (w' & Hrun & _ & _ & Hfs).
    eexists _, w'. split; [exact Hrun|].
    destruct (cover_plan E ctx (fs w)) as [|m|u n|u] eqn:Hv; simpl in *.
    + by left.
    + right. exists m. apply cover_plan_reused in Hv as [Hm Hex].
      rewrite (set_cover_slot_same _ _ Hm). split; [done|]. by rewrite Hfs.
    + right. exists (mkFileMeta n u). split; [done|]. rewrite Hfs.
      apply file_exists_written.
    + by left.
  - destruct (background_plan_spec E ctx w) as (w' & Hrun & _ & _ & Hfs).
    eexists _, w'. split; [exact Hrun|].
    destruct (background_plan E ctx (fs w)) as [|m|u n|u] eqn:Hv; simpl in *.
    + by left.
    + right. exists m. apply background_plan_reused in Hv as [Hm Hex].
      rewrite (set_background_slot_same _ _ Hm). split; [done|]. by rewrite Hfs.
    + right. exists (mkFileMeta n u). split; [done|]. rewrite Hfs.
      apply file_exists_written.
    + by left.
Qed.

End SlotResults.

(** ** The steps of a run *)

Section RunSteps.

Context (E : Collaborators).

Lemma cover_url_value ctx w : ∃ w0, cover_url E ctx w = Ok (cover_url_of E ctx) w0.
Proof.
  unfold cover_url, cover_url_of, bind, logger, modify, ret.
  destruct (mt_cover (meta_tags (txt ctx))); [by eexists|].
  destruct (opt_truthy (d_cover_url (details ctx))); by eexists.
Qed.

Lemma background_url_value ctx w :
  ∃ w0, background_url E ctx w = Ok (background_url_of E ctx) w0.
Proof.
  unfold background_url, background_url_of, bind, logger, modify, ret.
  destruct (mt_background (meta_tags (txt ctx))); by eexists.
Qed.

Lemma image_verdict_changed kind u synced_meta :
  str_truthy u = true →
  let v := image_verdict E kind (Some u) false synced_meta in
  ∀ target, image_calls kind target v = [CallImage u kind target].
Proof.
  intros Hu v target. subst v. unfold image_verdict. rewrite Hu.
  by destruct (dl_image E u kind).
Qed.

(** X4. A cover or background tag that differs from the tag in the sync
    meta is fetched, and is not taken over: the slot calls the image
    primitive once, and in the context it returns, the one whose sync meta
    is written, the two tags still differ. *)
Theorem changed_image_tag_is_not_recorded (ctx : Context) (w : World) :
  (∀ u w0,
      is_Some (cover (options ctx)) →
      cover_url E ctx w = Ok (Some u) w0 → str_truthy u = true →
      mt_cover (sm_meta_tags (sync_meta ctx)) ≠ mt_cover (meta_tags (txt ctx)) →
      ∃ ctx' w',
        _maybe_download_cover E ctx w = Ok ctx' w'
        ∧ calls w' = calls w ++ [CallImage u COVER (file_path (locations ctx) "" "")]
        ∧ mt_cover (sm_meta_tags (sync_meta ctx')) ≠ mt_cover (meta_tags (txt ctx')))
  ∧ (∀ opts u w0,
        background_options (options ctx) = Some opts →
        download_background opts (opt_truthy (h_video (headers (txt ctx)))) = true →
        background_url E ctx w = Ok (Some u) w0 → str_truthy u = true →
        mt_background (sm_meta_tags (sync_meta ctx)) ≠ mt_background (meta_tags (txt ctx)) →
        ∃ ctx' w',
          _maybe_download_background E ctx w = Ok ctx' w'
          ∧ calls w' = calls w ++ [CallImage u BACKGROUND (file_path (locations ctx) "" "")]
          ∧ mt_background (sm_meta_tags (sync_meta ctx'))
            ≠ mt_background (meta_tags (txt ctx'))).
Proof.
  split.
  - intros u w0 [c Hc] Hurl Hu Hne.
    destruct (cover_url_value ctx w) as (w0' & Hurl'). rewrite Hurl in Hurl'.
    injection Hurl' as Hof _.
    destruct (cover_plan_spec E ctx w) as (w' & Hrun & Hcalls & _).
    eexists _, w'. split; [exact Hrun|].
    unfold cover_plan in *. rewrite Hc in *. rewrite <- Hof in *.
    rewrite bool_decide_eq_false_2 in * by done.
    split; [by rewrite Hcalls, image_verdict_changed|].
    set (v := image_verdict E COVER (Some u) false _).
    destruct (cover_ctx_meta ctx v) as (_ & _ & _ & -> & _).
    by destruct (cover_ctx_same ctx v) as (_ & _ & _ & ->).
  - intros opts u w0 Ho Hdl Hurl Hu Hne.
    destruct (background_url_value ctx w) as (w0' & Hurl'). rewrite Hurl in Hurl'.
    injection Hurl' as Hof _.
    destruct (background_plan_spec E ctx w) as (w' & Hrun & Hcalls & _).
    eexists _, w'. split; [exact Hrun|].
    unfold background_plan in *. rewrite Ho, Hdl in *. rewrite <- Hof in *.
    rewrite bool_decide_eq_false_2 in * by done.
    split; [by rewrite Hcalls, image_verdict_changed|].
    set (v := image_verdict E BACKGROUND (Some u) false _).
    destruct (background_ctx_meta ctx v) as (_ & _ & _ & -> & _).
    by destruct (background_ctx_same ctx v) as (_ & _ & _ & ->).
Qed.

End RunSteps.

(** ** Embedding the tags *)

Section Tags.

Context (E : Collaborators).

(** How [_maybe_write_audio_tags] ends: it raises and leaves the world as it
    was, or it returns without a write, or it returns having rewritten the
    recorded audio file, an m4a or an mp3, with its payload kept. *)
Lemma maybe_write_audio_tags_cases ctx w :
  (∃ e, _maybe_write_audio_tags E ctx w = Raised e w
        ∧ is_Some (audio_options (options ctx)) ∧ is_Some (sm_audio (sync_meta ctx)))
  ∨ _maybe_write_audio_tags E ctx w = Ok tt w
  ∨ ∃ m t,
      sm_audio (sync_meta ctx) = Some m
      ∧ let q := file_path (locations ctx) (fname m) "" in
        (suffix (name q) = ".m4a" ∨ suffix (name q) = ".mp3")
        ∧ _maybe_write_audio_tags E ctx w
          = Ok tt (set_fs (write_file q
                             (mkContent (default (Payload "") (body <$> read_file (fs w) q)) t))
                     w).
Proof.
  unfold _maybe_write_audio_tags.
  destruct (audio_options (options ctx)) as [o|] eqn:Ho; [|by right; left].
  destruct (sm_audio (sync_meta ctx)) as [m|] eqn:Hm; [|by right; left].
  set (audiofile := file_path (locations ctx) (fname m) "").
  case_bool_decide as Hm4a; [|case_bool_decide as Hmp3; [|by right; left]].
  - unfold _write_m4a_tags, bind, get_world.
    destruct (read_file (fs w) audiofile) as [[[sm|tx enc nl|bytes] old]|] eqn:Hread;
      try (left; eexists; split; [reflexivity|by split]).
    case_bool_decide; [by right; left|].
    destruct (embed_artwork o).
    + pose proof (read_artwork_world E (locations ctx)
                    [sm_cover (sync_meta ctx); sm_background (sync_meta ctx)] w) as Hw.
      destruct (read_artwork E (locations ctx)
                  [sm_cover (sync_meta ctx); sm_background (sync_meta ctx)] w)
        as [covr w1|e w1]; simpl in Hw; subst w1;
        [|left; eexists; split; [reflexivity|by split]].
      right; right. eexists m, _. split; [done|]. split; [by left|].
      fold audiofile. rewrite Hread. reflexivity.
    + right; right. eexists m, _. split; [done|]. split; [by left|].
      fold audiofile. rewrite Hread. reflexivity.
  - unfold _write_mp3_tags.
    destruct (pt2b E (main_language E (headers (txt ctx)))) as [lang|];
      [|left; eexists; split; [reflexivity|by split]].
    unfold bind, get_world.
    destruct (sm_cover (sync_meta ctx)) as [c|]; [destruct (embed_artwork o)|].
    + pose proof (read_bytes_world E (file_path (locations ctx) (fname c) "") w) as Hw.
      destruct (read_bytes (file_bytes E) (file_path (locations ctx) (fname c) "") w)
        as [b w1|e w1]; simpl in Hw; subst w1;
        [|left; eexists; split; [reflexivity|by split]].
      right; right. eexists m, _. split; [done|]. split; [by right|]. reflexivity.
    + right; right. eexists m, _. split; [done|]. split; [by right|]. reflexivity.
    + right; right. eexists m, _. split; [done|]. split; [by right|]. reflexivity.
Qed.

(** X5. Embedding the tags never damages a file.  Whether it returns or
    raises, every file that was on disk is still there with the body it had;
    the only file that can differ at all is the recorded audio file; when it
    raises, nothing has been written; and no callback is invoked and no
    download primitive is called. *)
Theorem audio_tags_keep_payloads (ctx : Context) (w : World) :
  let o := _maybe_write_audio_tags E ctx w in
  (∀ p c, read_file (fs w) p = Some c →
          ∃ c', read_file (fs (world_of o)) p = Some c' ∧ body c' = body c)
  ∧ (∀ p, read_file (fs (world_of o)) p ≠ read_file (fs w) p →
          ∃ m, sm_audio (sync_meta ctx) = Some m
               ∧ p = file_path (locations ctx) (fname m) "")
  ∧ (is_ok o = false → world_of o = w)
  ∧ events (world_of o) = events w ∧ calls (world_of o) = calls w.
Proof.
  intros o. subst o.
  destruct (maybe_write_audio_tags_cases ctx w)
    as [(e & -> & _)|[->|(m & t & Hm & Hsuf & ->)]]; simpl.
  - split; [by eauto|]. by split.
  - split; [by eauto|]. by split.
  - set (q := file_path (locations ctx) (fname m) "").
    split; [|split; [|by split]].
    + intros p c Hp. destruct (decide (p = q)) as [->|Hne].
      * rewrite read_file_write_file_eq. eexists. split; [done|].
        simpl. by rewrite Hp.
      * rewrite read_file_write_file_ne by done. by eauto.
    + intros p Hp. exists m. split; [done|].
      destruct (decide (p = q)) as [->|Hne]; [done|].
      by rewrite read_file_write_file_ne in Hp.
Qed.

Ltac lookup_tags :=
  repeat (rewrite lookup_insert_eq || (rewrite lookup_insert_ne by done)).

Lemma set_opt_tag_lookup key v (t : gmap string TagValue) k :
  set_opt_tag key v t !! k
  = if bool_decide (k = key) && opt_truthy v then Text <$> v else t !! k.
Proof.
  unfold set_opt_tag. destruct v as [s|]; simpl; [|by rewrite andb_false_r].
  destruct (str_truthy s); [|by rewrite andb_false_r].
  rewrite andb_true_r. case_bool_decide as Hk.
  - subst. by rewrite lookup_insert_eq.
  - by rewrite lookup_insert_ne.
Qed.

(** X6. [_write_m4a_tags] merges into the tags the file has.  A file
    without tags is left as it is.  Otherwise the artist, title, lyrics,
    source and artwork atoms are set; the genre and year atoms are set when
    the header has a value and keep their old value when it has none; every
    other atom of the file is kept.  The artwork is all of the recorded
    cover and background, read from the song directory, or empty when
    artwork is not to be embedded.  When the function raises, nothing has
    been written. *)
Theorem m4a_tags_are_merged (audiofile : Path) (ctx : Context) (embed : bool)
    (w : World) :
  let h := headers (txt ctx) in
  let sm := sync_meta ctx in
  (∀ w', _write_m4a_tags E audiofile ctx embed w = Ok tt w' →
     ∃ bytes old,
       read_file (fs w) audiofile = Some (mkContent (Payload bytes) old)
       ∧ (old = ∅ → w' = w)
       ∧ (old ≠ ∅ →
          ∃ t covr,
            w' = set_fs (write_file audiofile (mkContent (Payload bytes) t)) w
            ∧ t !! "\xa9ART" = Some (Text (h_artist h))
            ∧ t !! "\xa9nam" = Some (Text (h_title h))
            ∧ t !! "\xa9lyr" = Some (Text (unsynchronized_lyrics E (txt ctx)))
            ∧ t !! "\xa9cmt" = Some (Text (default "" (resource <$> sm_audio sm)))
            ∧ t !! "covr" = Some (Pictures covr)
            ∧ (if embed
               then read_artwork E (locations ctx) [sm_cover sm; sm_background sm] w
                    = Ok covr w
               else covr = [])
            ∧ t !! "\xa9gen"
              = (if opt_truthy (h_genre h) then Text <$> h_genre h else old !! "\xa9gen")
            ∧ t !! "\xa9day"
              = (if opt_truthy (h_year h) then Text <$> h_year h else old !! "\xa9day")
            ∧ ∀ k, k ∉ m4a_keys → k ≠ "\xa9gen" → k ≠ "\xa9day" → t !! k = old !! k))
  ∧ (∀ e w', _write_m4a_tags E audiofile ctx embed w = Raised e w' → w' = w).
Proof.
  intros h sm. unfold _write_m4a_tags, bind, get_world. fold h sm.
  destruct (read_file (fs w) audiofile) as [[[s|tx enc nl|bytes] old]|] eqn:Hread;
    try (split; [done|by intros e w' [= _ <-]]).
  case_bool_decide as Hold;
    [unfold ret; split; [|done]; intros w' [= <-]; exists bytes, old;
     split; [done|]; split; [done|]; by intros []|].
  assert (∃ o, (if embed
                then read_artwork E (locations ctx) [sm_cover sm; sm_background sm]
                else ret []) w = o
               ∧ world_of o = w
               ∧ ∀ covr w1, o = Ok covr w1 →
                   if embed
                   then read_artwork E (locations ctx) [sm_cover sm; sm_background sm] w
                        = Ok covr w
                   else covr = []) as (o & -> & Hw & Hcovr).
  { eexists. split; [done|]. destruct embed.
    - split; [apply read_artwork_world|]. intros covr w1 Ho.
      pose proof (read_artwork_world E (locations ctx)
                    [sm_cover sm; sm_background sm] w) as Hw.
      rewrite Ho in Hw. simpl in Hw. by subst.
    - split; [done|]. by intros covr w1 [= <- _]. }
  destruct o as [covr w1|e w1]; simpl in Hw; subst w1;
    [|split; [done|by intros e' w' [= _ <-]]].
  split; [|done]. intros w' [= <-]. exists bytes, old.
  split; [done|]. split; [done|]. intros _. eexists _, covr.
  split; [reflexivity|].
  repeat split.
  - lookup_tags. rewrite !set_opt_tag_lookup. simpl. by lookup_tags.
  - lookup_tags. rewrite !set_opt_tag_lookup. simpl. by lookup_tags.
  - by lookup_tags.
  - by lookup_tags.
  - by lookup_tags.
  - by apply (Hcovr covr w).
  - lookup_tags. rewrite !set_opt_tag_lookup. simpl.
    destruct (opt_truthy (h_genre h)); [done|]. by lookup_tags.
  - lookup_tags. rewrite !set_opt_tag_lookup. simpl.
    destruct (opt_truthy (h_year h)); [done|]. by lookup_tags.
  - intros k Hk Hgen Hday. unfold m4a_keys in Hk.
    rewrite !not_elem_of_cons in Hk. destruct Hk as (? & ? & ? & ? & ? & _).
    lookup_tags. rewrite !set_opt_tag_lookup.
    rewrite !bool_decide_eq_false_2 by done. simpl. by lookup_tags.
Qed.


End Tags.

(** ** A run, step by step *)

Section RunFrames.

Context (E : Collaborators).

Lemma run_with_context_steps id ctx w :
  run_with_context E id ctx w
  = match settle_paths E ctx w with
    | Ok ctx1 w1 => sync_slots E id ctx1 w1
    | Raised e w1 => Raised e w1
    end.
Proof.
  unfold run_with_context, settle_paths, sync_slots, write_up, bind, modify, ret.
  by destruct (ensure_correct_paths E (locations ctx) (sync_meta ctx)
                 (set_fs (mkdir (dir_path (locations ctx))) w)).
Qed.

Lemma sync_slots_summary id ctx w :
  let r := download_slots E ctx (fs w) in
  ∃ w4, sync_slots E id ctx w = write_up E id r.1.1 w4
        ∧ fs w4 = r.1.2
        ∧ calls w4 = calls w ++ r.2
        ∧ events w4 = events w.
Proof.
  intros r. unfold sync_slots.
  destruct (audio_plan_spec E ctx w) as (w1 & Ha & Hc1 & He1 & Hf1).
  unfold bind at 1. rewrite Ha.
  set (ctx1 := flow_ctx (audio_flow ctx (audio_plan E ctx (fs w)).2)) in *.
  destruct (video_plan_spec E ctx1 w1) as (w2 & Hv & Hc2 & He2 & Hf2).
  unfold bind at 1. rewrite Hv.
  set (ctx2 := flow_ctx (video_flow ctx1 (video_plan E ctx1 (fs w1)).2)) in *.
  destruct (cover_plan_spec E ctx2 w2) as (w3 & Hco & Hc3 & He3 & Hf3).
  unfold bind at 1. rewrite Hco.
  set (ctx3 := cover_ctx ctx2 (cover_plan E ctx2 (fs w2))) in *.
  destruct (background_plan_spec E ctx3 w3) as (w4 & Hb & Hc4 & He4 & Hf4).
  unfold bind at 1. rewrite Hb.
  exists w4.
  assert (locations ctx1 = locations ctx) as Hl1 by apply (audio_flow_same ctx).
  assert (locations ctx2 = locations ctx) as Hl2
    by (etrans; [apply (video_flow_same ctx1)|done]).
  assert (locations ctx3 = locations ctx) as Hl3
    by (etrans; [apply (cover_ctx_same ctx2)|done]).
  rewrite Hl1 in Hc2. rewrite Hl2 in Hc3, Hf3. rewrite Hl3 in Hc4, Hf4.
  subst r. unfold download_slots. cbv zeta.
  rewrite <- Hf1. fold ctx1. rewrite <- Hf2. fold ctx2. rewrite <- Hf3. fold ctx3.
  rewrite <- Hf4. simpl.
  split; [done|]. split; [done|]. split.
  - rewrite Hc4, Hc3, Hc2, Hc1. simpl. by rewrite <- !app_assoc.
  - by rewrite He4, He3, He2, He1.
Qed.

Lemma write_file_outside (p : list string * string) (c : Content)
    (f : gmap (list string) (gmap string Content)) (d : list string) :
  d ≠ parent p → write_file p c f !! d = f !! d.
Proof. intros Hd. unfold write_file. by rewrite lookup_insert_ne. Qed.

Lemma fs_after_outside ctx v f (d : list string) :
  d ≠ dir_path (locations ctx) → fs_after E ctx v f !! d = f !! d.
Proof. intros Hd. destruct v; simpl; [done| |done]. by apply write_file_outside. Qed.

Lemma image_fs_outside target v f (d : list string) :
  d ≠ parent target → image_fs E target v f !! d = f !! d.
Proof. intros Hd. destruct v; simpl; try done. by apply write_file_outside. Qed.

(** The four slots keep to the song directory, remove no file and leave the
    details, the options, the locations and the meta tags of the txt alone. *)
Lemma download_slots_facts ctx f :
  let r := download_slots E ctx f in
  locations r.1.1 = locations ctx ∧ options r.1.1 = options ctx
  ∧ details r.1.1 = details ctx
  ∧ (∀ d : list string, d ≠ dir_path (locations ctx) → r.1.2 !! d = f !! d)
  ∧ grows f r.1.2.
Proof.
  unfold download_slots. cbv zeta. simpl.
  set (ctx1 := flow_ctx (audio_flow ctx (audio_plan E ctx f).2)).
  set (f1 := fs_after E ctx _ f).
  set (ctx2 := flow_ctx (video_flow ctx1 (video_plan E ctx1 f1).2)).
  set (f2 := fs_after E ctx1 _ f1).
  set (ctx3 := cover_ctx ctx2 (cover_plan E ctx2 f2)).
  set (f3 := image_fs E _ (cover_plan E ctx2 f2) f2).
  set (ctx4 := background_ctx ctx3 (background_plan E ctx3 f3)).
  destruct (audio_flow_same ctx (audio_plan E ctx f).2) as (Hd1 & Ho1 & Hl1 & _).
  destruct (video_flow_same ctx1 (video_plan E ctx1 f1).2) as (Hd2 & Ho2 & Hl2 & _).
  destruct (cover_ctx_same ctx2 (cover_plan E ctx2 f2)) as (Hd3 & Ho3 & Hl3 & _).
  destruct (background_ctx_same ctx3 (background_plan E ctx3 f3)) as (Hd4 & Ho4 & Hl4 & _).
  fold ctx1 in Hd1, Ho1, Hl1. fold ctx2 in Hd2, Ho2, Hl2. fold ctx3 in Hd3, Ho3, Hl3.
  fold ctx4 in Hd4, Ho4, Hl4.
  split; [congruence|]. split; [congruence|]. split; [congruence|]. split.
  - intros d Hd.
    rewrite image_fs_outside by done. subst f3.
    rewrite image_fs_outside by done. subst f2.
    rewrite fs_after_outside by (rewrite Hl1; done). subst f1.
    by rewrite fs_after_outside.
  - eapply grows_trans; [|apply grows_image_fs].
    eapply grows_trans; [|apply grows_image_fs].
    eapply grows_trans; [|apply grows_fs_after]. apply grows_fs_after.
Qed.

(** The last steps of a run: the txt is written, then the sync meta, and
    what remains is the embedding of the tags and the report. *)
Lemma write_up_cases id ctx w :
  let ctx5 := txt_ctx ctx in
  let sm := sync_meta ctx5 in
  let pm := joinpath (dir_path (locations ctx)) (sync_meta_name (sm_song_id sm)) in
  ∃ w5,
    (match txt_options (options ctx) with
     | Some o =>
         w5 = add_log INFO "Success! Created song txt."
                (set_fs (write_file (file_path (locations ctx) "" "txt")
                           (mkContent (TxtData (txt ctx) (encoding o) (newline o)) ∅)) w)
     | None => w5 = w
     end)
    ∧ let w6 := set_fs (write_file pm (mkContent (MetaJson sm) ∅)) w5 in
      write_up E id ctx w
      = match _maybe_write_audio_tags E ctx5 w6 with
        | Ok _ w7 =>
            Ok tt (add_event
                     (OnFinish (mkDownloadResult id
                                  (Some (mkLocalFiles (loc_meta_path (locations ctx)) sm))))
                     (add_log INFO "All done!" w7))
        | Raised e w7 => Raised e w7
        end.
Proof.
  intros ctx5 sm pm. subst ctx5 sm pm. unfold write_up, txt_ctx, _maybe_write_txt.
  destruct (txt_options (options ctx)) as [o|]; eexists; (split; [reflexivity|]);
    unfold bind, modify, logger, ret, _write_sync_meta, to_file, on_finish, modify; simpl;
    by destruct (_maybe_write_audio_tags E _ _).
Qed.

Lemma txt_ctx_same ctx :
  locations (txt_ctx ctx) = locations ctx ∧ options (txt_ctx ctx) = options ctx
  ∧ txt (txt_ctx ctx) = txt ctx.
Proof. unfold txt_ctx. by destruct (txt_options (options ctx)). Qed.

Lemma write_up_frame id ctx w :
  let w' := world_of (write_up E id ctx w) in
  (∀ d : list string, d ≠ dir_path (locations ctx) → fs w' !! d = fs w !! d)
  ∧ grows (fs w) (fs w').
Proof.
  intros w'. subst w'.
  destruct (write_up_cases id ctx w) as (w5 & H5 & ->).
  destruct (txt_ctx_same ctx) as (Hl & _ & _).
  set (pm := joinpath _ _). set (sm := sync_meta (txt_ctx ctx)).
  set (w6 := set_fs (write_file pm (mkContent (MetaJson sm) ∅)) w5).
  assert ((∀ d : list string, d ≠ dir_path (locations ctx) → fs w5 !! d = fs w !! d)
          ∧ grows (fs w) (fs w5)) as [Ho5 Hg5].
  { destruct (txt_options (options ctx)); subst w5; simpl.
    - split; [|apply grows_write_file]. intros d Hd. by apply write_file_outside.
    - split; [done|apply grows_refl]. }
  assert ((∀ d : list string, d ≠ dir_path (locations ctx) → fs w6 !! d = fs w !! d)
          ∧ grows (fs w) (fs w6)) as [Ho6 Hg6].
  { subst w6. simpl. split.
    - intros d Hd. rewrite write_file_outside by done. by apply Ho5.
    - eapply grows_trans; [exact Hg5|apply grows_write_file]. }
  destruct (maybe_write_audio_tags_cases E (txt_ctx ctx) w6)
    as [(e & -> & _)|[->|(m & t & Hm & Hsuf & ->)]]; simpl; [done..|].
  split.
  - intros d Hd. rewrite write_file_outside; [by apply Ho6|]. simpl. by rewrite Hl.
  - eapply grows_trans; [exact Hg6|apply grows_write_file].
Qed.

Lemma sync_slots_frame id ctx w :
  let w' := world_of (sync_slots E id ctx w) in
  (∀ d : list string, d ≠ dir_path (locations ctx) → fs w' !! d = fs w !! d)
  ∧ grows (fs w) (fs w').
Proof.
  intros w'. subst w'.
  destruct (sync_slots_summary id ctx w) as (w4 & -> & Hfs & _).
  destruct (download_slots_facts ctx (fs w)) as (Hl & _ & _ & Ho & Hg).
  destruct (write_up_frame id (download_slots E ctx (fs w)).1.1 w4) as [Ho' Hg'].
  rewrite Hl in Ho'. rewrite Hfs in Ho', Hg'. split.
  - intros d Hd. rewrite Ho' by done. by apply Ho.
  - by eapply grows_trans.
Qed.


Lemma set_same_paths ctx :
  set_sync_meta (λ _, sync_meta ctx) (set_locations (locations ctx) ctx) = ctx.
Proof. by destruct ctx. Qed.



Lemma Context_new_pure d opts info w :
  ∃ r, Context_new E d opts info w = Ok r w
       ∧ ∀ ctx, r = Some ctx →
           details ctx = d ∧ options ctx = opts
           ∧ ∀ p, meta_path info = Some p → loc_meta_path (locations ctx) = p.
Proof.
  unfold Context_new.
  destruct (get_notes E (d_song_id d)) as [s|]; [|by eexists].
  destruct (str_truthy s); [|by eexists].
  unfold Locations_new, _load_sync_meta, bind, get_world, ret.
  destruct (meta_path info) as [p|]; simpl.
  - destruct (file_exists (fs w) p); [destruct (try_from_file (fs w) p)|];
      eexists; (split; [reflexivity|]); intros ctx [= <-]; simpl;
      (split; [done|]); (split; [done|]); by intros ? [= <-].
  - match goal with |- context [file_exists ?f ?q] => destruct (file_exists f q) end;
      [match goal with |- context [try_from_file ?f ?q] => destruct (try_from_file f q) end|];
      eexists; (split; [reflexivity|]); intros ctx [= <-]; simpl;
      (split; [done|]); (split; [done|]); by intros ? [=].
Qed.

(** How [run] ends: early, with a report that has no files and with the
    files as they were, or as [run_with_context] does for the context made
    from the details and the notes. *)
Lemma run_cases info opts w :
  (∃ w', run E info opts w = Ok tt w'
         ∧ events w'
           = events w ++ [OnStart (song_id info);
                          OnFinish (mkDownloadResult (song_id info) None)]
         ∧ fs w' = fs w)
  ∨ ∃ d ctx w0,
      get_usdb_details E (song_id info) = Some d
      ∧ Context_new E d opts info w0 = Ok (Some ctx) w0
      ∧ fs w0 = fs w ∧ events w0 = events w ++ [OnStart (song_id info)]
      ∧ run E info opts w = run_with_context E (song_id info) ctx w0.
Proof.
  unfold run, on_start, on_finish, logger, bind, modify.
  destruct (get_usdb_details E (song_id info)) as [d|].
  - match goal with |- context [Context_new E d opts info ?x] => set (w0 := x) end.
    destruct (Context_new_pure d opts info w0) as (r & Hr & _). rewrite Hr.
    destruct r as [ctx|].
    + right. by exists d, ctx, w0.
    + left. eexists. split; [reflexivity|]. simpl. by rewrite <- app_assoc.
  - left. eexists. split; [reflexivity|]. simpl. by rewrite <- app_assoc.
Qed.


(** X9. A run whose song directory already has the name that fits the txt
    removes no file: every file that was in the library is still there when
    the run returns or raises. *)
Theorem run_removes_no_file (id : SongId) (ctx : Context) (w : World) :
  is_name_maybe_with_suffix E (dir_name (dir_path (locations ctx)))
    (filename_stem (locations ctx)) = true →
  grows (fs w) (fs (world_of (run_with_context E id ctx w))).
Proof.
  intros Hname. rewrite run_with_context_steps.
  unfold settle_paths, bind, modify, ensure_correct_paths. rewrite Hname.
  unfold ret. simpl. rewrite set_same_paths.
  eapply grows_trans; [|apply sync_slots_frame]. simpl.
  intros q Hq. by rewrite file_exists_mkdir.
Qed.

End RunFrames.

(** ** What a run leaves on disk *)

Section RunResults.

Context (E : Collaborators).

Lemma list_ascii_append s t :
  String.list_ascii_of_string (s +:+ t)
  = String.list_ascii_of_string s ++ String.list_ascii_of_string t.
Proof. induction s as [|c s IH]; simpl; [done|]. by rewrite IH. Qed.

Lemma txt_name_not_sync_meta_name stem id : stem +:+ "." +:+ "txt" ≠ sync_meta_name id.
Proof.
  unfold sync_meta_name. intros Heq.
  apply (f_equal (λ s, last (String.list_ascii_of_string s))) in Heq.
  rewrite !list_ascii_append in Heq. simpl in Heq.
  rewrite !last_app in Heq. simpl in Heq. done.
Qed.

Lemma last_dot_txt s : last_dot (s +:+ ".txt") = Some (String.length s).
Proof. induction s as [|c s IH]; simpl; [done|]. by rewrite IH. Qed.

Lemma suffix_txt s : suffix (s +:+ "." +:+ "txt") ≠ ".m4a" ∧ suffix (s +:+ "." +:+ "txt") ≠ ".mp3".
Proof.
  change (s +:+ "." +:+ "txt") with (s +:+ ".txt").
  unfold suffix. rewrite last_dot_txt, length_append. simpl.
  destruct ((0 <? String.length s) && (String.length s <? String.length s + 4 - 1));
    [|done].
  replace (String.length s + 4 - String.length s) with 4 by lia.
  by rewrite substring_append.
Qed.

Lemma settle_paths_same ctx w ctx1 w1 :
  settle_paths E ctx w = Ok ctx1 w1 →
  details ctx1 = details ctx ∧ options ctx1 = options ctx ∧ txt ctx1 = txt ctx.
Proof.
  unfold settle_paths, bind, modify, ret.
  destruct (ensure_correct_paths E _ _ _) as [ls w2|]; [|done]. by intros [= <- _].
Qed.

Lemma last_two {A} (l : list A) a b : last (l ++ [a; b]) = Some b.
Proof. change [a; b] with ([a] ++ [b]). by rewrite app_assoc, last_snoc. Qed.

(** A run that returns with a context has written the txt and the sync
    meta and, after them, at most the tags of the audio file. *)
Lemma run_with_context_returns id ctx w w' :
  run_with_context E id ctx w = Ok tt w' →
  ∃ c4 w7,
    options c4 = options ctx
    ∧ let sm := sync_meta (txt_ctx c4) in
      let pm := joinpath (dir_path (locations c4)) (sync_meta_name (sm_song_id sm)) in
      let pt := file_path (locations c4) "" "txt" in
      w' = add_event (OnFinish (mkDownloadResult id
                                  (Some (mkLocalFiles (loc_meta_path (locations c4)) sm))))
             (add_log INFO "All done!" w7)
      ∧ read_file (fs w7) pm = Some (mkContent (MetaJson sm) ∅)
      ∧ ∀ o, txt_options (options c4) = Some o →
             read_file (fs w7) pt
             = Some (mkContent (TxtData (txt c4) (encoding o) (newline o)) ∅).
Proof.
  rewrite run_with_context_steps.
  destruct (settle_paths E ctx w) as [ctx1 w1|] eqn:Hs; [|done].
  apply settle_paths_same in Hs as (_ & Ho1 & _).
  destruct (sync_slots_summary E id ctx1 w1) as (w4 & -> & _).
  destruct (download_slots_facts E ctx1 (fs w1)) as (_ & Ho4 & _).
  set (c4 := (download_slots E ctx1 (fs w1)).1.1) in *.
  destruct (write_up_cases E id c4 w4) as (w5 & H5 & ->).
  destruct (txt_ctx_same c4) as (Hl5 & _ & _).
  set (sm := sync_meta (txt_ctx c4)).
  set (pm := joinpath (dir_path (locations c4)) (sync_meta_name (sm_song_id sm))).
  set (pt := file_path (locations c4) "" "txt").
  set (w6 := set_fs (write_file pm (mkContent (MetaJson sm) ∅)) w5).
  assert (pt ≠ pm) as Hne.
  { intros Heq. apply (f_equal name) in Heq. simpl in Heq.
    by apply txt_name_not_sync_meta_name in Heq. }
  assert (read_file (fs w6) pm = Some (mkContent (MetaJson sm) ∅)) as Hm6
    by apply read_file_write_file_eq.
  assert (∀ o, txt_options (options c4) = Some o →
               read_file (fs w6) pt
               = Some (mkContent (TxtData (txt c4) (encoding o) (newline o)) ∅)) as Ht6.
  { intros o Ho. rewrite Ho in H5. subst w6. simpl.
    rewrite read_file_write_file_ne by done. subst w5. simpl.
    apply read_file_write_file_eq. }
  destruct (maybe_write_audio_tags_cases E (txt_ctx c4) w6)
    as [(e & -> & _)|[->|(m & t & Hm & Hsuf & ->)]]; [done|..]; intros [= <-].
  - exists c4, w6. split; [congruence|]. by split.
  - eexists c4, _. split; [congruence|]. split; [reflexivity|].
    set (q := file_path (locations (txt_ctx c4)) (fname m) "") in *.
    assert (q ≠ pm) as Hqm.
    { intros Heq. rewrite Heq in Hsuf. simpl in Hsuf.
      destruct (suffix_sync_meta_name (sm_song_id sm)) as [H1 H2].
      destruct Hsuf; congruence. }
    assert (q ≠ pt) as Hqt.
    { intros Heq. rewrite Heq in Hsuf. simpl in Hsuf.
      destruct (suffix_txt (filename_stem (locations c4))) as [H1 H2].
      destruct Hsuf; congruence. }
    simpl. split.
    + by rewrite read_file_write_file_ne.
    + intros o Ho. rewrite read_file_write_file_ne by done. by apply Ht6.
Qed.

(** X10. What a run reports is on disk.  When [run] returns and its last
    callback reports files, the metadata file of the reported directory
    holds the reported sync meta, so that loading it from the reported path
    gives the reported sync meta back when that path has the name of the
    song's metadata file; and when a txt is to be written, the txt file that
    the reported sync meta names is in that directory, in the encoding and
    with the line ends of the options. *)
Theorem reported_files_are_on_disk (info : DownloadInfo) (opts : Options) (w w' : World)
    (p : Path) (sm : SyncMeta) :
  run E info opts w = Ok tt w' →
  last (events w')
  = Some (OnFinish (mkDownloadResult (song_id info) (Some (mkLocalFiles p sm)))) →
  read_file (fs w') (parent p, sync_meta_name (sm_song_id sm))
  = Some (mkContent (MetaJson sm) ∅)
  ∧ (name p = sync_meta_name (sm_song_id sm) →
     ∀ id mt, _load_sync_meta p id mt w' = Ok sm w')
  ∧ (∀ o, txt_options opts = Some o →
          ∃ m t, sm_txt sm = Some m
                 ∧ read_file (fs w') (parent p, fname m)
                   = Some (mkContent (TxtData t (encoding o) (newline o)) ∅)).
Proof.
  intros Hrun Hlast.
  destruct (run_cases E info opts w)
    as [(w0 & Hw0 & He & _)|(d & ctx & w0 & _ & Hnew & _ & _ & Hrw)].
  { rewrite Hrun in Hw0. injection Hw0 as <-. rewrite He, last_two in Hlast. done. }
  rewrite Hrun in Hrw. symmetry in Hrw.
  destruct (Context_new_pure E d opts info w0) as (r & Hr & Hctx).
  rewrite Hnew in Hr. injection Hr as <-.
  destruct (Hctx ctx eq_refl) as (_ & Hopts & _).
  apply run_with_context_returns in Hrw as (c4 & w7 & Ho4 & -> & Hm & Ht).
  simpl in Hlast. rewrite last_snoc in Hlast. injection Hlast as <- <-.
  assert (read_file (fs w7)
            (parent (loc_meta_path (locations c4)),
             sync_meta_name (sm_song_id (sync_meta (txt_ctx c4))))
          = Some (mkContent (MetaJson (sync_meta (txt_ctx c4))) ∅)) as Hmeta by exact Hm.
  split; [exact Hmeta|]. split.
  - intros Hname id mt. unfold _load_sync_meta, bind, get_world, ret. simpl.
    destruct (loc_meta_path (locations c4)) as [dir n] eqn:Hp. simpl in *. subst n.
    unfold file_exists, try_from_file. rewrite Hmeta.
    by rewrite bool_decide_eq_true_2.
  - intros o Ho. rewrite <- Hopts, <- Ho4 in Ho. specialize (Ht o Ho).
    unfold txt_ctx. rewrite Ho. simpl. eexists _, _. split; [reflexivity|].
    simpl. exact Ht.
Qed.


End RunResults.

(** ** Making the context *)

Section ContextFacts.

Context (E : Collaborators).


End ContextFacts.

(** ** The actions of the song table *)

Section TableActions.

Context {DownloadStatus : Type}.
Context (PENDING : DownloadStatus) (can_be_downloaded : DownloadStatus → bool).
Context (ids_for_rows : list nat → list Z).
Context (is_pinned : @UsdbSong DownloadStatus → bool).

Abbreviation collect := (collect_downloads PENDING can_be_downloaded).

Lemma collect_app pre :
  ∀ rest acc t,
    collect (pre ++ rest) acc t
    = match collect pre acc t with
      | Ok b t1 => collect rest b t1
      | Raised e t1 => Raised e t1
      end.
Proof.
  induction pre as [|id0 pre IH]; intros rest acc t; simpl; [done|].
  destruct (songs t !! id0) as [song0|]; [|done].
  destruct (has_pinned_meta song0); [apply IH|].
  destruct (can_be_downloaded (status song0)); apply IH.
Qed.

(** What the loop of [_download] leaves of the table: the songs it
    appended, marked pending, one [SongChanged] for each, and nothing in the
    trash, among the deleted or in the pool. *)
Lemma collect_posted ids :
  ∀ acc t b t',
    collect ids acc t = Ok b t' →
    ∃ new,
      b = acc ++ new
      ∧ posted t' = posted t ++ map (λ s, SongChanged (us_song_id s)) new
      ∧ Forall (λ s, status s = PENDING) new
      ∧ trashed t' = trashed t ∧ deleted t' = deleted t ∧ threadpool t' = threadpool t.
Proof.
  induction ids as [|id0 ids IH]; intros acc t b t' Hrun; simpl in Hrun.
  - simplify_eq. exists []. by rewrite !app_nil_r.
  - destruct (songs t !! id0) as [song0|]; [|done].
    destruct (has_pinned_meta song0); [|destruct (can_be_downloaded (status song0))].
    + destruct (IH _ _ _ _ Hrun) as (new & ? & ? & ? & ? & ? & ?). by exists new.
    + destruct (IH _ _ _ _ Hrun) as (new & -> & Hp & Hs & ? & ? & ?).
      exists (set_status PENDING song0 :: new). rewrite <- app_assoc.
      split; [done|]. split; [|split; [by constructor|done]].
      rewrite Hp. simpl. by rewrite <- app_assoc.
    + destruct (IH _ _ _ _ Hrun) as (new & ? & ? & ? & ? & ? & ?). by exists new.
Qed.

(** What the loop does to the song under an id: nothing, or it marks it
    pending, a song that was selected, is not pinned and could be
    downloaded. *)
Lemma collect_evolution ids :
  ∀ acc t b t',
    collect ids acc t = Ok b t' →
    ∀ k, songs t' !! k = songs t !! k
         ∨ ∃ s, songs t !! k = Some s ∧ songs t' !! k = Some (set_status PENDING s)
                ∧ has_pinned_meta s = false ∧ can_be_downloaded (status s) = true
                ∧ k ∈ ids.
Proof.
  induction ids as [|id0 ids IH]; intros acc t b t' Hrun k; simpl in Hrun.
  - simplify_eq. by left.
  - destruct (songs t !! id0) as [song0|] eqn:H0; [|done].
    destruct (has_pinned_meta song0) eqn:Hpin;
      [|destruct (can_be_downloaded (status song0)) eqn:Hcan].
    + destruct (IH _ _ _ _ Hrun k) as [Heq|(s & ? & ? & ? & ? & ?)]; [by left|].
      right. exists s. repeat split; try done. by right.
    + destruct (decide (k = id0)) as [->|Hne].
      * right. exists song0. split; [done|].
        split; [|repeat split; try done; by left].
        destruct (IH _ _ _ _ Hrun id0) as [Heq|(s & Hs & Hs' & _)]; simpl in *.
        -- by rewrite Heq, lookup_insert_eq.
        -- rewrite lookup_insert_eq in Hs. injection Hs as <-. by rewrite Hs'.
      * destruct (IH _ _ _ _ Hrun k) as [Heq|(s & Hs & ? & ? & ? & ?)]; simpl in *.
        -- left. by rewrite Heq, lookup_insert_ne.
        -- right. rewrite lookup_insert_ne in Hs by done.
           exists s. repeat split; try done. by right.
    + destruct (IH _ _ _ _ Hrun k) as [Heq|(s & ? & ? & ? & ? & ?)]; [by left|].
      right. exists s. repeat split; try done. by right.
Qed.

Lemma collect_nothing ids :
  ∀ acc t,
    (∀ id, id ∈ ids →
           ∃ song, songs t !! id = Some song
                   ∧ (has_pinned_meta song = true
                      ∨ can_be_downloaded (status song) = false)) →
    ∃ t', collect ids acc t = Ok acc t'
          ∧ posted t' = posted t ∧ songs t' = songs t ∧ threadpool t' = threadpool t
          ∧ trashed t' = trashed t ∧ deleted t' = deleted t.
Proof.
  induction ids as [|id0 ids IH]; intros acc t Hall; simpl.
  - by exists t.
  - destruct (Hall id0) as (song0 & -> & Hwhy); [by left|].
    assert (∀ id, id ∈ ids →
              ∃ song, songs t !! id = Some song
                      ∧ (has_pinned_meta song = true
                         ∨ can_be_downloaded (status song) = false)) as Hrest
      by (intros id Hin; apply Hall; by right).
    destruct (has_pinned_meta song0) eqn:Hpin.
    + set (t1 := log_song _ _ _ t).
      destruct (IH acc t1 Hrest) as (t' & ? & ? & ? & ? & ? & ?). by exists t'.
    + destruct Hwhy as [?| ->]; [done|]. by apply IH.
Qed.

(** X13. When every selected song is pinned or cannot be downloaded, the
    download action returns without a request: no event is posted, no song
    changes and no worker is started. *)
Theorem download_of_nothing_requests_nothing (opts : Options) (rows : list nat)
    (t : Table) :
  (∀ id, id ∈ ids_for_rows rows →
         ∃ song, songs t !! id = Some song
                 ∧ (has_pinned_meta song = true
                    ∨ can_be_downloaded (status song) = false)) →
  ∃ t', _download PENDING can_be_downloaded ids_for_rows opts rows t = Ok tt t'
        ∧ posted t' = posted t ∧ songs t' = songs t ∧ threadpool t' = threadpool t.
Proof.
  intros Hall. destruct (collect_nothing _ [] t Hall) as (t' & Hrun & ? & ? & ? & _).
  exists t'. unfold _download. by rewrite Hrun.
Qed.

(** X14. The download action asserts that every selected song is found.
    At the first id that [UsdbSong.get] does not find it raises an
    [AssertionError]; the songs in front of it that it has collected stay
    marked pending, with their [SongChanged] posted, and no download is
    requested for them. *)
Theorem download_of_unknown_song_asserts (opts : Options) (rows : list nat) (t : Table)
    (pre post : list Z) (id : Z) :
  ids_for_rows rows = pre ++ id :: post →
  (∀ i, i ∈ pre → is_Some (songs t !! i)) →
  songs t !! id = None →
  ∃ batch t1,
    collect pre [] t = Ok batch t1
    ∧ _download PENDING can_be_downloaded ids_for_rows opts rows t
      = Raised AssertionError t1
    ∧ posted t1 = posted t ++ map (λ s, SongChanged (us_song_id s)) batch
    ∧ Forall (λ s, status s = PENDING) batch
    ∧ threadpool t1 = threadpool t.
Proof.
  intros Hids Hpre Hid.
  destruct (collect_downloads_returns PENDING can_be_downloaded pre [] t Hpre)
    as (batch & t1 & Hrun).
  exists batch, t1. split; [done|].
  destruct (collect_posted _ _ _ _ _ Hrun) as (new & Hb & Hp & Hs & _ & _ & Hpool).
  simpl in Hb. subst new. split; [|done].
  unfold _download. rewrite Hids, collect_app, Hrun. simpl.
  destruct (collect_evolution _ _ _ _ _ Hrun id) as [->|(s & Hs0 & _)];
    [by rewrite Hid|]. by rewrite Hid in Hs0.
Qed.

Lemma set_status_twice st (s : @UsdbSong DownloadStatus) :
  set_status st (set_status st s) = set_status st s.
Proof. done. Qed.

Lemma collect_stored ids :
  ∀ acc t b t',
    collect ids acc t = Ok b t' →
    ∀ song, song ∈ b → song ∈ acc ∨ ∃ k, k ∈ ids ∧ songs t' !! k = Some song.
Proof.
  induction ids as [|id0 ids IH]; intros acc t b t' Hrun song Hin; simpl in Hrun.
  - simplify_eq. by left.
  - destruct (songs t !! id0) as [song0|] eqn:H0; [|done].
    destruct (has_pinned_meta song0) eqn:Hpin;
      [|destruct (can_be_downloaded (status song0)) eqn:Hcan].
    + destruct (IH _ _ _ _ Hrun song Hin) as [?|(k & ? & ?)]; [by left|].
      right. exists k. split; [by right|done].
    + destruct (IH _ _ _ _ Hrun song Hin) as [Hacc|(k & ? & ?)].
      * apply elem_of_app in Hacc as [?|Hnew]; [by left|].
        apply list_elem_of_singleton in Hnew as ->.
        right. exists id0. split; [by left|].
        destruct (collect_evolution _ _ _ _ _ Hrun id0) as [Heq|(s & Hs & Hs' & _)];
          simpl in *.
        -- by rewrite Heq, lookup_insert_eq.
        -- rewrite lookup_insert_eq in Hs. injection Hs as <-. by rewrite Hs'.
      * right. exists k. split; [by right|done].
    + destruct (IH _ _ _ _ Hrun song Hin) as [?|(k & ? & ?)]; [by left|].
      right. exists k. split; [by right|done].
Qed.

(** X15. What the loop of the download action collects is what it marks.
    Every song of the batch is pending and is the song that the table holds
    under one of the selected ids; one [SongChanged] is posted for each song
    of the batch, in the order of the batch; and a song that is not selected
    is not touched. *)
Theorem download_marks_what_it_collects (ids : list Z) (t t' : Table)
    (batch : list UsdbSong) :
  collect ids [] t = Ok batch t' →
  posted t' = posted t ++ map (λ s, SongChanged (us_song_id s)) batch
  ∧ Forall (λ s, status s = PENDING) batch
  ∧ (∀ song, song ∈ batch → ∃ k, k ∈ ids ∧ songs t' !! k = Some song)
  ∧ (∀ k, k ∉ ids → songs t' !! k = songs t !! k).
Proof.
  intros Hrun.
  destruct (collect_posted _ _ _ _ _ Hrun) as (new & Hb & Hp & Hs & _).
  simpl in Hb. subst new. split; [done|]. split; [done|]. split.
  - intros song Hin.
    destruct (collect_stored _ _ _ _ _ Hrun song Hin) as [?%elem_of_nil|?]; done.
  - intros k Hk.
    destruct (collect_evolution _ _ _ _ _ Hrun k) as [?|(s & _ & _ & _ & _ & ?)]; done.
Qed.

Lemma has_pinned_meta_set_status st (s : @UsdbSong DownloadStatus) :
  has_pinned_meta (set_status st s) = has_pinned_meta s.
Proof. done. Qed.

(** After the loop, no selected song can be collected again, as long as a
    pending song cannot be downloaded. *)
Lemma collect_settles ids :
  can_be_downloaded PENDING = false →
  ∀ acc t b t',
    collect ids acc t = Ok b t' →
    ∀ k, k ∈ ids →
         ∃ s, songs t' !! k = Some s
              ∧ (has_pinned_meta s = true ∨ can_be_downloaded (status s) = false).
Proof.
  intros Hpending.
  induction ids as [|id0 ids IH]; intros acc t b t' Hrun k Hk; simpl in Hrun.
  - by apply elem_of_nil in Hk.
  - destruct (songs t !! id0) as [song0|] eqn:H0; [|done].
    apply elem_of_cons in Hk.
    destruct (has_pinned_meta song0) eqn:Hpin;
      [|destruct (can_be_downloaded (status song0)) eqn:Hcan].
    + destruct (decide (k ∈ ids)) as [Hin|Hnin]; [by eapply IH|].
      destruct Hk as [->|?]; [|done].
      destruct (collect_evolution _ _ _ _ _ Hrun id0) as [Heq|(s & Hs & Hs' & _)];
        simpl in *.
      * exists song0. split; [by rewrite Heq|by left].
      * rewrite H0 in Hs. injection Hs as <-.
        eexists. split; [exact Hs'|]. left. by rewrite has_pinned_meta_set_status.
    + destruct (decide (k ∈ ids)) as [Hin|Hnin]; [by eapply IH|].
      destruct Hk as [->|?]; [|done].
      destruct (collect_evolution _ _ _ _ _ Hrun id0) as [Heq|(s & Hs & Hs' & _)];
        simpl in *.
      * rewrite lookup_insert_eq in Heq. eexists. split; [exact Heq|]. by right.
      * eexists. split; [exact Hs'|]. by right.
    + destruct (decide (k ∈ ids)) as [Hin|Hnin]; [by eapply IH|].
      destruct Hk as [->|?]; [|done].
      destruct (collect_evolution _ _ _ _ _ Hrun id0)
        as [Heq|(s & Hs & Hs' & _ & Hcan' & _)].
      * exists song0. split; [by rewrite Heq|by right].
      * rewrite H0 in Hs. injection Hs as <-. congruence.
Qed.

(** X16. A selection is requested once.  Where a pending song cannot be
    downloaded, the download action, run again on the same rows of a table
    that holds the songs as the first run left them, collects nothing: it
    returns, posts no event and starts no worker. *)
Theorem download_again_requests_nothing (opts : Options) (rows : list nat)
    (t t1 t2 : Table) (batch : list UsdbSong) :
  can_be_downloaded PENDING = false →
  collect (ids_for_rows rows) [] t = Ok batch t1 →
  songs t2 = songs t1 →
  ∃ t3, _download PENDING can_be_downloaded ids_for_rows opts rows t2 = Ok tt t3
        ∧ posted t3 = posted t2 ∧ songs t3 = songs t2 ∧ threadpool t3 = threadpool t2.
Proof.
  intros Hpending Hrun Hsongs.
  destruct (collect_nothing (ids_for_rows rows) [] t2) as (t3 & Hrun2 & ? & ? & ? & _).
  { intros id Hid. rewrite Hsongs. by eapply collect_settles. }
  exists t3. unfold _download. by rewrite Hrun2.
Qed.

Lemma delete_songs_fold (l : list UsdbSong) :
  ∀ t,
    let t' := foldl (λ t song, delete_song is_pinned song t) t l in
    posted t' = posted t ∧ songs t' = songs t ∧ threadpool t' = threadpool t
    ∧ deleted t'
      = deleted t
        ++ omap (λ song, us_sync_meta song ≫= λ _,
                   if is_pinned song then None else Some (us_song_id song)) l
    ∧ length (table_log t')
      = length (table_log t) + length (filter (λ song, is_Some (us_sync_meta song)) l).
Proof.
  induction l as [|song l IH]; intros t; simpl.
  - rewrite app_nil_r. repeat split; first [done|simpl; lia].
  - destruct (IH (delete_song is_pinned song t)) as (Hp & Hs & Hpool & Hd & Hl).
    rewrite Hp, Hs, Hpool, Hd, Hl. unfold delete_song.
    rewrite filter_cons.
    destruct (us_sync_meta song) as [m|] eqn:Hm; simpl.
    + destruct (decide (is_Some (Some m))) as [_|[]]; [|by eexists].
      destruct (is_pinned song); simpl; rewrite ?length_app; simpl;
        repeat split; try done; try lia.
      by rewrite <- app_assoc.
    + destruct (decide (is_Some (@None SongSyncMeta))) as [[? [=]]|_].
      repeat split; try done.
Qed.

(** X17. Deleting the selection posts no event: the [SongChanged] that the
    action makes for a trashed song is never posted.  It changes no song of
    the table and starts no worker; the sync metas it deletes are those of
    the selected songs that have one and are not pinned, and it logs one
    line for every selected song that has a sync meta. *)
Theorem delete_posts_no_event (rows : list nat) (t : Table) :
  let t' := delete_selected_songs ids_for_rows is_pinned rows t in
  let selected := selected_songs ids_for_rows rows t in
  posted t' = posted t ∧ songs t' = songs t ∧ threadpool t' = threadpool t
  ∧ deleted t'
    = deleted t
      ++ omap (λ song, us_sync_meta song ≫= λ _,
                 if is_pinned song then None else Some (us_song_id song)) selected
  ∧ length (table_log t')
    = length (table_log t)
      + length (filter (λ song, is_Some (us_sync_meta song)) selected).
Proof. intros t' selected. apply delete_songs_fold. Qed.

End TableActions.

(** ** Pinning the selection *)

Section PinFacts.

Context {DownloadStatus : Type}.
Context (PENDING : DownloadStatus) (can_be_downloaded : DownloadStatus → bool).
Context (ids_for_rows : list nat → list Z).
Context (is_pinned : @UsdbSong DownloadStatus → bool).

(** [UsdbSong.is_pinned] reads the pinned flag of the sync meta. *)
Hypothesis is_pinned_reads_flag :
  ∀ song m, us_sync_meta song = Some m → is_pinned song = pinned m.

Lemma pin_song_cases pin (st : @Table DownloadStatus * list DbOp) id0 :
  pin_song pin st id0 = st
  ∨ ∃ s m, songs st.1 !! id0 = Some s ∧ us_sync_meta s = Some m ∧ pinned m ≠ pin
           ∧ pin_song pin st id0
             = (store id0 (set_pinned pin s) st.1, st.2 ++ persisted [us_song_id s]).
Proof.
  unfold pin_song. destruct (songs st.1 !! id0) as [s|] eqn:Hs; [|by left].
  destruct (us_sync_meta s) as [m|] eqn:Hm; [|by left].
  case_bool_decide; [by left|]. right. by exists s, m.
Qed.

Lemma pin_fold pin ids :
  ∀ st : @Table DownloadStatus * list DbOp,
    let r := foldl (pin_song pin) st ids in
    (posted r.1 = posted st.1 ∧ trashed r.1 = trashed st.1 ∧ deleted r.1 = deleted st.1
     ∧ table_log r.1 = table_log st.1 ∧ threadpool r.1 = threadpool st.1)
    ∧ (∀ k, songs r.1 !! k = songs st.1 !! k
            ∨ ∃ s m, songs st.1 !! k = Some s ∧ us_sync_meta s = Some m ∧ pinned m ≠ pin
                     ∧ songs r.1 !! k = Some (set_pinned pin s) ∧ k ∈ ids)
    ∧ flagged pin ids r.1
    ∧ ∃ changed,
        r.2 = st.2 ++ persisted changed
        ∧ ∀ id, id ∈ changed →
                ∃ k s m, k ∈ ids ∧ songs st.1 !! k = Some s ∧ us_song_id s = id
                         ∧ us_sync_meta s = Some m ∧ pinned m ≠ pin.
Proof.
  induction ids as [|id0 ids IH]; intros st; simpl.
  - split; [done|]. split; [by left|]. split; [by intros k ? ? ?%elem_of_nil|].
    exists []. split; [by rewrite app_nil_r|]. by intros id ?%elem_of_nil.
  - destruct (IH (pin_song pin st id0))
      as (Hsame & Hev & Hflag & (changed & Hops & Hch)).
    set (r := foldl (pin_song pin) (pin_song pin st id0) ids) in *.
    destruct (pin_song_cases pin st id0) as [Heq|(s & m & Hs & Hm & Hne & Heq)];
      rewrite Heq in Hsame, Hev, Hops, Hch.
    + split; [done|]. split; [|split].
      * intros k. destruct (Hev k) as [?|(s & m & ? & ? & ? & ? & ?)]; [by left|].
        right. exists s, m. repeat split; try done. by right.
      * intros k song m [->|Hin]%elem_of_cons Hk Hm; [|by eapply Hflag].
        destruct (Hev id0) as [Hsame0|(s & m' & _ & _ & _ & Hr & _)].
        -- rewrite Hsame0 in Hk. unfold pin_song in Heq. rewrite Hk, Hm in Heq.
           case_bool_decide; [done|].
           apply (f_equal (λ p, length p.2)) in Heq. simpl in Heq.
           rewrite length_app in Heq. simpl in Heq. lia.
        -- rewrite Hk in Hr. injection Hr as ->. simpl in Hm.
           destruct (us_sync_meta s); simpl in Hm; [|done]. by injection Hm as <-.
      * exists changed. split; [done|]. intros id Hid.
        destruct (Hch id Hid) as (k & s & m & ? & ? & ? & ? & ?).
        exists k, s, m. repeat split; try done. by right.
    + simpl in Hsame, Hev, Hops, Hch. split; [done|]. split; [|split].
      * intros k. destruct (decide (k = id0)) as [->|Hk].
        -- right. exists s, m. repeat split; try done; [|by left].
           destruct (Hev id0) as [Hsame0|(s' & m' & Hs' & Hm' & Hne' & _)].
           ++ by rewrite Hsame0, lookup_insert_eq.
           ++ rewrite lookup_insert_eq in Hs'. injection Hs' as <-.
              simpl in Hm'. rewrite Hm in Hm'. simpl in Hm'. by injection Hm' as <-.
        -- destruct (Hev k) as [Hsame0|(s' & m' & Hs' & ? & ? & ? & ?)].
           ++ left. by rewrite Hsame0, lookup_insert_ne.
           ++ rewrite lookup_insert_ne in Hs' by done.
              right. exists s', m'. repeat split; try done. by right.
      * intros k song m' [->|Hin]%elem_of_cons Hk Hm'; [|by eapply Hflag].
        destruct (Hev id0) as [Hsame0|(s' & m'' & _ & _ & _ & Hr & _)].
        -- rewrite Hsame0, lookup_insert_eq in Hk. injection Hk as <-.
           simpl in Hm'. rewrite Hm in Hm'. simpl in Hm'. by injection Hm' as <-.
        -- rewrite Hk in Hr. injection Hr as ->. simpl in Hm'.
           destruct (us_sync_meta s'); simpl in Hm'; [|done]. by injection Hm' as <-.
      * exists (us_song_id s :: changed). split; [by rewrite Hops, <- app_assoc|].
        intros id [->|Hid]%elem_of_cons.
        -- exists id0, s, m. repeat split; try done. by left.
        -- destruct (Hch id Hid) as (k & s' & m' & Hk & Hs' & ? & Hm' & Hne').
           destruct (decide (k = id0)) as [->|Hk0].
           ++ rewrite lookup_insert_eq in Hs'. injection Hs' as <-.
              simpl in Hm'. rewrite Hm in Hm'. simpl in Hm'. by injection Hm' as <-.
           ++ rewrite lookup_insert_ne in Hs' by done.
              exists k, s', m'. repeat split; try done. by right.
Qed.

Lemma pin_fold_noop pin ids :
  ∀ st : @Table DownloadStatus * list DbOp,
    flagged pin ids st.1 → foldl (pin_song pin) st ids = st.
Proof.
  induction ids as [|id0 ids IH]; intros st Hflag; simpl; [done|].
  assert (pin_song pin st id0 = st) as ->.
  { unfold pin_song. destruct (songs st.1 !! id0) as [s|] eqn:Hs; [|done].
    destruct (us_sync_meta s) as [m|] eqn:Hm; [|done].
    rewrite bool_decide_eq_true_2; [done|]. eapply Hflag; [by left|done..]. }
  apply IH. intros k song m Hk. apply Hflag. by right.
Qed.


(** X19. Pinning is idempotent: once the selection is pinned (or unpinned),
    doing it again changes nothing and writes nothing. *)
Theorem set_pin_again_writes_nothing (pin : bool) (rows : list nat)
    (t : @Table DownloadStatus) :
  let r := set_pin_selected_songs ids_for_rows pin rows t in
  set_pin_selected_songs ids_for_rows pin rows r.1 = (r.1, []).
Proof.
  intros r. unfold set_pin_selected_songs. apply (pin_fold_noop pin _ (r.1, [])).
  simpl. apply (pin_fold pin (ids_for_rows rows) (t, [])).
Qed.

Lemma omap_none {A B} (f : A → option B) (l : list A) :
  (∀ x, x ∈ l → f x = None) → omap f l = [].
Proof.
  induction l as [|x l IH]; intros Hall; simpl; [done|].
  rewrite (Hall x) by (by left). apply IH. intros y Hy. apply Hall. by right.
Qed.

(** X20. A pinned selection is safe from both actions.  Once the selection
    is pinned, deleting it sends no folder to the trash and deletes no sync
    meta, and the download action collects no song that has a sync meta. *)
Theorem pinned_selection_is_left_alone (rows : list nat) (t : @Table DownloadStatus) :
  let t' := (set_pin_selected_songs ids_for_rows true rows t).1 in
  trashed (delete_selected_songs ids_for_rows is_pinned rows t') = trashed t
  ∧ deleted (delete_selected_songs ids_for_rows is_pinned rows t') = deleted t
  ∧ ∀ batch t'',
      collect_downloads PENDING can_be_downloaded (ids_for_rows rows) [] t' = Ok batch t'' →
      ∀ song, song ∈ batch → us_sync_meta song = None.
Proof.
  intros t'.
  destruct (pin_fold true (ids_for_rows rows) (t, []))
    as ((_ & Htr & Hdel & _) & _ & Hflag & _).
  fold (set_pin_selected_songs ids_for_rows true rows t) in Htr, Hdel, Hflag.
  fold t' in Htr, Hdel, Hflag. simpl in Htr, Hdel.
  assert (∀ song, song ∈ selected_songs ids_for_rows rows t' →
                  ∀ m, us_sync_meta song = Some m → is_pinned song = true) as Hsel.
  { intros song Hin m Hm. unfold selected_songs in Hin.
    apply list_elem_of_omap in Hin as (k & Hk & Hsong).
    rewrite (is_pinned_reads_flag song m Hm). by eapply Hflag. }
  split; [|split].
  - unfold delete_selected_songs.
    rewrite (delete_songs_trashed is_pinned is_pinned_reads_flag).
    rewrite omap_none; [by rewrite app_nil_r|].
    intros song Hin. destruct (us_sync_meta song) as [m|] eqn:Hm; simpl; [|done].
    specialize (Hsel song Hin m Hm).
    rewrite (is_pinned_reads_flag song m Hm) in Hsel. by rewrite Hsel.
  - destruct (delete_songs_fold is_pinned (selected_songs ids_for_rows rows t') t')
      as (_ & _ & _ & Hd & _).
    unfold delete_selected_songs. rewrite Hd.
    rewrite omap_none; [by rewrite app_nil_r|].
    intros song Hin. destruct (us_sync_meta song) as [m|] eqn:Hm; simpl; [|done].
    by rewrite (Hsel song Hin m Hm).
  - intros batch t'' Hrun song Hin.
    destruct (collect_downloads_batch PENDING can_be_downloaded _ _ _ _ _ Hrun)
      as (Hnp & _ & _).
    destruct (Hnp song Hin) as [?%elem_of_nil|Hnot]; [done|].
    destruct (collect_stored PENDING can_be_downloaded _ _ _ _ _ Hrun song Hin)
      as [?%elem_of_nil|(k & Hk & Hsong)]; [done|].
    destruct (us_sync_meta song) as [m|] eqn:Hm; [|done]. exfalso.
    destruct (collect_evolution PENDING can_be_downloaded _ _ _ _ _ Hrun k)
      as [Heq|(s & Hs & Hs' & _)].
    + rewrite Heq in Hsong. pose proof (Hflag k song m Hk Hsong Hm) as Hp.
      unfold has_pinned_meta in Hnot. rewrite Hm in Hnot. congruence.
    + rewrite Hsong in Hs'. injection Hs' as ->. simpl in Hm.
      pose proof (Hflag k s m Hk Hs Hm) as Hp.
      unfold has_pinned_meta in Hnot. simpl in Hnot. rewrite Hm in Hnot. congruence.
Qed.

End PinFacts.

(** ** Sorting and filtering *)

Section SearchFacts.

Context {SongOrder Criteria : Type}.
Context (search_usdb_songs : @SearchBuilder SongOrder Criteria → list Z).
Context (song_order : nat → option SongOrder).

Lemma filter_changes_fold (changes : list (@SearchBuilder SongOrder Criteria)) :
  ∀ c : @Controller SongOrder Criteria,
    let c' := foldl (λ c search, _on_tree_filter_changed search c) c changes in
    order (_search c') = order (_search c)
    ∧ descending (_search c') = descending (_search c)
    ∧ model_songs c' = model_songs c
    ∧ ∀ search, last changes = Some search →
                _search_timer c' = true ∧ criteria (_search c') = criteria search.
Proof.
  induction changes as [|search changes IH] using rev_ind; intros c c'.
  - subst c'. simpl. by repeat split.
  - subst c'. rewrite foldl_snoc.
    destruct (IH c) as (Ho & Hd & Hm & _). cbv zeta in *.
    simpl. split; [done|]. split; [done|]. split; [done|].
    intros s Hlast. rewrite last_snoc in Hlast. by injection Hlast as <-.
Qed.

(** X21. A change of the tree filter never changes the sort order, and it
    does not search: after any number of filter changes the search has the
    order and the direction it had, the table shows the songs it showed, and
    the timer is running; when the timer fires, the table shows what the
    database finds for the criteria of the last change in that order, and
    the timer is stopped. *)
Theorem filter_changes_keep_the_sort_order (changes : list SearchBuilder)
    (c : Controller) :
  let c' := foldl (λ c search, _on_tree_filter_changed search c) c changes in
  order (_search c') = order (_search c)
  ∧ descending (_search c') = descending (_search c)
  ∧ model_songs c' = model_songs c
  ∧ ∀ search,
      last changes = Some search →
      let found := mkSearchBuilder (order (_search c)) (descending (_search c))
                     (criteria search) in
      _search_timer c' = true
      ∧ on_timeout search_usdb_songs c'
        = mkController found false (search_usdb_songs found).
Proof.
  intros c'. destruct (filter_changes_fold changes c) as (Ho & Hd & Hm & Hlast).
  fold c' in Ho, Hd, Hm, Hlast.
  split; [done|]. split; [done|]. split; [done|].
  intros search Hl found. destruct (Hlast search Hl) as [Ht Hc].
  split; [done|]. unfold on_timeout, search_songs. rewrite Ht.
  assert (_search c' = found) as ->; [|done].
  subst found. destruct (_search c'). simpl in *. by subst.
Qed.

(** X22. A change of the sort order on a column that has no song order is
    ignored.  On any other column it takes effect at once: the search gets
    the order of the column and the direction of the header and keeps its
    criteria, the table shows what the database finds for it, and the timer
    is stopped, so that a search that was pending is not run again when the
    timer fires; filter changes that follow keep the new order. *)
Theorem sort_change_searches_at_once (section : nat) (o : SortOrder) (c : Controller) :
  let c' := _on_sort_order_changed search_usdb_songs song_order section o c in
  (song_order section = None → c' = c)
  ∧ ∀ search_order,
      song_order section = Some search_order →
      order (_search c') = search_order
      ∧ (descending (_search c') = true ↔ o = DescendingOrder)
      ∧ criteria (_search c') = criteria (_search c)
      ∧ model_songs c' = search_usdb_songs (_search c')
      ∧ on_timeout search_usdb_songs c' = c'
      ∧ ∀ changes,
          order (_search (foldl (λ c search, _on_tree_filter_changed search c) c' changes))
          = search_order.
Proof.
  intros c'. subst c'. unfold _on_sort_order_changed.
  split; [by intros ->|]. intros so ->. simpl.
  split; [done|]. split; [by destruct o|]. split; [done|]. split; [done|].
  split; [done|]. intros changes.
  by destruct (filter_changes_fold changes
                 (search_songs search_usdb_songs
                    (mkController
                       (mkSearchBuilder so
                          (match o with DescendingOrder => true | AscendingOrder => false end)
                          (criteria (_search c)))
                       (_search_timer c) (model_songs c)))) as (-> & _).
Qed.

End SearchFacts.

(** ** Renaming and reuse *)

Section RenameFacts.

Context (E : Collaborators).

Lemma read_file_move_file_other (old new p : list string * string) (c : Content)
    (f : gmap (list string) (gmap string Content)) :
  p ≠ old → p ≠ new → read_file (move_file old new c f) p = read_file f p.
Proof.
  intros Hold Hnew. unfold move_file. rewrite read_file_write_file_ne by done.
  unfold read_file. destruct (decide (parent p = parent old)) as [Heq|Hne].
  - rewrite Heq, lookup_insert_eq. simpl.
    assert (name p ≠ name old) as Hn.
    { intros Hn. apply Hold. destruct p, old. simpl in *. congruence. }
    rewrite lookup_delete_ne by done. by destruct (f !! parent old).
  - by rewrite lookup_insert_ne.
Qed.

Lemma file_path_in_dir l file : file_path l file "" = (dir_path l, name (file_path l file "")).
Proof. done. Qed.

(** Fixing the path of another descriptor leaves a file of the directory
    where it is. *)
Lemma fix_slot_other l slot w (n : string) (c : Content) :
  read_file (fs w) (dir_path l, n) = Some c →
  (∀ m2, slot = Some m2 → resource_name l m2 ≠ n) →
  ∃ slot' w', fix_slot E l slot w = Ok slot' w'
              ∧ read_file (fs w') (dir_path l, n) = Some c
              ∧ calls w' = calls w.
Proof.
  intros Hread Hother. destruct slot as [m2|]; simpl; [|by eexists _, w].
  unfold bind, ret.
  set (old_path := file_path l (fname m2) "").
  set (new_path := file_path l (filename_stem l +:+ resource_file_ending E (fname m2)) "").
  destruct (fix_resource_path_spec E l m2 w) as [Hskip Hmove].
  fold old_path new_path in Hskip, Hmove.
  assert ((dir_path l, n) ≠ old_path) as Hold.
  { intros Heq. apply (Hother m2 eq_refl). unfold resource_name. fold old_path.
    by rewrite <- Heq. }
  destruct (decide (old_path = new_path)) as [Heq|Hne];
    [rewrite Hskip by (by left); by eexists _, w|].
  destruct (file_exists (fs w) new_path) eqn:Hnew;
    [rewrite Hskip by (right; by left); by eexists _, w|].
  destruct (file_exists (fs w) old_path) eqn:Hex;
    [|rewrite Hskip by (right; by right); by eexists _, w].
  destruct (Hmove Hne eq_refl eq_refl) as (c0 & Hc0 & ->).
  eexists _, _. split; [reflexivity|]. split; [|done]. simpl.
  rewrite read_file_move_file_other; [done..|].
  intros Heq. unfold file_exists in Hnew. apply bool_decide_eq_false in Hnew.
  apply Hnew. rewrite <- Heq, Hread. by eexists.
Qed.

(** Fixing the path of a descriptor whose file is in the directory keeps
    the resource and leaves the file under the name the descriptor then
    has. *)
Lemma fix_slot_self l m w (c : Content) :
  str_truthy (fname m) = true →
  read_file (fs w) (dir_path l, fname m) = Some c →
  ∃ m' w', fix_slot E l (Some m) w = Ok (Some m') w'
           ∧ resource m' = resource m
           ∧ (fname m' = fname m ∨ fname m' = fitting_name E l m)
           ∧ read_file (fs w') (dir_path l, fname m') = Some c
           ∧ calls w' = calls w.
Proof.
  intros Htruthy Hread. simpl. unfold bind, ret.
  set (old_path := file_path l (fname m) "").
  set (new_path := file_path l (filename_stem l +:+ resource_file_ending E (fname m)) "").
  destruct (fix_resource_path_spec E l m w) as [Hskip Hmove].
  fold old_path new_path in Hskip, Hmove.
  assert (old_path = (dir_path l, fname m)) as Hold.
  { subst old_path. unfold file_path. by rewrite Htruthy. }
  destruct (decide (old_path = new_path)) as [Heq|Hne];
    [rewrite Hskip by (by left); eexists m, w; repeat split; try done; by left|].
  destruct (file_exists (fs w) new_path) eqn:Hnew;
    [rewrite Hskip by (right; by left); eexists m, w; repeat split; try done; by left|].
  assert (file_exists (fs w) old_path = true) as Hex.
  { unfold file_exists. rewrite Hold, Hread. by apply bool_decide_eq_true_2. }
  destruct (Hmove Hne eq_refl Hex) as (c0 & Hc0 & ->).
  rewrite Hold, Hread in Hc0. injection Hc0 as <-.
  eexists _, _. split; [reflexivity|]. simpl. split; [done|]. split; [by right|].
  split; [|done]. unfold move_file. apply read_file_write_file_eq.
Qed.

(** X23. With every option off, a run whose directory has the fitting name
    makes the directory, writes the sync meta it was given into the metadata
    file, reports it, and does nothing else: it calls no download primitive
    and writes no txt, no media and no tags. *)
Theorem run_with_every_option_off (id : SongId) (ctx : Context) (w : World) :
  txt_options (options ctx) = None → audio_options (options ctx) = None →
  video_options (options ctx) = None → cover (options ctx) = None →
  background_options (options ctx) = None →
  is_name_maybe_with_suffix E (dir_name (dir_path (locations ctx)))
    (filename_stem (locations ctx)) = true →
  run_with_context E id ctx w
  = Ok tt
      (add_event
         (OnFinish (mkDownloadResult id
                      (Some (mkLocalFiles (loc_meta_path (locations ctx)) (sync_meta ctx)))))
         (add_log INFO "All done!"
            (set_fs (write_file
                       (joinpath (dir_path (locations ctx))
                          (sync_meta_name (sm_song_id (sync_meta ctx))))
                       (mkContent (MetaJson (sync_meta ctx)) ∅))
               (set_fs (mkdir (dir_path (locations ctx))) w)))).
Proof.
  intros Ht Ha Hv Hc Hb Hname. unfold run_with_context.
  unfold bind at 1. unfold modify at 1. unfold bind at 1.
  unfold ensure_correct_paths. rewrite Hname. unfold ret at 1. cbv zeta. cbn [fst snd].
  rewrite set_same_paths.
  unfold bind at 1. unfold _maybe_download_audio. rewrite Ha. unfold ret at 1.
  unfold bind at 1. unfold _maybe_download_video. rewrite Hv. unfold ret at 1.
  unfold bind at 1. unfold _maybe_download_cover. rewrite Hc. unfold ret at 1.
  unfold bind at 1. unfold _maybe_download_background. rewrite Hb. unfold ret at 1.
  unfold bind at 1. unfold _maybe_write_txt. rewrite Ht. unfold ret at 1.
  unfold _maybe_write_audio_tags. rewrite Ha. done.
Qed.

(** X24. Fixing the paths keeps a synced audio file synced.  When the
    directory is renamed, the recorded audio file is in it, and no other
    descriptor names that file or the name that fits it, the audio
    descriptor that comes out has the same resource and names a file of the
    new directory with the same content; so the audio slot, when that
    resource is its first candidate, reuses the file and calls no download
    primitive. *)
Theorem renamed_audio_stays_synced (l : Locations) (sm : SyncMeta) (w : World)
    (files : gmap string Content) (m : FileMeta) (c : Content) :
  let old := dir_path l in
  let stem := filename_stem l in
  let new := next_unique_directory E (fs w) (dir_with_name old stem) in
  is_name_maybe_with_suffix E (dir_name old) stem = false →
  fs w !! old = Some files →
  sm_audio sm = Some m → str_truthy (fname m) = true → files !! fname m = Some c →
  (∀ m2, sm_txt sm = Some m2 ∨ sm_video sm = Some m2 ∨ sm_cover sm = Some m2
         ∨ sm_background sm = Some m2 →
         resource_name l m2 ≠ fname m ∧ resource_name l m2 ≠ fitting_name E l m) →
  ∃ l' sm' w' m',
    ensure_correct_paths E l sm w = Ok (l', sm') w'
    ∧ dir_path l' = new
    ∧ synced_audio sm' new (fs w') = Some m'
    ∧ resource m' = resource m
    ∧ read_file (fs w') (new, fname m') = Some c
    ∧ ∀ ctx,
        locations ctx = l' → sync_meta ctx = sm' →
        is_Some (audio_options (options ctx)) →
        head (yields (all_audio_resources ctx)) = Some (resource m) →
        ∃ w'', _maybe_download_audio E ctx w'
               = Ok (set_headers (set_mp3 (fname m')) ctx) w''
               ∧ calls w'' = calls w' ∧ fs w'' = fs w'.
Proof.
  intros old stem new Hname Hold Hm Htruthy Hc Hothers.
  unfold ensure_correct_paths. fold old stem. rewrite Hname.
  unfold bind at 1. unfold _fix_meta_path, bind at 1. unfold get_world, bind at 1.
  fold old stem new. unfold rename_dir, bind, get_world, modify. rewrite Hold.
  set (w1 := set_fs (move_dir old new files) w).
  set (l1 := mkLocations (joinpath new (name (loc_meta_path l))) stem).
  unfold ret at 1.
  assert (read_file (fs w1) (dir_path l1, fname m) = Some c) as H1.
  { simpl. unfold read_file, move_dir. simpl. by rewrite lookup_insert_eq. }
  assert (∀ m2, resource_name l1 m2 = resource_name l m2) as Hrn by done.
  assert (fitting_name E l1 m = fitting_name E l m) as Hfn by done.
  unfold _fix_resource_paths. unfold bind at 1.
  destruct (fix_slot_other l1 (sm_txt sm) w1 (fname m) c H1) as (t' & w2 & -> & H2 & Hc2).
  { intros m2 H. rewrite Hrn. apply Hothers. by left. }
  cbv beta iota. unfold bind at 1. rewrite Hm.
  destruct (fix_slot_self l1 m w2 c Htruthy H2) as (m' & w3 & -> & Hres & Hfname & H3 & Hc3).
  cbv beta iota. unfold bind at 1.
  assert (∀ m2, sm_video sm = Some m2 ∨ sm_cover sm = Some m2 ∨ sm_background sm = Some m2 →
                resource_name l1 m2 ≠ fname m') as Hrest.
  { intros m2 H. rewrite Hrn.
    destruct (Hothers m2 (or_intror H)) as [Ha Hb].
    destruct Hfname as [-> | ->]; [done|]. by rewrite Hfn. }
  destruct (fix_slot_other l1 (sm_video sm) w3 (fname m') c H3) as (v' & w4 & -> & H4 & Hc4).
  { intros m2 H. apply Hrest. by left. }
  cbv beta iota. unfold bind at 1.
  destruct (fix_slot_other l1 (sm_cover sm) w4 (fname m') c H4) as (c' & w5 & -> & H5 & Hc5).
  { intros m2 H. apply Hrest. right. by left. }
  cbv beta iota. unfold bind at 1.
  destruct (fix_slot_other l1 (sm_background sm) w5 (fname m') c H5)
    as (b' & w6 & -> & H6 & Hc6).
  { intros m2 H. apply Hrest. right. by right. }
  cbv beta iota.
  unfold bind, ret.
  eexists l1, _, w6, m'. split; [reflexivity|]. split; [done|].
  assert (synced_audio
            (mkSyncMeta (sm_song_id sm) (sm_meta_tags sm) (sm_pinned sm) t' (Some m') v' c' b')
            new (fs w6) = Some m') as Hsynced.
  { unfold synced_audio, synced. simpl. unfold file_exists.
    change (joinpath new (fname m')) with (dir_path l1, fname m').
    rewrite H6. by rewrite bool_decide_eq_true_2. }
  split; [exact Hsynced|]. split; [done|]. split; [exact H6|].
  intros ctx Hl Hsm [o Ho] Hhead.
  destruct (audio_plan_spec E ctx w6) as (w'' & Hrun & Hcalls & _ & Hfs).
  assert (audio_plan E ctx (fs w6) = ([], Reused m')) as Hplan.
  { unfold audio_plan. rewrite Ho, Hl, Hsm.
    change (dir_path l1) with new. rewrite Hsynced.
    destruct (yields (all_audio_resources ctx)) as [|r rest]; [done|].
    injection Hhead as ->. simpl. unfold unchanged.
    by rewrite bool_decide_eq_true_2. }
  rewrite Hplan in Hrun, Hcalls, Hfs. simpl in *.
  exists w''. split; [exact Hrun|]. split; [by rewrite Hcalls, app_nil_r|done].
Qed.

End RenameFacts.

(** ** The further properties, on the worked example *)

(** The cover tag and the background tag that the sync meta does not have
    are fetched and left out of the sync meta. *)
Lemma changed_image_tag_is_not_recorded_witness :
  (∃ ctx' w',
      _maybe_download_cover Example.E_cover Example.ctx_cover Example.world_cover
      = Ok ctx' w'
      ∧ calls w'
        = calls Example.world_cover
          ++ [CallImage "https://usdb/cover/1.jpg" COVER
                (file_path (locations Example.ctx_cover) "" "")]
      ∧ mt_cover (sm_meta_tags (sync_meta ctx')) ≠ mt_cover (meta_tags (txt ctx')))
  ∧ (∃ ctx' w',
        _maybe_download_background Example.E_bg Example.ctx_bg Example.empty_world
        = Ok ctx' w'
        ∧ calls w'
          = calls Example.empty_world
            ++ [CallImage "https://bg.jpg" BACKGROUND
                  (file_path (locations Example.ctx_bg) "" "")]
        ∧ mt_background (sm_meta_tags (sync_meta ctx'))
          ≠ mt_background (meta_tags (txt ctx'))).
Proof.
  split.
  - eapply (proj1 (changed_image_tag_is_not_recorded Example.E_cover Example.ctx_cover
                     Example.world_cover)).
    + by eexists.
    + vm_compute. reflexivity.
    + reflexivity.
    + done.
  - eapply (proj2 (changed_image_tag_is_not_recorded Example.E_bg Example.ctx_bg
                     Example.empty_world)).
    + reflexivity.
    + reflexivity.
    + vm_compute. reflexivity.
    + reflexivity.
    + done.
Defined.

(** The synced m4a of the example gets its atoms merged in. *)
Lemma m4a_tags_are_merged_witness :
  let w := Example.world_later in
  let w' := world_of (_write_m4a_tags Example.E_later Example.audio_m4a
                        Example.ctx_later true w) in
  ∃ bytes old,
    read_file (fs w) Example.audio_m4a = Some (mkContent (Payload bytes) old)
    ∧ old ≠ ∅
    ∧ ∃ t, read_file (fs w') Example.audio_m4a = Some (mkContent (Payload bytes) t)
           ∧ t !! "\xa9ART" = Some (Text "Artist A")
           ∧ t !! "covr" = Some (Pictures [])
           ∧ t !! "encoder" = old !! "encoder".
Proof.
  intros w w'.
  destruct (proj1 (m4a_tags_are_merged Example.E_later Example.audio_m4a
                     Example.ctx_later true w) w')
    as (bytes & old & Hread & _ & Hnew); [by vm_compute|].
  exists bytes, old. split; [exact Hread|].
  assert (read_file (fs w) Example.audio_m4a = Some (Example.media "c2")) as Hmedia
    by (vm_compute; reflexivity).
  rewrite Hmedia in Hread. injection Hread as <- <-.
  assert (tags (Example.media "c2") ≠ ∅) as Hold.
  { vm_compute. intros H. discriminate H. }
  split; [exact Hold|].
  destruct (Hnew Hold) as (t & covr & Hw' & Hart & _ & _ & _ & Hcovr & Hread' & _ & _ & Hk).
  exists t. split; [rewrite Hw'; apply read_file_write_file_eq|].
  split; [exact Hart|]. split.
  - rewrite Hcovr. by injection Hread' as <-.
  - apply (Hk "encoder"); [|done..]. unfold m4a_keys. intros Hin.
    repeat (apply elem_of_cons in Hin as [?|Hin]; [discriminate|]).
    by apply elem_of_nil in Hin.
Defined.

(** The synced song of the example, synced again: its files stay. *)
Lemma run_removes_no_file_witness :
  grows (fs Example.world_later)
    (fs (world_of (run_with_context Example.E_later 1 Example.ctx_later
                     Example.world_later))).
Proof.
  apply (run_removes_no_file Example.E_later 1 Example.ctx_later Example.world_later).
  vm_compute. reflexivity.
Defined.

(** The new song of the example: what the run reports is what it wrote. *)
Lemma reported_files_are_on_disk_witness :
  let w' := world_of (run Example.E_fresh Example.info_new Example.all_options
                        Example.empty_world) in
  ∃ p sm,
    last (events w')
    = Some (OnFinish (mkDownloadResult 1 (Some (mkLocalFiles p sm))))
    ∧ read_file (fs w') (parent p, sync_meta_name (sm_song_id sm))
      = Some (mkContent (MetaJson sm) ∅)
    ∧ (name p = sync_meta_name (sm_song_id sm) →
       ∀ id mt, _load_sync_meta p id mt w' = Ok sm w')
    ∧ (∀ o, txt_options Example.all_options = Some o →
            ∃ m t, sm_txt sm = Some m
                   ∧ read_file (fs w') (parent p, fname m)
                     = Some (mkContent (TxtData t (encoding o) (newline o)) ∅)).
Proof.
  intros w'.
  assert (run Example.E_fresh Example.info_new Example.all_options Example.empty_world
          = Ok tt w') as Hrun by (vm_compute; reflexivity).
  assert (∃ p sm, last (events w')
                  = Some (OnFinish (mkDownloadResult 1 (Some (mkLocalFiles p sm)))))
    as (p & sm & Hlast) by (vm_compute; eexists _, _; reflexivity).
  exists p, sm. split; [exact Hlast|].
  exact (reported_files_are_on_disk Example.E_fresh Example.info_new Example.all_options
           Example.empty_world w' p sm Hrun Hlast).
Defined.


(** The pinned song alone: nothing is requested. *)
Lemma download_of_nothing_requests_nothing_witness :
  ∃ t', _download Example.PENDING Example.can_be_downloaded Example.ids_for_rows
          Example.all_options [1] Example.table = Ok tt t'
        ∧ posted t' = posted Example.table ∧ songs t' = songs Example.table
        ∧ threadpool t' = threadpool Example.table.
Proof.
  apply (download_of_nothing_requests_nothing Example.PENDING Example.can_be_downloaded
           Example.ids_for_rows Example.all_options [1] Example.table).
  intros id Hin. change (Example.ids_for_rows [1]) with [2%Z] in Hin.
  apply list_elem_of_singleton in Hin as ->.
  exists Example.song2. split; [reflexivity|]. left. reflexivity.
Defined.

(** The first song and a row whose song is not in the table. *)
Lemma download_of_unknown_song_asserts_witness :
  ∃ batch t1,
    collect_downloads Example.PENDING Example.can_be_downloaded [1%Z] [] Example.table
    = Ok batch t1
    ∧ _download Example.PENDING Example.can_be_downloaded Example.ids_for_rows
        Example.all_options [0; 5] Example.table
      = Raised AssertionError t1
    ∧ posted t1 = posted Example.table ++ map (λ s, SongChanged (us_song_id s)) batch
    ∧ Forall (λ s, status s = Example.PENDING) batch
    ∧ threadpool t1 = threadpool Example.table.
Proof.
  apply (download_of_unknown_song_asserts Example.PENDING Example.can_be_downloaded
           Example.ids_for_rows Example.all_options [0; 5] Example.table [1%Z] [] 6%Z).
  - reflexivity.
  - intros i Hi. apply list_elem_of_singleton in Hi as ->. by eexists.
  - reflexivity.
Defined.

(** The three songs selected: the two that are collected are marked. *)
Lemma download_marks_what_it_collects_witness :
  ∃ batch t',
    collect_downloads Example.PENDING Example.can_be_downloaded [1%Z; 2%Z; 3%Z] []
      Example.table = Ok batch t'
    ∧ posted t' = posted Example.table ++ map (λ s, SongChanged (us_song_id s)) batch
    ∧ Forall (λ s, status s = Example.PENDING) batch
    ∧ (∀ song, song ∈ batch → ∃ k, k ∈ [1%Z; 2%Z; 3%Z] ∧ songs t' !! k = Some song)
    ∧ (∀ k, k ∉ [1%Z; 2%Z; 3%Z] → songs t' !! k = songs Example.table !! k).
Proof.
  assert (∃ batch t',
            collect_downloads Example.PENDING Example.can_be_downloaded [1%Z; 2%Z; 3%Z] []
              Example.table = Ok batch t') as (batch & t' & Hrun)
    by (vm_compute; eexists _, _; reflexivity).
  exists batch, t'. split; [exact Hrun|].
  exact (download_marks_what_it_collects Example.PENDING Example.can_be_downloaded
           [1%Z; 2%Z; 3%Z] Example.table t' batch Hrun).
Defined.

(** The three songs selected a second time: nothing is requested. *)
Lemma download_again_requests_nothing_witness :
  ∃ batch t1 t3,
    collect_downloads Example.PENDING Example.can_be_downloaded
      (Example.ids_for_rows [0; 1; 2]) [] Example.table = Ok batch t1
    ∧ _download Example.PENDING Example.can_be_downloaded Example.ids_for_rows
        Example.all_options [0; 1; 2] t1 = Ok tt t3
    ∧ posted t3 = posted t1 ∧ songs t3 = songs t1 ∧ threadpool t3 = threadpool t1.
Proof.
  assert (∃ batch t1,
            collect_downloads Example.PENDING Example.can_be_downloaded
              (Example.ids_for_rows [0; 1; 2]) [] Example.table = Ok batch t1)
    as (batch & t1 & Hrun) by (vm_compute; eexists _, _; reflexivity).
  destruct (download_again_requests_nothing Example.PENDING Example.can_be_downloaded
              Example.ids_for_rows Example.all_options [0; 1; 2] Example.table t1 t1 batch
              eq_refl Hrun eq_refl) as (t3 & H3).
  by exists batch, t1, t3.
Defined.

(** The three songs pinned: neither action touches a synced one. *)
Lemma pinned_selection_is_left_alone_witness :
  let t' := (set_pin_selected_songs Example.ids_for_rows true [0; 1; 2] Example.table).1 in
  trashed (delete_selected_songs Example.ids_for_rows has_pinned_meta [0; 1; 2] t')
  = trashed Example.table
  ∧ deleted (delete_selected_songs Example.ids_for_rows has_pinned_meta [0; 1; 2] t')
    = deleted Example.table
  ∧ ∀ batch t'',
      collect_downloads Example.PENDING Example.can_be_downloaded
        (Example.ids_for_rows [0; 1; 2]) [] t' = Ok batch t'' →
      ∀ song, song ∈ batch → us_sync_meta song = None.
Proof.
  apply (pinned_selection_is_left_alone Example.PENDING Example.can_be_downloaded
           Example.ids_for_rows has_pinned_meta
           ltac:(intros song m Hm; unfold has_pinned_meta; by rewrite Hm)
           [0; 1; 2] Example.table).
Defined.

(** The synced song of the example, run with every option off: the run
    succeeds and calls nothing. *)
Lemma run_with_every_option_off_witness :
  ∃ w', run_with_context Example.E_tags 1 Example.ctx_idle Example.world_tags = Ok tt w'
        ∧ calls w' = []
        ∧ events w' = [OnFinish (mkDownloadResult 1
                         (Some (mkLocalFiles (Example.song_directory, "1.usdb")
                                  Example.synced_tags)))].
Proof.
  eexists. split; [|split].
  - apply (run_with_every_option_off Example.E_tags 1 Example.ctx_idle Example.world_tags);
      vm_compute; reflexivity.
  - reflexivity.
  - reflexivity.
Defined.

(** The song whose title changed: its directory is renamed, the audio file
    gets the name that fits, and the descriptor still finds it. *)
Lemma renamed_audio_stays_synced_witness :
  ∃ l' sm' w' m',
    ensure_correct_paths Example.E_rename Example.loc_BC Example.synced_B Example.world_B
    = Ok (l', sm') w'
    ∧ dir_path l' = ["songs"; "Artist A - Title C"]
    ∧ synced_audio sm' (dir_path l') (fs w') = Some m'
    ∧ resource m' = "c1"
    ∧ read_file (fs w') (dir_path l', fname m') = Some (Example.media "c1").
Proof.
  destruct (renamed_audio_stays_synced Example.E_rename Example.loc_BC Example.synced_B
              Example.world_B Example.files_B
              (mkFileMeta "Artist A - Title B.mp3" "c1") (Example.media "c1"))
    as (l' & sm' & w' & m' & Hrun & Hdir & Hsynced & Hres & Hread & _).
  - vm_compute. reflexivity.
  - vm_compute. reflexivity.
  - reflexivity.
  - reflexivity.
  - vm_compute. reflexivity.
  - intros m2 [H|[H|[H|H]]]; try discriminate H; injection H as <-;
      split; vm_compute; intros H; discriminate H.
  - exists l', sm', w', m'. rewrite Hdir.
    assert (next_unique_directory Example.E_rename (fs Example.world_B)
              (dir_with_name (dir_path Example.loc_BC) (filename_stem Example.loc_BC))
            = ["songs"; "Artist A - Title C"]) as Hnew by (vm_compute; reflexivity).
    rewrite Hnew in *.
    split; [exact Hrun|]. split; [reflexivity|]. split; [exact Hsynced|].
    split; [exact Hres|]. exact Hread.
Defined.
